(** * packager/rbi_gen.cc: RBI export of a package's public interface

    A shallow embedding of [RBIExporter] (the closure builder, the renderer
    and the dependency accumulators) over an abstract [GlobalState], and the
    properties of it that the specification states.

    Conventions of the embedding:
    - the read-only collaborators of the exporter ([core::GlobalState], the
      package database, [TypePtr::show], the name table) are the fields of
      the records [GlobalState] and [PackageInfo];
    - the mutable members of [RBIExporter] are the record [RBIExporter], and
      every member function is a computation in the monad [M], which threads
      that record, propagates [Exception::raise] and runs out of fuel where
      the C++ would not return;
    - [ENFORCE] is compiled out, as in a release build. *)

From Stdlib Require Import String Ascii ZArith NArith List Lia.
From stdpp Require Import base decidable countable gmap sets list strings.

Local Open Scope string_scope.
Local Open Scope Z_scope.

(** ** Strings: the absl/fmt helpers the exporter calls *)

Definition dquote : string := String (ascii_of_nat 34) EmptyString.
Definition newline_char : ascii := ascii_of_nat 10.
Definition newline : string := String newline_char EmptyString.

(** [std::string(n, ' ')] *)
Fixpoint spaces (n : nat) : string :=
  match n with
  | O => EmptyString
  | S n' => String " " (spaces n')
  end.

(** [absl::StartsWith(text, prefix)] *)
Definition StartsWith (text pre : string) : bool := String.prefix pre text.

(** [absl::EndsWith(text, suffix)] *)
Definition EndsWith (text suf : string) : bool :=
  String.prefix (String.rev suf) (String.rev text).

(** [absl::StrReplaceAll(arg, {{"\n", "\n" + tabStr}})] *)
Fixpoint indentNewlines (tabStr arg : string) : string :=
  match arg with
  | EmptyString => EmptyString
  | String c rest =>
      if Ascii.eqb c newline_char
      then String c (tabStr +:+ indentNewlines tabStr rest)
      else String c (indentNewlines tabStr rest)
  end.

(** [fmt::join(items, sep)] and [absl::StrJoin] *)
Fixpoint join (sep : string) (items : list string) : string :=
  match items with
  | [] => EmptyString
  | [x] => x
  | x :: rest => x +:+ sep +:+ join sep rest
  end.

(** [absl::ByAnyChar(delims)] *)
Fixpoint ByAnyChar (delims : string) (c : ascii) : bool :=
  match delims with
  | EmptyString => false
  | String d rest => Ascii.eqb c d || ByAnyChar rest c
  end.

(** [absl::StrSplit(text, delimiter)]: every delimiter character ends a
    component, empty components are kept, and the empty text has one empty
    component. *)
Fixpoint StrSplit (text : string) (delimiter : ascii -> bool) : list string :=
  match text with
  | EmptyString => [EmptyString]
  | String c rest =>
      if delimiter c then EmptyString :: StrSplit rest delimiter
      else match StrSplit rest delimiter with
           | [] => [String c EmptyString]
           | w :: ws => String c w :: ws
           end
  end.

(** [absl::ascii_isspace] *)
Definition ascii_isspace (c : ascii) : bool :=
  let n := nat_of_ascii c in
  (Nat.eqb n 32 || (Nat.leb 9 n && Nat.leb n 13))%bool.

Fixpoint stripLeading (s : string) : string :=
  match s with
  | EmptyString => EmptyString
  | String c rest => if ascii_isspace c then stripLeading rest else s
  end.

(** [absl::StripAsciiWhitespace] *)
Definition StripAsciiWhitespace (s : string) : string :=
  String.rev (stripLeading (String.rev (stripLeading s))).

Definition string_empty (s : string) : bool :=
  match s with EmptyString => true | _ => false end.

(** ** Handles into the symbol table

    [core::SymbolRef] is a kind and an index; index 0 of every kind is the
    symbol that does not exist ([Symbols::noClassOrModule()], ...). *)

Abbreviation ClassOrModuleRef := N (only parsing).
Abbreviation MethodRef := N (only parsing).
Abbreviation FieldRef := N (only parsing).
Abbreviation TypeMemberRef := N (only parsing).
Abbreviation TypeArgumentRef := N (only parsing).
Abbreviation NameRef := N (only parsing).
Abbreviation FileRef := N (only parsing).

Inductive Kind := ClassOrModule | Method | FieldOrStaticField | TypeArgument | TypeMember.

Record SymbolRef := mkSym { kind : Kind; idx : N }.

#[global] Instance Kind_eq_dec : EqDecision Kind.
Proof. solve_decision. Defined.

#[global] Instance SymbolRef_eq_dec : EqDecision SymbolRef.
Proof. solve_decision. Defined.

Definition Kind_to_nat (k : Kind) : nat :=
  match k with
  | ClassOrModule => 0 | Method => 1 | FieldOrStaticField => 2
  | TypeArgument => 3 | TypeMember => 4
  end.

Definition Kind_of_nat (n : nat) : Kind :=
  match n with
  | 0%nat => ClassOrModule | 1%nat => Method | 2%nat => FieldOrStaticField
  | 3%nat => TypeArgument | _ => TypeMember
  end.

#[global] Instance SymbolRef_countable : Countable SymbolRef.
Proof.
  refine (inj_countable' (fun s => (Kind_to_nat (kind s), idx s))
                         (fun p => mkSym (Kind_of_nat (fst p)) (snd p)) _).
  intros [[] i]; reflexivity.
Defined.

Definition classSym (k : ClassOrModuleRef) : SymbolRef := mkSym ClassOrModule k.
Definition methodSym (m : MethodRef) : SymbolRef := mkSym Method m.
Definition fieldSym (f : FieldRef) : SymbolRef := mkSym FieldOrStaticField f.
Definition typeMemberSym (t : TypeMemberRef) : SymbolRef := mkSym TypeMember t.
Definition typeArgumentSym (t : TypeArgumentRef) : SymbolRef := mkSym TypeArgument t.

Definition noClassOrModule : ClassOrModuleRef := 0%N.

Definition ref_exists (r : N) : bool := negb (N.eqb r 0).
Definition symbol_exists (s : SymbolRef) : bool := ref_exists (idx s).

Definition isClassOrModule (s : SymbolRef) : bool :=
  match kind s with ClassOrModule => true | _ => false end.
Definition isTypeMember (s : SymbolRef) : bool :=
  match kind s with TypeMember => true | _ => false end.
Definition asClassOrModuleRef (s : SymbolRef) : ClassOrModuleRef := idx s.
Definition asTypeMemberRef (s : SymbolRef) : TypeMemberRef := idx s.

(** ** Types: [core::TypePtr] by tag *)

#[warnings="-register-all"]
Inductive TypePtr :=
| nullptr
| AliasType (symbol : SymbolRef)
| AndType (left right : TypePtr)
| AppliedType (klass : ClassOrModuleRef) (targs : list TypePtr)
| BlamedUntyped
| ClassType (symbol : ClassOrModuleRef)
| LiteralType (literal : N)
| MetaType (wrapped : TypePtr)
| OrType (left right : TypePtr)
| SelfType
| SelfTypeParam (definition : SymbolRef)
| ShapeType (keys values : list TypePtr)
| TupleType (elems : list TypePtr)
| TypeVar (sym : TypeArgumentRef)
| UnresolvedAppliedType (klass symbol : ClassOrModuleRef) (targs : list TypePtr)
| UnresolvedClassType
| LambdaParam (definition : TypeMemberRef) (lowerBound upperBound : TypePtr).

Definition is_nullptr (t : TypePtr) : bool :=
  match t with nullptr => true | _ => false end.

(** ** The symbol graph: what [core::GlobalState] answers

    Every record below is the view the exporter has of one table of
    [GlobalState]; accessors that take [gs] in the C++ ([show(gs)],
    [isSingletonClass(gs)], [attachedClass(gs)], ...) are fields here. *)

Record Loc := mkLoc { loc_exists : bool; loc_file : FileRef; loc_begin : N; loc_end : N }.

#[global] Instance Loc_eq_dec : EqDecision Loc.
Proof. solve_decision. Defined.

Inductive NameKind := UTF8 | UNIQUE | CONSTANT.

Record Name := mkName {
  n_kind : NameKind;
  n_show : string;
  n_shortName : string;
  n_toString : string
}.

Record ArgFlags := mkArgFlags {
  af_isKeyword : bool;
  af_isRepeated : bool;
  af_isDefault : bool;
  af_isBlock : bool
}.

(** [core::ArgInfo]; [argumentName(gs)] and [isSyntheticBlockArgument()] are
    computed by core from the name and the loc. *)
Record ArgInfo := mkArg {
  arg_name : NameRef;
  arg_type : TypePtr;
  arg_flags : ArgFlags;
  arg_argumentName : string;
  arg_isSyntheticBlockArgument : bool
}.

Record ClassOrModuleData := mkClass {
  co_owner : ClassOrModuleRef;
  co_name : NameRef;
  co_show : string;
  co_loc : Loc;
  co_superClass : ClassOrModuleRef;
  co_mixins : list ClassOrModuleRef;
  co_typeMembers : list TypeMemberRef;
  co_membersStableOrderSlow : list (NameRef * SymbolRef);
  co_findMemberNoDealias : NameRef -> SymbolRef;
  co_isSingletonClass : bool;
  co_attachedClass : ClassOrModuleRef;
  co_lookupSingletonClass : ClassOrModuleRef;
  co_isClassOrModuleClass : bool;
  co_isClassOrModuleAbstract : bool;
  co_isClassOrModuleFinal : bool;
  co_isClassOrModuleInterface : bool;
  co_isClassOrModuleSealed : bool
}.

Record MethodFlags := mkMethodFlags {
  mf_isFinal : bool;
  mf_isAbstract : bool;
  mf_isOverridable : bool;
  mf_isOverride : bool;
  mf_isPrivate : bool;
  mf_isProtected : bool
}.

Record MethodData := mkMethod {
  me_owner : ClassOrModuleRef;
  me_name : NameRef;
  me_loc : Loc;
  me_source : option string;          (* [loc().source(gs)] *)
  me_arguments : list ArgInfo;
  me_typeArguments : list TypeArgumentRef;
  me_flags : MethodFlags;
  me_resultType : TypePtr;
  me_hasSig : bool;
  me_dealiasMethod : MethodRef
}.

Record FieldData := mkField {
  fi_owner : ClassOrModuleRef;
  fi_name : NameRef;
  fi_show : string;
  fi_loc : Loc;
  fi_isField : bool;
  fi_isStaticField : bool;
  fi_isStaticFieldTypeAlias : bool;
  fi_resultType : TypePtr
}.

Inductive Variance := CoVariant | Invariant | ContraVariant.

Record TypeParameterData := mkTypeParameter {
  tp_owner : SymbolRef;
  tp_name : NameRef;
  tp_show : string;
  tp_loc : Loc;
  tp_isFixed : bool;
  tp_variance : Variance;
  tp_resultType : TypePtr
}.

Record FileData := mkFile { fd_path : string; fd_isRBI : bool; fd_isPayload : bool }.

Record GlobalState := mkGlobalState {
  (* symbol tables *)
  classOrModuleData : ClassOrModuleRef -> ClassOrModuleData;
  methodData : MethodRef -> MethodData;
  fieldData : FieldRef -> FieldData;
  typeMemberData : TypeMemberRef -> TypeParameterData;
  typeArgumentData : TypeArgumentRef -> TypeParameterData;
  fileData : FileRef -> FileData;
  nameData : NameRef -> Name;
  (* name table *)
  lookupWithEq : NameRef -> NameRef;
  lookupWithAt : NameRef -> NameRef;
  lookupNameConstant : string -> NameRef;
  lookupClassSymbol : ClassOrModuleRef -> NameRef -> ClassOrModuleRef;
  (* [core::Names] *)
  Names_initialize : NameRef;
  Names_staticInit : NameRef;
  Names_mixedInClassMethods : NameRef;
  Names_sealedSubclasses : NameRef;
  Names_singleton : NameRef;
  Names_attached : NameRef;
  Names_Constants_AttachedClass : NameRef;
  Names_Constants_Test : NameRef;
  (* [core::Symbols] *)
  Symbols_root : ClassOrModuleRef;
  Symbols_PackageRegistry : ClassOrModuleRef;
  Symbols_T_Enum : ClassOrModuleRef;
  Symbols_T_Struct : ClassOrModuleRef;
  Symbols_Sorbet_Private_Static_ImplicitModuleSuperClass : ClassOrModuleRef;
  Symbols_Opus : ClassOrModuleRef;
  (* [core::Types] and [core::TypePtr] *)
  type_show : TypePtr -> string;
  Types_untypedUntracked : TypePtr;
  is_void : TypePtr -> bool;              (* [t == core::Types::void_()] *)
  is_proxy_type : TypePtr -> bool;
  underlying : TypePtr -> TypePtr;
  enclosingClass : SymbolRef -> ClassOrModuleRef;
  resultTypeAsSeenFrom :
    TypePtr -> ClassOrModuleRef -> ClassOrModuleRef -> list TypePtr -> TypePtr;
  replaceSelfType : TypePtr -> TypePtr -> TypePtr;
  instantiate : TypePtr -> N -> TypePtr
}.

(** [core::packages::PackageInfo] *)
Record PackageInfo := mkPackageInfo {
  fullName : list NameRef;
  mangledName : NameRef;
  exports : list (list NameRef);
  testExports : list (list NameRef)
}.

(** [SymbolRef::owner(gs)], [SymbolRef::loc(gs)] and [SymbolRef::show(gs)]
    dispatch on the kind. *)
Definition SymbolRef_owner (gs : GlobalState) (s : SymbolRef) : SymbolRef :=
  match kind s with
  | ClassOrModule => classSym (co_owner (classOrModuleData gs (idx s)))
  | Method => classSym (me_owner (methodData gs (idx s)))
  | FieldOrStaticField => classSym (fi_owner (fieldData gs (idx s)))
  | TypeArgument => tp_owner (typeArgumentData gs (idx s))
  | TypeMember => tp_owner (typeMemberData gs (idx s))
  end.

Definition SymbolRef_loc (gs : GlobalState) (s : SymbolRef) : Loc :=
  match kind s with
  | ClassOrModule => co_loc (classOrModuleData gs (idx s))
  | Method => me_loc (methodData gs (idx s))
  | FieldOrStaticField => fi_loc (fieldData gs (idx s))
  | TypeArgument => tp_loc (typeArgumentData gs (idx s))
  | TypeMember => tp_loc (typeMemberData gs (idx s))
  end.

Definition method_show_name (gs : GlobalState) (m : MethodRef) : string :=
  n_show (nameData gs (me_name (methodData gs m))).

Definition SymbolRef_show (gs : GlobalState) (s : SymbolRef) : string :=
  match kind s with
  | ClassOrModule => co_show (classOrModuleData gs (idx s))
  | Method => method_show_name gs (idx s)
  | FieldOrStaticField => fi_show (fieldData gs (idx s))
  | TypeArgument => tp_show (typeArgumentData gs (idx s))
  | TypeMember => tp_show (typeMemberData gs (idx s))
  end.

(** ** [lookupFQN] *)

Fixpoint lookupFQN_from (gs : GlobalState) (scope : SymbolRef) (fqn : list NameRef) : SymbolRef :=
  match fqn with
  | [] => scope
  | name :: rest =>
      if isClassOrModule scope then
        let result := co_findMemberNoDealias (classOrModuleData gs (asClassOrModuleRef scope)) name in
        if negb (symbol_exists result) then classSym noClassOrModule
        else lookupFQN_from gs result rest
      else classSym noClassOrModule
  end.

Definition lookupFQN (gs : GlobalState) (fqn : list NameRef) : SymbolRef :=
  lookupFQN_from gs (classSym (Symbols_root gs)) fqn.

(** ** [getResultType]; a null receiver or constraint is [nullptr] / [None] *)

Definition getResultType (gs : GlobalState) (type : TypePtr) (inWhat : SymbolRef)
    (receiver : TypePtr) (constr : option N) : TypePtr :=
  let resultType := type in
  let receiver := if is_proxy_type gs receiver then underlying gs receiver else receiver in
  let resultType :=
    match receiver with
    | AppliedType klass targs =>
        resultTypeAsSeenFrom gs resultType (enclosingClass gs inWhat) klass targs
    | _ => resultType
    end in
  let resultType := if is_nullptr resultType then Types_untypedUntracked gs else resultType in
  let resultType :=
    if is_nullptr receiver then resultType else replaceSelfType gs resultType receiver in
  match constr with
  | Some c => instantiate gs resultType c
  | None => resultType
  end.

Definition MAX_PRETTY_SIG_ARGS : nat := 4.
Definition MAX_PRETTY_WIDTH : nat := 80.

(** ** The exporter's mutable members *)

(** [class Output]: the buffer, the indentation level and its tab string. *)
Record Output := mkOutput { out_buf : string; out_indent : Z; out_tabStr : string }.

Record RBIExporter := mkExporter {
  emittedSymbols : gset SymbolRef;
  referencedPackages : gmap ClassOrModuleRef SymbolRef;   (* package => blame *)
  referencedRBIs : gset FileRef;
  toEmit : list SymbolRef;
  out : Output
}.

Definition initialOutput : Output := mkOutput EmptyString 0 EmptyString.

Definition initialExporter : RBIExporter := mkExporter ∅ ∅ ∅ [] initialOutput.

(** ** The monad of member functions *)

Inductive Result (A : Type) : Type :=
| Ok (a : A)
| Raise (msg : string)      (* [Exception::raise] *)
| OutOfFuel.                (* the walk or loop did not finish within the budget *)

Arguments Ok {A} a.
Arguments Raise {A} msg.
Arguments OutOfFuel {A}.

Definition M (A : Type) : Type := RBIExporter -> Result (A * RBIExporter).

Definition ret {A} (a : A) : M A := fun st => Ok (a, st).

Definition bind {A B} (m : M A) (k : A -> M B) : M B :=
  fun st =>
    match m st with
    | Ok (a, st') => k a st'
    | Raise msg => Raise msg
    | OutOfFuel => OutOfFuel
    end.

Definition raise {A} (msg : string) : M A := fun _ => Raise msg.
Definition outOfFuel {A} : M A := fun _ => OutOfFuel.
Definition gets {A} (f : RBIExporter -> A) : M A := fun st => Ok (f st, st).
Definition modify (f : RBIExporter -> RBIExporter) : M unit := fun st => Ok (tt, f st).

Declare Scope exporter_scope.
Delimit Scope exporter_scope with exporter.
Notation "'let*' x ':=' c1 'in' c2" := (bind c1 (fun x => c2))
  (at level 10, x pattern, c1 at level 100, c2 at level 200) : exporter_scope.
Notation "c1 >> c2" := (bind c1 (fun _ => c2))
  (at level 60, right associativity) : exporter_scope.
Local Open Scope exporter_scope.

Definition when (b : bool) (m : M unit) : M unit := if b then m else ret tt.

(** A range-based [for] whose body only touches the exporter. *)
Fixpoint forEach {A} (l : list A) (body : A -> M unit) : M unit :=
  match l with
  | [] => ret tt
  | x :: rest => body x >> forEach rest body
  end.

(** A range-based [for] whose body also updates locals [acc]. *)
Fixpoint forEachWith {A S} (l : list A) (acc : S) (body : S -> A -> M S) : M S :=
  match l with
  | [] => ret acc
  | x :: rest => let* acc' := body acc x in forEachWith rest acc' body
  end.

(** A range-based [for] that collects one value per element. *)
Fixpoint mapM {A B} (f : A -> M B) (l : list A) : M (list B) :=
  match l with
  | [] => ret []
  | x :: rest => let* y := f x in let* ys := mapM f rest in ret (y :: ys)
  end.

(** *** [Output] *)

Definition set_out (o : Output) (st : RBIExporter) : RBIExporter :=
  mkExporter (emittedSymbols st) (referencedPackages st) (referencedRBIs st) (toEmit st) o.

Definition resetTabString (o : Output) : Output :=
  mkOutput (out_buf o) (out_indent o) (spaces (Z.to_nat (out_indent o * 2))).

Definition Output_tab (o : Output) : Output :=
  resetTabString (mkOutput (out_buf o) (out_indent o + 1) (out_tabStr o)).

Definition Output_untab (o : Output) : Output :=
  resetTabString (mkOutput (out_buf o) (out_indent o - 1) (out_tabStr o)).

Definition Output_append (text : string) (o : Output) : Output :=
  mkOutput (out_buf o +:+ text) (out_indent o) (out_tabStr o).

(** [println(fmt, args...)]: [line] is the formatted text. *)
Definition Output_printlnf (line : string) (o : Output) : Output :=
  Output_append (out_tabStr o +:+ line +:+ newline) o.

(** [println(string_view)]: embedded newlines are indented too. *)
Definition Output_println (arg : string) (o : Output) : Output :=
  Output_append (out_tabStr o +:+ indentNewlines (out_tabStr o) arg +:+ newline) o.

Definition printlnf (line : string) : M unit :=
  modify (fun st => set_out (Output_printlnf line (out st)) st).

Definition println (arg : string) : M unit :=
  modify (fun st => set_out (Output_println arg (out st)) st).

(** [class Indent]: [tab] on construction, [untab] when the scope ends. *)
Definition withIndent {A} (body : M A) : M A :=
  modify (fun st => set_out (Output_tab (out st)) st) >>
  let* r := body in
  modify (fun st => set_out (Output_untab (out st)) st) >>
  ret r.

(** [Output::toString]: hands the buffer over and clears it. *)
Definition Output_toString : M string :=
  let* output := gets (fun st => out_buf (out st)) in
  modify (fun st =>
    set_out (mkOutput EmptyString (out_indent (out st)) (out_tabStr (out st))) st) >>
  ret output.

(** *** The visited set, the worklist and the accumulators *)

Definition insertEmitted (s : SymbolRef) : M unit :=
  modify (fun st =>
    mkExporter ({[s]} ∪ emittedSymbols st) (referencedPackages st) (referencedRBIs st)
               (toEmit st) (out st)).

Definition pushToEmit (s : SymbolRef) : M unit :=
  modify (fun st =>
    mkExporter (emittedSymbols st) (referencedPackages st) (referencedRBIs st)
               (toEmit st ++ [s]) (out st)).

Definition popToEmit : M unit :=
  modify (fun st =>
    mkExporter (emittedSymbols st) (referencedPackages st) (referencedRBIs st)
               (removelast (toEmit st)) (out st)).

(** [referencedPackages[package] = blame] *)
Definition setReferencedPackage (package : ClassOrModuleRef) (blame : SymbolRef) : M unit :=
  modify (fun st =>
    mkExporter (emittedSymbols st) (<[package := blame]> (referencedPackages st))
               (referencedRBIs st) (toEmit st) (out st)).

Definition insertReferencedRBI (file : FileRef) : M unit :=
  modify (fun st =>
    mkExporter (emittedSymbols st) (referencedPackages st) ({[file]} ∪ referencedRBIs st)
               (toEmit st) (out st)).

(** ** [class RBIExporter] *)

Section Exporter.

Context (gs : GlobalState) (pkg : PackageInfo).
Context (pkgNamespaces : gset ClassOrModuleRef).
(** [fuel] bounds every walk along owner, attached-class and superclass links
    and the number of symbols [emitLoop] takes off the worklist. *)
Context (fuel : nat).

(** The members the constructor initialises. *)
Definition pkgNamespace : ClassOrModuleRef :=
  asClassOrModuleRef (lookupFQN gs (fullName pkg)).

Definition getPkgTestNamespace : ClassOrModuleRef :=
  asClassOrModuleRef (lookupFQN gs (Names_Constants_Test gs :: fullName pkg)).

Definition pkgTestNamespace : ClassOrModuleRef := getPkgTestNamespace.

Definition flatfileRecord : ClassOrModuleRef :=
  let flatFiles := lookupClassSymbol gs (Symbols_Opus gs) (lookupNameConstant gs "Flatfiles") in
  if ref_exists flatFiles
  then lookupClassSymbol gs flatFiles (lookupNameConstant gs "Record")
  else noClassOrModule.

Definition isRootOrRegistry (sym : SymbolRef) : bool :=
  bool_decide (sym = classSym (Symbols_root gs))
  || bool_decide (sym = classSym (Symbols_PackageRegistry gs)).

Definition isPackageNamespace (sym : SymbolRef) : bool :=
  isClassOrModule sym && bool_decide (asClassOrModuleRef sym ∈ pkgNamespaces).

Fixpoint isInTestPackage_fuel (n : nat) (sym : SymbolRef) : Result bool :=
  if isRootOrRegistry sym then Ok false
  else if bool_decide (sym = classSym pkgNamespace) then Ok false
  else if bool_decide (sym = classSym pkgTestNamespace) then Ok true
  else if isPackageNamespace sym then Ok false
  else match n with
       | O => OutOfFuel
       | S n' => isInTestPackage_fuel n' (SymbolRef_owner gs sym)
       end.

Definition isInTestPackage (sym : SymbolRef) : Result bool := isInTestPackage_fuel fuel sym.

Fixpoint isInPackage_fuel (n : nat) (sym original : SymbolRef) : M bool :=
  if isRootOrRegistry sym then
    (* Symbol isn't part of a package. Check if it was defined in an RBI. *)
    let loc := SymbolRef_loc gs original in
    when (loc_exists loc && fd_isRBI (fileData gs (loc_file loc))
          && negb (fd_isPayload (fileData gs (loc_file loc))))
         (insertReferencedRBI (loc_file loc)) >>
    ret false
  else if bool_decide (sym = classSym pkgNamespace)
          || bool_decide (sym = classSym pkgTestNamespace) then ret true
  else if isPackageNamespace sym then
    setReferencedPackage (asClassOrModuleRef sym) original >> ret false
  else match n with
       | O => outOfFuel
       | S n' => isInPackage_fuel n' (SymbolRef_owner gs sym) original
       end.

Definition isInPackage (sym original : SymbolRef) : M bool := isInPackage_fuel fuel sym original.

Definition isSingletonClassSymbol (symbol : SymbolRef) : bool :=
  isClassOrModule symbol
  && co_isSingletonClass (classOrModuleData gs (asClassOrModuleRef symbol)).

Fixpoint maybeEmit_fuel (n : nat) (symbol : SymbolRef) : M unit :=
  if isSingletonClassSymbol symbol then
    match n with
    | O => outOfFuel
    | S n' =>
        maybeEmit_fuel n'
          (classSym (co_attachedClass (classOrModuleData gs (asClassOrModuleRef symbol))))
    end
  else
    let* emitted := gets emittedSymbols in
    if bool_decide (symbol ∈ emitted) then ret tt
    else
      let* inPackage := isInPackage symbol symbol in
      if inPackage then insertEmitted symbol >> pushToEmit symbol else ret tt.

Definition maybeEmit (symbol : SymbolRef) : M unit := maybeEmit_fuel fuel symbol.

Fixpoint enqueueSymbolsInType (type : TypePtr) : M unit :=
  let enqueueAll := fix enqueueAll (types : list TypePtr) : M unit :=
    match types with
    | [] => ret tt
    | t :: rest => enqueueSymbolsInType t >> enqueueAll rest
    end in
  match type with
  | nullptr => ret tt
  | AliasType symbol => maybeEmit symbol
  | AndType l r => enqueueSymbolsInType l >> enqueueSymbolsInType r
  | AppliedType klass targs => maybeEmit (classSym klass) >> enqueueAll targs
  | BlamedUntyped => ret tt
  | ClassType symbol => maybeEmit (classSym symbol)
  | LiteralType _ => ret tt
  | MetaType wrapped => enqueueSymbolsInType wrapped
  | OrType l r => enqueueSymbolsInType l >> enqueueSymbolsInType r
  | SelfType => ret tt
  | SelfTypeParam definition => maybeEmit definition
  | ShapeType keys values => enqueueAll keys >> enqueueAll values
  | TupleType elems => enqueueAll elems
  | TypeVar _ => ret tt
  | UnresolvedAppliedType klass symbol targs =>
      maybeEmit (classSym klass) >> maybeEmit (classSym symbol) >> enqueueAll targs
  | UnresolvedClassType => ret tt
  | LambdaParam _ _ _ => ret tt
  end.

Definition showType (type : TypePtr) : M string :=
  if is_nullptr type then ret EmptyString
  else enqueueSymbolsInType type >> ret (type_show gs type).

(** *** Delegation *)

Definition defDelegator : string := "def_delegator".
Definition defDelegators : string := "def_delegators".

(** The delimiters of [absl::ByAnyChar(" \n(),")]. *)
Definition delegatorDelims : string := String " " (String newline_char "(),").

(** The loop over the components of the declaration text: the first
    component is passed over, and the first later one that is not blank
    after stripping is the result. *)
Fixpoint firstTarget (i : nat) (components : list string) : option string :=
  match components with
  | [] => None
  | component :: rest =>
      let i := S i in
      if Nat.ltb 1 i then
        let stripped := StripAsciiWhitespace component in
        if negb (string_empty stripped) then Some stripped else firstTarget i rest
      else firstTarget i rest
  end.

Definition tryEmitDefDelegator (method : MethodRef) : M bool :=
  match me_arguments (methodData gs method) with
  | [] => ret false
  | arg0 :: _ =>
      let argName := arg_argumentName arg0 in
      if negb (StartsWith argName defDelegator) then ret false
      else if StartsWith argName defDelegators then
        let components := StrSplit argName (ByAnyChar delegatorDelims) in
        match firstTarget 0 components with
        | Some stripped =>
            printlnf ("def_delegator " +:+ stripped +:+ ", :" +:+ method_show_name gs method) >>
            ret true
        | None => raise "Invalid def_delegator!"
        end
      else println argName >> ret true
  end.

(** *** Signatures and definitions *)

Definition sigFlags (f : MethodFlags) : list string :=
  (if mf_isAbstract f then ["abstract"] else [])
  ++ (if mf_isOverridable f then ["overridable"] else [])
  ++ (if mf_isOverride f then ["override"] else []).

(** The loop that fills [typeAndArgNames]. *)
Fixpoint sigParams (method : MethodRef) (receiver : TypePtr) (constraint : option N)
    (arguments : list ArgInfo) : M (list string) :=
  match arguments with
  | [] => ret []
  | argSym :: rest =>
      (* Don't display synthetic arguments (like blk). *)
      if negb (arg_isSyntheticBlockArgument argSym) then
        let argType := getResultType gs (arg_type argSym) (methodSym method) receiver constraint in
        let* shown := showType argType in
        let* others := sigParams method receiver constraint rest in
        ret ((arg_argumentName argSym +:+ ": " +:+ shown) :: others)
      else sigParams method receiver constraint rest
  end.

Definition sigOneline (sigCall : string) (flags typeArguments typeAndArgNames : list string)
    (methodReturnType : string) : string :=
  let flagString :=
    if bool_decide (flags = []) then EmptyString else join "." flags +:+ "." in
  let typeParamsString :=
    if bool_decide (typeArguments = []) then EmptyString
    else "type_parameters(" +:+ join ", " typeArguments +:+ ")." in
  let paramsString :=
    if bool_decide (typeAndArgNames = []) then EmptyString
    else "params(" +:+ join ", " typeAndArgNames +:+ ")." in
  sigCall +:+ " {" +:+ flagString +:+ typeParamsString +:+ paramsString
          +:+ methodReturnType +:+ "}".

Definition sigMultiline (sigCall : string) (flags typeArguments typeAndArgNames : list string)
    (methodReturnType : string) : string :=
  let flagString :=
    if bool_decide (flags = []) then EmptyString
    else join (newline +:+ "  .") flags +:+ newline +:+ "  ." in
  let typeParamsString :=
    if bool_decide (typeArguments = []) then EmptyString
    else "type_parameters(" +:+ join ", " typeArguments +:+ ")" +:+ newline +:+ "  ." in
  let paramsString :=
    if bool_decide (typeAndArgNames = []) then EmptyString
    else "params(" +:+ newline +:+ "    "
         +:+ join ("," +:+ newline +:+ "    ") typeAndArgNames
         +:+ newline +:+ "  )" +:+ newline +:+ "  ." in
  sigCall +:+ " do" +:+ newline +:+ "  " +:+ flagString +:+ typeParamsString +:+ paramsString
          +:+ methodReturnType +:+ newline +:+ "end".

Definition prettySigForMethod (method : MethodRef) (receiver retType : TypePtr)
    (constraint : option N) : M string :=
  (* handle this case anyways so that we don't crash in prod *)
  if negb (ref_exists method) then ret EmptyString
  else
    let sym := methodData gs method in
    let retType :=
      if is_nullptr retType
      then getResultType gs (me_resultType sym) (methodSym method) receiver constraint
      else retType in
    let* methodReturnType :=
      (if is_void gs retType then ret "void"
       else let* shown := showType retType in ret ("returns(" +:+ shown +:+ ")")) in
    let sigCall := if mf_isFinal (me_flags sym) then "sig(:final)" else "sig" in
    let flags := sigFlags (me_flags sym) in
    let typeArguments :=
      map (fun ta => ":" +:+ n_show (nameData gs (tp_name (typeArgumentData gs ta))))
          (me_typeArguments sym) in
    let* typeAndArgNames := sigParams method receiver constraint (me_arguments sym) in
    let oneline := sigOneline sigCall flags typeArguments typeAndArgNames methodReturnType in
    if Nat.leb (String.length oneline) MAX_PRETTY_WIDTH
       && Nat.leb (length typeAndArgNames) MAX_PRETTY_SIG_ARGS
    then ret oneline
    else ret (sigMultiline sigCall flags typeArguments typeAndArgNames methodReturnType).

(** The loop that fills [prettyArgs]; a forwarding parameter ends it. *)
Fixpoint prettyArgs (arguments : list ArgInfo) : list string :=
  match arguments with
  | [] => []
  | argSym :: rest =>
      (* Don't display synthetic arguments (like blk). *)
      if arg_isSyntheticBlockArgument argSym then prettyArgs rest
      else
        let argName := arg_argumentName argSym in
        if String.eqb argName "..." then
          (* The remaining arguments are synthetic (<fwd-arg>, etc). *)
          [argName]
        else
          let f := arg_flags argSym in
          let '(pre, suf) :=
            if af_isRepeated f then
              if af_isKeyword f then ("**", EmptyString) else ("*", EmptyString)
            else if af_isKeyword f then
              if af_isDefault f then (EmptyString, ": T.let(T.unsafe(nil), T.untyped)")
              else (EmptyString, ":")
            else if af_isBlock f then ("&", EmptyString)
            else if af_isDefault f then (EmptyString, "= T.let(T.unsafe(nil), T.untyped)")
            else (EmptyString, EmptyString) in
          (pre +:+ argName +:+ suf) :: prettyArgs rest
  end.

Definition prettyDefForMethod (method : MethodRef) : string :=
  (* handle this case anyways so that we don't crash in prod *)
  if negb (ref_exists method) then EmptyString
  else
    let methodData_ := methodData gs method in
    let visibility :=
      if mf_isPrivate (me_flags methodData_) then
        if co_isSingletonClass (classOrModuleData gs (me_owner methodData_))
        then "private_class_method " else "private "
      else if mf_isProtected (me_flags methodData_) then "protected "
      else EmptyString in
    let methodNameRef := me_name methodData_ in
    let methodName :=
      if ref_exists methodNameRef then n_toString (nameData gs methodNameRef) else "???" in
    let methodNamePrefix :=
      if ref_exists (me_owner methodData_)
         && ref_exists (co_attachedClass (classOrModuleData gs (me_owner methodData_)))
      then "self." else EmptyString in
    let arguments := me_arguments (methodData gs (me_dealiasMethod methodData_)) in
    let args := prettyArgs arguments in
    let '(argListPrefix, argListSeparator, argListSuffix) :=
      if Nat.ltb 0 (length args) then ("(", ", ", ")")
      else (EmptyString, EmptyString, EmptyString) in
    let result :=
      visibility +:+ "def " +:+ methodNamePrefix +:+ methodName +:+ argListPrefix
      +:+ join argListSeparator args +:+ argListSuffix in
    if Nat.ltb 0 (length args) && Nat.leb MAX_PRETTY_WIDTH (String.length result) then
      visibility +:+ "def " +:+ methodNamePrefix +:+ methodName
      +:+ ("(" +:+ newline +:+ "  ")
      +:+ join ("," +:+ newline +:+ "  ") args +:+ (newline +:+ ")")
    else result.

(** A [cast_type_nonnull] to the wrong tag, or a null dereference after a
    failed [cast_type], is undefined in the C++; the model stops there. *)
Definition badCast {A} : M A := raise "bad type cast".

(** copied from variance.cc *)
Definition showVariance (tm : TypeMemberRef) : M string :=
  if tp_isFixed (typeMemberData gs tm) then
    match tp_resultType (typeMemberData gs tm) with
    | LambdaParam _ _ upperBound =>
        let* shown := showType upperBound in ret ("fixed: " +:+ shown)
    | _ => badCast
    end
  else
    match tp_variance (typeMemberData gs tm) with
    | CoVariant => ret ":out"
    | Invariant => ret EmptyString
    | ContraVariant => ret ":in"
    end.

Definition typeDeclaration (type : TypePtr) : M string :=
  match type with
  | nullptr =>
      ret ("T.let(T.unsafe(nil), " +:+ type_show gs (Types_untypedUntracked gs) +:+ ")")
  | AliasType symbol => maybeEmit symbol >> ret (SymbolRef_show gs symbol)
  | _ => let* shown := showType type in ret ("T.let(T.unsafe(nil), " +:+ shown +:+ ")")
  end.

Definition shouldSkipMember (name : NameRef) : bool :=
  match n_kind (nameData gs name) with
  | UNIQUE => true
  | _ =>
      N.eqb name (Names_singleton gs) || N.eqb name (Names_Constants_AttachedClass gs)
      || N.eqb name (Names_attached gs)
  end.

(** *** Props *)

Definition propLine (name : NameRef) (shownType : string) (isConst hasDefault : bool) : string :=
  (if isConst then "const" else "prop") +:+ " :" +:+ n_show (nameData gs name) +:+ ", "
  +:+ shownType
  +:+ (if hasDefault then ", default: T.let(T.unsafe(nil), " +:+ shownType +:+ ")"
       else EmptyString).

Definition emitProp (name : NameRef) (type : TypePtr) (isConst hasDefault : bool) : M unit :=
  let* shown := showType type in
  let* default := (if hasDefault
                   then let* again := showType type in
                        ret (", default: T.let(T.unsafe(nil), " +:+ again +:+ ")")
                   else ret EmptyString) in
  printlnf ((if isConst then "const" else "prop") +:+ " :" +:+ n_show (nameData gs name)
            +:+ ", " +:+ shown +:+ default).

Definition removePropField (fields : list FieldRef) (name : NameRef) : list FieldRef :=
  let fieldName := lookupWithAt gs name in
  List.filter (fun field => negb (N.eqb (fi_name (fieldData gs field)) fieldName)) fields.

(** [remove_if] with the lambda that also clears [isConst]: the result is
    the methods kept and the value of [isConst] afterwards. *)
Fixpoint removePropMethods (methods : list MethodRef) (name : NameRef) (isConst : bool)
    : list MethodRef * bool :=
  let equalName := lookupWithEq gs name in
  match methods with
  | [] => ([], isConst)
  | method :: rest =>
      let methodName := me_name (methodData gs method) in
      if N.eqb methodName equalName then removePropMethods rest name false
      else if N.eqb methodName name then removePropMethods rest name isConst
      else let '(kept, isConst') := removePropMethods rest name isConst in
           (method :: kept, isConst')
  end.

Definition isPropMethod (method : MethodRef) : bool :=
  if EndsWith (n_shortName (nameData gs (me_name (methodData gs method)))) "=" then
    (* If there is a prop= method, there will be a prop method. *)
    false
  else
    match me_source (methodData gs method) with
    | None => false
    | Some src => StartsWith src "prop " || StartsWith src "const "
    end.

Definition isFlatfileFieldMethod (method : MethodRef) : bool :=
  if EndsWith (n_shortName (nameData gs (me_name (methodData gs method)))) "=" then false
  else
    match me_source (methodData gs method) with
    | None => false
    | Some src =>
        StartsWith src "field " || StartsWith src "from "
        || StartsWith src "pattern " || StartsWith src "pattern("
    end.

Fixpoint isFlatfile_fuel (n : nat) (klass : ClassOrModuleRef) : Result bool :=
  if N.eqb klass (Symbols_root gs) || negb (ref_exists klass) then Ok false
  else if N.eqb klass flatfileRecord then Ok true
  else match n with
       | O => OutOfFuel
       | S n' => isFlatfile_fuel n' (co_superClass (classOrModuleData gs klass))
       end.

Definition liftResult {A} (r : Result A) : M A :=
  fun st => match r with
            | Ok a => Ok (a, st)
            | Raise msg => Raise msg
            | OutOfFuel => OutOfFuel
            end.

Definition isFlatfile (klass : ClassOrModuleRef) : M bool :=
  liftResult (isFlatfile_fuel fuel klass).

(** *** Fields, type members and methods *)

Definition isEnumValueClass (klass : ClassOrModuleRef) : bool :=
  N.eqb (co_superClass (classOrModuleData gs (co_superClass (classOrModuleData gs klass))))
        (Symbols_T_Enum gs).

Definition emit_field (field : FieldRef) (isCVar : bool) : M unit :=
  let data := fieldData gs field in
  if fi_isStaticField data then
    let resultType := fi_resultType data in
    let skip :=
      match resultType with
      | AliasType symbol =>
          (* type_templates define static fields of the same name on the main class *)
          isTypeMember symbol
          && co_isSingletonClass
               (classOrModuleData gs
                  (asClassOrModuleRef (tp_owner (typeMemberData gs (asTypeMemberRef symbol)))))
      | ClassType klass =>
          (* Static field defined in TEnum rewriter pass. *)
          isEnumValueClass klass
      | _ => false
      end in
    if skip then ret tt
    else if fi_isStaticFieldTypeAlias data then
      let* shown := showType resultType in
      printlnf (fi_show data +:+ " = T.type_alias {" +:+ shown +:+ "}")
    else if isCVar then
      let* decl := typeDeclaration resultType in
      printlnf (n_show (nameData gs (fi_name data)) +:+ " = " +:+ decl)
    else
      let* decl := typeDeclaration resultType in
      printlnf (fi_show data +:+ " = " +:+ decl)
  else
    let* decl := typeDeclaration (fi_resultType data) in
    printlnf (n_show (nameData gs (fi_name data)) +:+ " = " +:+ decl).

Definition emit_typeMember (tm : TypeMemberRef) : M unit :=
  let* emitted := gets emittedSymbols in
  if bool_decide (typeMemberSym tm ∈ emitted) then ret tt
  else
    insertEmitted (typeMemberSym tm) >>
    let data := typeMemberData gs tm in
    if N.eqb (tp_name data) (Names_Constants_AttachedClass gs) then ret tt
    else
      (* If this is a type template, there will be an alias type defined on the
         non-singleton class w/ the same name. *)
      if co_isSingletonClass (classOrModuleData gs (asClassOrModuleRef (tp_owner data))) then
        let* variance := showVariance tm in
        printlnf (n_show (nameData gs (tp_name data)) +:+ " = type_template(" +:+ variance +:+ ")")
      else
        let* variance := showVariance tm in
        printlnf (n_show (nameData gs (tp_name data)) +:+ " = type_member(" +:+ variance +:+ ")").

(** Emits method and declares fields in its body; the result is [fields]
    as the call leaves it. *)
Definition emit_method (method : MethodRef) (fields : list FieldRef) : M (list FieldRef) :=
  let* emitted := gets emittedSymbols in
  if bool_decide (methodSym method ∈ emitted) then ret fields
  else
    let data := methodData gs method in
    if N.eqb (me_name data) (Names_staticInit gs) then ret fields
    else
      insertEmitted (methodSym method) >>
      if StartsWith (n_shortName (nameData gs (me_name data))) "<" then
        (* Sorbet-internal method (e.g., a test method). *)
        (if N.eqb (me_name data) (Names_mixedInClassMethods gs) then
           match me_resultType data with
           | TupleType mixedIn =>
               forEach mixedIn (fun mixedType =>
                 printlnf ("mixes_in_class_methods(" +:+ type_show gs mixedType +:+ ")"))
           | _ => badCast
           end
         else ret tt) >>
        ret fields
      else
        let* delegated := tryEmitDefDelegator method in
        if delegated then ret fields
        else
          (if me_hasSig data then
             let dealiasedMethod := me_dealiasMethod data in
             let* sig := prettySigForMethod dealiasedMethod nullptr
                           (me_resultType (methodData gs dealiasedMethod)) None in
             println sig
           else ret tt) >>
          if bool_decide (fields = []) || mf_isAbstract (me_flags data) then
            println (prettyDefForMethod method +:+ "; end") >> ret fields
          else
            println (prettyDefForMethod method) >>
            withIndent (forEach fields (fun field => emit_field field false)) >>
            println "end" >>
            ret [].

(** The loop of [maybeEmitStructProps] over the initializer's arguments: it
    removes the accessors and the backing field of every keyword argument
    from its copies of the pending lists and prints the prop. *)
Fixpoint structPropsLoop (arguments : list ArgInfo) (methods : list MethodRef)
    (fields : list FieldRef) : M (list MethodRef * list FieldRef) :=
  match arguments with
  | [] => ret (methods, fields)
  | arg :: rest =>
      if arg_isSyntheticBlockArgument arg || negb (af_isKeyword (arg_flags arg)) then
        structPropsLoop rest methods fields
      else
        let hasDefault := af_isDefault (arg_flags arg) in
        let name := arg_name arg in
        let '(methods', isConst) := removePropMethods methods name true in
        let fields' := removePropField fields name in
        emitProp name (arg_type arg) isConst hasDefault >>
        structPropsLoop rest methods' fields'
  end.

(** The loop that emits the rest of the methods, sharing [fields]. *)
Definition emitMethods (methods : list MethodRef) (fields : list FieldRef) : M (list FieldRef) :=
  forEachWith methods fields (fun fields method => emit_method method fields).

Definition maybeEmitStructProps (structInitializer : MethodRef) (methods : list MethodRef)
    (fields : list FieldRef) : M unit :=
  let* (methods, fields) :=
    structPropsLoop (me_arguments (methodData gs structInitializer)) methods fields in
  (* rewriter-created initializers use the loc of the class, whereas user
     initializers have their own loc. *)
  let* fields :=
    (if bool_decide (me_loc (methodData gs structInitializer)
                     ≠ co_loc (classOrModuleData gs (me_owner (methodData gs structInitializer))))
     then emit_method structInitializer fields
     else ret fields) in
  (* Emit the rest of the methods and fields. *)
  emitMethods methods fields >> ret tt.

(** *** Classes and modules *)

(** The locals of [emit(ClassOrModuleRef)] that the loop over the members fills. *)
Record Pending := mkPending {
  initializeMethod : MethodRef;
  pendingFields : list FieldRef;
  pendingEnumValues : list ClassOrModuleRef;
  pendingMethods : list MethodRef
}.

Definition fieldIsClassVariable (field : FieldRef) : bool :=
  StartsWith (n_show (nameData gs (fi_name (fieldData gs field)))) "@@".

(** The body of the loop over [klass.data(gs)->membersStableOrderSlow(gs)]. *)
Definition classMember (klass : ClassOrModuleRef) (isEnum : bool) (p : Pending)
    (entry : NameRef * SymbolRef) : M Pending :=
  let '(name, member) := entry in
  if shouldSkipMember name then ret p
  else
    match kind member with
    | ClassOrModule =>
        let memberKlass := asClassOrModuleRef member in
        if bool_decide (memberKlass ∈ pkgNamespaces) then
          (* Ignore members of this class/module that are subpackages. *)
          ret p
        else if isEnum && N.eqb (co_superClass (classOrModuleData gs memberKlass)) klass then
          ret (mkPending (initializeMethod p) (pendingFields p)
                         (pendingEnumValues p ++ [memberKlass]) (pendingMethods p))
        else maybeEmit member >> ret p
    | TypeMember => ret p       (* Ignore; already emitted above. *)
    | TypeArgument => ret p
    | Method =>
        if N.eqb name (Names_initialize gs) then
          (* Defer outputting until we gather fields. *)
          ret (mkPending (idx member) (pendingFields p) (pendingEnumValues p) (pendingMethods p))
        else
          ret (mkPending (initializeMethod p) (pendingFields p) (pendingEnumValues p)
                         (pendingMethods p ++ [idx member]))
    | FieldOrStaticField =>
        let field := idx member in
        if fi_isField (fieldData gs field) then
          ret (mkPending (initializeMethod p) (pendingFields p ++ [field])
                         (pendingEnumValues p) (pendingMethods p))
        else if fieldIsClassVariable field then emit_field field true >> ret p
        else maybeEmit member >> ret p
    end.

(** The body of the loop over the members of the singleton class;
    [pendingFields] is the only local it updates. *)
Definition singletonMember (klass : ClassOrModuleRef) (pendingFields : list FieldRef)
    (entry : NameRef * SymbolRef) : M (list FieldRef) :=
  let '(name, member) := entry in
  if shouldSkipMember name then ret pendingFields
  else
    match kind member with
    | ClassOrModule =>
        if bool_decide (asClassOrModuleRef member ∈ pkgNamespaces) then ret pendingFields
        else maybeEmit member >> ret pendingFields
    | TypeMember => ret pendingFields
    | TypeArgument => ret pendingFields
    | Method =>
        if co_isClassOrModuleSealed (classOrModuleData gs klass)
           && N.eqb name (Names_sealedSubclasses gs) then
          (* Ignore: Generated by TEnum rewriter pass. *)
          ret pendingFields
        else emit_method (idx member) pendingFields
    | FieldOrStaticField =>
        let field := idx member in
        if fi_isField (fieldData gs field) then emit_field field false >> ret pendingFields
        else if fieldIsClassVariable field then emit_field field true >> ret pendingFields
        else maybeEmit member >> ret pendingFields
    end.

(** The two phases that check for props: collect, then remove and print. *)
Definition propsPhase (pendingMethods : list MethodRef) (pendingFields : list FieldRef)
    : M (list MethodRef * list FieldRef) :=
  let propMethods := List.filter isPropMethod pendingMethods in
  forEachWith propMethods (pendingMethods, pendingFields)
    (fun pending propMethod =>
       let '(pendingMethods, pendingFields) := pending in
       let name := me_name (methodData gs propMethod) in
       let pendingFields := removePropField pendingFields name in
       let '(pendingMethods, isConst) := removePropMethods pendingMethods name true in
       (* Defaults are not semantically important on non-T-Struct props. *)
       emitProp name (me_resultType (methodData gs propMethod)) isConst false >>
       ret (pendingMethods, pendingFields)).

Definition flatfilePhase (pendingMethods : list MethodRef) : M (list MethodRef) :=
  let fieldMethods := List.filter isFlatfileFieldMethod pendingMethods in
  if bool_decide (fieldMethods = []) then ret pendingMethods
  else
    println "flatfile do" >>
    let* pendingMethods :=
      withIndent
        (forEachWith fieldMethods pendingMethods
           (fun pendingMethods fieldMethod =>
              let name := me_name (methodData gs fieldMethod) in
              (* need the same logic for flatfile fields *)
              let '(pendingMethods, _) := removePropMethods pendingMethods name true in
              printlnf ("field :" +:+ n_show (nameData gs name)) >>
              ret pendingMethods)) in
    println "end" >>
    ret pendingMethods.

Definition emit_klass_body (klass : ClassOrModuleRef) (isEnum isStruct isFlatFile : bool)
    : M unit :=
  let data := classOrModuleData gs klass in
  when (co_isClassOrModuleAbstract data) (println "abstract!") >>
  when (co_isClassOrModuleFinal data) (println "final!") >>
  when (co_isClassOrModuleInterface data) (println "interface!") >>
  when (co_isClassOrModuleSealed data) (println "sealed!") >>
  (* Mixins (include/extend) *)
  forEach (co_mixins data) (fun mixin =>
    let keyword :=
      if co_isSingletonClass (classOrModuleData gs mixin) then "extend" else "include" in
    printlnf (keyword +:+ " " +:+ co_show (classOrModuleData gs mixin)) >>
    maybeEmit (classSym mixin)) >>
  (* Type members *)
  forEach (co_typeMembers data) emit_typeMember >>
  (* Members *)
  let* p := forEachWith (co_membersStableOrderSlow data) (mkPending 0%N [] [] [])
              (classMember klass isEnum) in
  let* (pendingMethods, pendingFields) :=
    (if isStruct then
       (* both vectors are moved into the call, which leaves them empty *)
       maybeEmitStructProps (initializeMethod p) (pendingMethods p) (pendingFields p) >>
       ret ([], [])
     else if ref_exists (initializeMethod p) then
       let* fields := emit_method (initializeMethod p) (pendingFields p) in
       ret (pendingMethods p, fields)
     else ret (pendingMethods p, pendingFields p)) in
  (* Need to check for props and remove any fields that match them. *)
  let* (pendingMethods, pendingFields) := propsPhase pendingMethods pendingFields in
  let* pendingMethods :=
    (if isFlatFile then flatfilePhase pendingMethods else ret pendingMethods) in
  let* pendingFields := emitMethods pendingMethods pendingFields in
  let singleton := co_lookupSingletonClass data in
  (if ref_exists singleton then
     let sdata := classOrModuleData gs singleton in
     (* Mixins (include/extend) *)
     forEach (co_mixins sdata) (fun mixin =>
       printlnf ("extend " +:+ co_show (classOrModuleData gs mixin)) >>
       maybeEmit (classSym mixin)) >>
     (* Type templates *)
     forEach (co_typeMembers sdata) emit_typeMember >>
     forEachWith (co_membersStableOrderSlow sdata) pendingFields (singletonMember klass) >>
     ret tt
   else ret tt) >>
  when (isEnum && negb (bool_decide (pendingEnumValues p = [])))
    (println "enums do" >>
     withIndent
       (forEach (pendingEnumValues p) (fun enumVal =>
          printlnf (n_show (nameData gs (co_name (classOrModuleData gs enumVal))) +:+ " = new"))) >>
     println "end").

Definition emit_klass (klass : ClassOrModuleRef) : M unit :=
  let* inPackage := isInPackage (classSym klass) (classSym klass) in
  let* emitted := gets emittedSymbols in
  if negb inPackage || negb (bool_decide (classSym klass ∈ emitted)) then
    (* We don't emit class definitions for items defined in other packages. *)
    raise "Invalid klass"
  else
    let data := classOrModuleData gs klass in
    if isEnumValueClass klass then
      (* Enum value class created in TEnum rewriter pass. *)
      ret tt
    else if StartsWith (n_shortName (nameData gs (co_name data))) "<" then
      (* Sorbet-internal class (e.g., a test suite (`describe`)). *)
      ret tt
    else
      let isEnum := N.eqb (co_superClass data) (Symbols_T_Enum gs) in
      let isStruct := N.eqb (co_superClass data) (Symbols_T_Struct gs) in
      let* isFlatFile := isFlatfile klass in
      (* Class definition line *)
      let defType := if co_isClassOrModuleClass data then "class" else "module" in
      let fullName := co_show data in
      let* superClassString :=
        (let superClass := co_superClass data in
         if ref_exists superClass
            && negb (N.eqb superClass (Symbols_Sorbet_Private_Static_ImplicitModuleSuperClass gs))
         then maybeEmit (classSym superClass)
              >> ret (" < " +:+ co_show (classOrModuleData gs superClass))
         else ret EmptyString) in
      printlnf (defType +:+ " " +:+ fullName +:+ superClassString) >>
      withIndent (emit_klass_body klass isEnum isStruct isFlatFile) >>
      println "end".

(** *** The worklist *)

Fixpoint emitLoop_fuel (n : nat) : M unit :=
  let* queue := gets toEmit in
  match last queue with
  | None => ret tt
  | Some symbol =>
      match n with
      | O => outOfFuel
      | S n' =>
          popToEmit >>
          match kind symbol with
          | ClassOrModule => emit_klass (asClassOrModuleRef symbol)
          | Method => emit_method (idx symbol) [] >> ret tt
          | FieldOrStaticField => emit_field (idx symbol) false
          | TypeMember => ret tt
          | TypeArgument => ret tt
          end >>
          emitLoop_fuel n'
      end
  end.

Definition emitLoop : M unit := emitLoop_fuel fuel.

(** *** [RBIExporter::emit()] *)

Record RBIOutput := mkRBIOutput {
  baseFilePath : string;
  rbi : string;
  rbiPackageDependencies : string;
  testRBI : string;
  testRBIPackageDependencies : string
}.

(** The strings the two formatters join; an unordered container is walked
    in the order of [map_to_list] and [elements]. *)
Definition packageRefs (st : RBIExporter) : list string :=
  map (fun entry : ClassOrModuleRef * SymbolRef =>
         dquote +:+ co_show (classOrModuleData gs (fst entry)) +:+ dquote)
      (map_to_list (referencedPackages st)).

Definition rbiRefs (st : RBIExporter) : list string :=
  map (fun file => dquote +:+ fd_path (fileData gs file) +:+ dquote)
      (elements (referencedRBIs st)).

(** The manifest text [fmt::format] builds from the two accumulators. *)
Definition dependenciesText (st : RBIExporter) : string :=
  "{" +:+ dquote +:+ "packageRefs" +:+ dquote +:+ ":[" +:+ join "," (packageRefs st)
  +:+ "], " +:+ dquote +:+ "rbiRefs" +:+ dquote +:+ ":[" +:+ join "," (rbiRefs st) +:+ "]}".

Definition dependencies : M string := gets dependenciesText.

(** The loop over [rawExports]: the result is [(exports, testExports)]. *)
Fixpoint splitExports (rawExports : list (list NameRef)) (exports testExports : list SymbolRef)
    : Result (list SymbolRef * list SymbolRef) :=
  match rawExports with
  | [] => Ok (exports, testExports)
  | e :: rest =>
      let exportSymbol := lookupFQN gs e in
      if symbol_exists exportSymbol then
        match isInTestPackage exportSymbol with
        | Ok true =>
            (* Test:: symbol. *)
            splitExports rest exports (testExports ++ [exportSymbol])
        | Ok false => splitExports rest (exports ++ [exportSymbol]) testExports
        | Raise msg => Raise msg
        | OutOfFuel => OutOfFuel
        end
      else splitExports rest exports testExports
  end.

(** The loop over [rawTestExports]. *)
Fixpoint resolveTestExports (rawTestExports : list (list NameRef)) (testExports : list SymbolRef)
    : list SymbolRef :=
  match rawTestExports with
  | [] => testExports
  | e :: rest =>
      let exportSymbol := lookupFQN gs e in
      if symbol_exists exportSymbol then resolveTestExports rest (testExports ++ [exportSymbol])
      else resolveTestExports rest testExports
  end.

Definition typedHeader : string := "# typed: true" +:+ newline +:+ newline.

(** The body of [if (!exports.empty())]: the stub and its manifest. *)
Definition productionPass (exports : list SymbolRef) : M (string * string) :=
  if negb (bool_decide (exports = [])) then
    forEach exports maybeEmit >>
    emitLoop >>
    let* text := Output_toString in
    let* deps := dependencies in
    ret (typedHeader +:+ text, deps)
  else ret (EmptyString, EmptyString).

(** The body of [if (!testExports.empty())]. *)
Definition testPass (testExports : list SymbolRef) : M (string * string) :=
  if negb (bool_decide (testExports = [])) then
    forEach testExports maybeEmit >>
    emitLoop >>
    let* rbiText := Output_toString in
    if negb (string_empty rbiText) then
      let* deps := dependencies in
      ret (typedHeader +:+ rbiText, deps)
    else ret (EmptyString, EmptyString)
  else ret (EmptyString, EmptyString).

Definition emit : M RBIOutput :=
  let baseFilePath := n_show (nameData gs (mangledName pkg)) in
  let rawExports := exports pkg in
  let rawTestExports := testExports pkg in
  let* (exports, testExports) := liftResult (splitExports rawExports [] []) in
  let testExports := resolveTestExports rawTestExports testExports in
  let* (rbi, rbiPackageDependencies) := productionPass exports in
  (* N.B.: We don't need to generate this in the same pass. Test code only
     relies on exported symbols from regular code... *)
  let* (testRBI, testRBIPackageDependencies) := testPass testExports in
  ret (mkRBIOutput baseFilePath rbi rbiPackageDependencies testRBI testRBIPackageDependencies).

(** [RBIGenerator::runOnce]: a fresh exporter per package. *)
Definition runOnce : Result RBIOutput :=
  match emit initialExporter with
  | Ok (output, _) => Ok output
  | Raise msg => Raise msg
  | OutOfFuel => OutOfFuel
  end.

End Exporter.

(** ** The package database, [buildPackageNamespace] and [run] *)

(** [core::packages::PackageDB]: [packages()] and [getPackageInfo(name)]. *)
Record PackageDB := mkPackageDB {
  packages : list NameRef;
  getPackageInfo : NameRef -> PackageInfo
}.

(** The body of the loop of [buildPackageNamespace] over the packages. *)
Definition addPackageNamespaces (gs : GlobalState) (db : PackageDB)
    (packageNamespaces : gset ClassOrModuleRef) (package : NameRef) : gset ClassOrModuleRef :=
  let pkg := getPackageInfo db package in
  let fullName := fullName pkg in
  let packageNamespace := lookupFQN gs fullName in
  (* Might not exist if package has no files. *)
  let packageNamespaces :=
    if symbol_exists packageNamespace
    then {[asClassOrModuleRef packageNamespace]} ∪ packageNamespaces
    else packageNamespaces in
  let testPackageNamespace := lookupFQN gs (Names_Constants_Test gs :: fullName) in
  if symbol_exists testPackageNamespace
  then {[asClassOrModuleRef testPackageNamespace]} ∪ packageNamespaces
  else packageNamespaces.

(** [RBIGenerator::buildPackageNamespace], from the populated package
    database on. *)
Definition buildPackageNamespace (gs : GlobalState) (db : PackageDB)
    : Result (gset ClassOrModuleRef) :=
  if bool_decide (packages db = []) then Raise "No packages found?"
  else Ok (fold_left (addPackageNamespaces gs db) (packages db) ∅).

(** [FileOps::write(path, text)], as an entry of the log of writes. *)
Definition FileWrite : Type := string * string.

(** What a job of [run] writes for the output of one package. *)
Definition writeOutput (outputDir : string) (output : RBIOutput) : list FileWrite :=
  ((if negb (string_empty (rbi output)) then
      [ (outputDir +:+ "/" +:+ baseFilePath output +:+ ".rbi", rbi output);
        (outputDir +:+ "/" +:+ baseFilePath output +:+ ".deps.json",
         rbiPackageDependencies output) ]
    else [])
   ++
   (if negb (string_empty (testRBI output)) then
      [ (outputDir +:+ "/" +:+ baseFilePath output +:+ ".test.rbi", testRBI output);
        (outputDir +:+ "/" +:+ baseFilePath output +:+ ".test.deps.json",
         testRBIPackageDependencies output) ]
    else []))%list.

(** The loop of a worker of [run] over the queue of packages, for one
    worker: the packages are taken in the order of the queue, and an
    exception ends the run. *)
Fixpoint runJobs (gs : GlobalState) (db : PackageDB) (packageNamespaces : gset ClassOrModuleRef)
    (fuel : nat) (outputDir : string) (inputq : list NameRef) (written : list FileWrite)
    : Result (list FileWrite) :=
  match inputq with
  | [] => Ok written
  | job :: rest =>
      match runOnce gs (getPackageInfo db job) packageNamespaces fuel with
      | Ok output =>
          runJobs gs db packageNamespaces fuel outputDir rest
                  (written ++ writeOutput outputDir output)%list
      | Raise msg => Raise msg
      | OutOfFuel => OutOfFuel
      end
  end.

(** [RBIGenerator::run]: the result is the log of the files written. *)
Definition run (gs : GlobalState) (db : PackageDB) (fuel : nat) (outputDir : string)
    : Result (list FileWrite) :=
  match buildPackageNamespace gs db with
  | Ok packageNamespaces => runJobs gs db packageNamespaces fuel outputDir (packages db) []
  | Raise msg => Raise msg
  | OutOfFuel => OutOfFuel
  end.

(** ** Vocabulary of the specification

    The owner chain of a symbol, what the ownership walk meets on it, and
    budgets of [fuel] that are enough for a walk to end. *)

Section Ownership.

Context (gs : GlobalState) (pkg : PackageInfo).
Context (pkgNamespaces : gset ClassOrModuleRef).

(** The symbol [n] owner links above [sym]. *)
Fixpoint ancestor (n : nat) (sym : SymbolRef) : SymbolRef :=
  match n with
  | O => sym
  | S n' => ancestor n' (SymbolRef_owner gs sym)
  end.

(** [sym] is the production or the test namespace of the package. *)
Definition isOwnNamespace (sym : SymbolRef) : bool :=
  bool_decide (sym = classSym (pkgNamespace gs pkg))
  || bool_decide (sym = classSym (pkgTestNamespace gs pkg)).

(** [sym] is neither a root nor the namespace of any known package. *)
Definition walkContinues (sym : SymbolRef) : bool :=
  negb (isRootOrRegistry gs sym) && negb (isOwnNamespace sym)
  && negb (isPackageNamespace pkgNamespaces sym).

(** None of the first [k] symbols of the owner chain of [sym] is a root or a
    package namespace. *)
Fixpoint chainPasses (k : nat) (sym : SymbolRef) : bool :=
  match k with
  | O => true
  | S k' => walkContinues sym && chainPasses k' (SymbolRef_owner gs sym)
  end.

(** The owner chain of [sym] first meets, [k] links up, the namespace [ns] of
    a known package that is not this package's. *)
Definition reachesForeignPackage (sym : SymbolRef) (k : nat) (ns : ClassOrModuleRef) : Prop :=
  chainPasses k sym = true
  /\ ancestor k sym = classSym ns
  /\ ns ∈ pkgNamespaces
  /\ isRootOrRegistry gs (classSym ns) = false
  /\ isOwnNamespace (classSym ns) = false.

(** The owner chain of [sym] reaches the global root (or the package
    registry) [k] links up without meeting any package namespace. *)
Definition reachesGlobalRoot (sym : SymbolRef) (k : nat) : Prop :=
  chainPasses k sym = true /\ isRootOrRegistry gs (ancestor k sym) = true.

(** The owner chain of [sym] first meets this package's production or test
    namespace, [k] links up. *)
Definition reachesOwnNamespace (sym : SymbolRef) (k : nat) : Prop :=
  chainPasses k sym = true
  /\ isRootOrRegistry gs (ancestor k sym) = false
  /\ isOwnNamespace (ancestor k sym) = true.

(** The defining location of [original] is a hand-written RBI file that is
    not part of the payload. *)
Definition definedInLegacyRBI (original : SymbolRef) : bool :=
  let loc := SymbolRef_loc gs original in
  loc_exists loc && fd_isRBI (fileData gs (loc_file loc))
  && negb (fd_isPayload (fileData gs (loc_file loc))).

(** The ownership walk from [sym] ends within [n] owner links. *)
Fixpoint walkEnds (n : nat) (sym : SymbolRef) : bool :=
  if walkContinues sym then
    match n with
    | O => false
    | S n' => walkEnds n' (SymbolRef_owner gs sym)
    end
  else true.

(** The class [maybeEmit] settles on after [n] redirections from singleton
    classes to their attached classes, if it settles. *)
Fixpoint attachedTarget (n : nat) (symbol : SymbolRef) : option SymbolRef :=
  if isSingletonClassSymbol gs symbol then
    match n with
    | O => None
    | S n' =>
        attachedTarget n'
          (classSym (co_attachedClass (classOrModuleData gs (asClassOrModuleRef symbol))))
    end
  else Some symbol.

(** [n] is enough fuel for [maybeEmit symbol]. *)
Definition maybeEmitEnds (n : nat) (symbol : SymbolRef) : bool :=
  match attachedTarget n symbol with
  | Some target => walkEnds n target
  | None => false
  end.

(** The symbols a type embeds, in the order [enqueueSymbolsInType] meets them. *)
Fixpoint symbolsInType (type : TypePtr) : list SymbolRef :=
  let symbolsInAll := fix symbolsInAll (types : list TypePtr) : list SymbolRef :=
    match types with
    | [] => []
    | t :: rest => (symbolsInType t ++ symbolsInAll rest)%list
    end in
  match type with
  | nullptr => []
  | AliasType symbol => [symbol]
  | AndType l r => (symbolsInType l ++ symbolsInType r)%list
  | AppliedType klass targs => classSym klass :: symbolsInAll targs
  | BlamedUntyped => []
  | ClassType symbol => [classSym symbol]
  | LiteralType _ => []
  | MetaType wrapped => symbolsInType wrapped
  | OrType l r => (symbolsInType l ++ symbolsInType r)%list
  | SelfType => []
  | SelfTypeParam definition => [definition]
  | ShapeType keys values => (symbolsInAll keys ++ symbolsInAll values)%list
  | TupleType elems => symbolsInAll elems
  | TypeVar _ => []
  | UnresolvedAppliedType klass symbol targs =>
      classSym klass :: classSym symbol :: symbolsInAll targs
  | UnresolvedClassType => []
  | LambdaParam _ _ _ => []
  end.

(** [n] is enough fuel for [showType type]. *)
Definition showTypeEnds (n : nat) (type : TypePtr) : bool :=
  forallb (maybeEmitEnds n) (symbolsInType type).

(** The text [showType] returns. *)
Definition shownType (type : TypePtr) : string :=
  if is_nullptr type then EmptyString else type_show gs type.

End Ownership.

(** ** Vocabulary of the specification: rendering *)

Fixpoint string_forallb (p : ascii -> bool) (s : string) : bool :=
  match s with
  | EmptyString => true
  | String c rest => p c && string_forallb p rest
  end.

(** The lines of a block of output, one after the other. *)
Definition concatLines (lines : list string) : string :=
  fold_right String.append EmptyString lines.

(** [c] is one of the delimiters at which a delegation's text is split. *)
Definition isDelegatorDelim (c : ascii) : bool := ByAnyChar delegatorDelims c.


(** No component of the declaration text after the first one holds a token. *)
Definition noTargetToken (argName : string) : Prop :=
  Forall (fun component => StripAsciiWhitespace component = EmptyString)
         (tail (StrSplit argName isDelegatorDelim)).

Section Rendering.

Context (gs : GlobalState).



(** [emit(MethodRef)] gets as far as the delegation check for [method]. *)
Definition renderable (method : MethodRef) : bool :=
  negb (N.eqb (me_name (methodData gs method)) (Names_staticInit gs))
  && negb (StartsWith (n_shortName (nameData gs (me_name (methodData gs method)))) "<").

(** The parameters a signature shows. *)
Definition nonSyntheticArguments (method : MethodRef) : list ArgInfo :=
  List.filter (fun argSym => negb (arg_isSyntheticBlockArgument argSym))
              (me_arguments (methodData gs method)).

(** The return type a signature shows. *)
Definition sigReturnType (method : MethodRef) (receiver retType : TypePtr)
    (constraint : option N) : TypePtr :=
  if is_nullptr retType
  then getResultType gs (me_resultType (methodData gs method)) (methodSym method)
                     receiver constraint
  else retType.

Definition sigReturnText (method : MethodRef) (receiver retType : TypePtr)
    (constraint : option N) : string :=
  let retType := sigReturnType method receiver retType constraint in
  if is_void gs retType then "void" else "returns(" +:+ shownType gs retType +:+ ")".

Definition sigParamTexts (method : MethodRef) (receiver : TypePtr) (constraint : option N)
    : list string :=
  map (fun argSym =>
         arg_argumentName argSym +:+ ": "
         +:+ shownType gs (getResultType gs (arg_type argSym) (methodSym method)
                                         receiver constraint))
      (nonSyntheticArguments method).

Definition sigCallText (method : MethodRef) : string :=
  if mf_isFinal (me_flags (methodData gs method)) then "sig(:final)" else "sig".

Definition sigTypeArgumentTexts (method : MethodRef) : list string :=
  map (fun ta => ":" +:+ n_show (nameData gs (tp_name (typeArgumentData gs ta))))
      (me_typeArguments (methodData gs method)).

(** The single-line and the multi-line rendering of the signature. *)
Definition onelineSig (method : MethodRef) (receiver retType : TypePtr)
    (constraint : option N) : string :=
  sigOneline (sigCallText method) (sigFlags (me_flags (methodData gs method)))
             (sigTypeArgumentTexts method) (sigParamTexts method receiver constraint)
             (sigReturnText method receiver retType constraint).

Definition multilineSig (method : MethodRef) (receiver retType : TypePtr)
    (constraint : option N) : string :=
  sigMultiline (sigCallText method) (sigFlags (me_flags (methodData gs method)))
               (sigTypeArgumentTexts method) (sigParamTexts method receiver constraint)
               (sigReturnText method receiver retType constraint).


(** The keyword parameters among [arguments]. *)
Definition keywordsOf (arguments : list ArgInfo) : list ArgInfo :=
  List.filter (fun arg => negb (arg_isSyntheticBlockArgument arg
                                || negb (af_isKeyword (arg_flags arg)))) arguments.

(** The keyword parameters of a struct's initializer, each a property. *)
Definition keywordArguments (structInitializer : MethodRef) : list ArgInfo :=
  keywordsOf (me_arguments (methodData gs structInitializer)).

(** A setter [name=] exists among [methods]. *)
Definition hasSetter (methods : list MethodRef) (name : NameRef) : bool :=
  existsb (fun method => N.eqb (me_name (methodData gs method)) (lookupWithEq gs name)) methods.

(** [method] is the getter or the setter of one of the properties [names]. *)
Definition isAccessorOf (names : list NameRef) (method : MethodRef) : bool :=
  existsb (fun name =>
             N.eqb (me_name (methodData gs method)) (lookupWithEq gs name)
             || N.eqb (me_name (methodData gs method)) name) names.

(** [field] is the backing field of one of the properties [names]. *)
Definition isBackingFieldOf (names : list NameRef) (field : FieldRef) : bool :=
  existsb (fun name => N.eqb (fi_name (fieldData gs field)) (lookupWithAt gs name)) names.

(** No method is at once the setter of the property [name] and an accessor
    of one of the properties [others]. *)
Definition setterApart (methods : list MethodRef) (others : list NameRef) (name : NameRef) : bool :=
  forallb (fun method =>
             negb (N.eqb (me_name (methodData gs method)) (lookupWithEq gs name)
                   && isAccessorOf others method)) methods.

(** The properties have distinct names and their setters are theirs alone. *)
Fixpoint propsApart (methods : list MethodRef) (seen names : list NameRef) : bool :=
  match names with
  | [] => true
  | name :: rest =>
      setterApart methods seen name && propsApart methods (seen ++ [name]) rest
  end.

End Rendering.

(** The export name-path [e] resolves to a symbol owned by the package's
    test namespace. *)
Definition ownedByTestNamespace (gs : GlobalState) (pkg : PackageInfo)
    (pkgNamespaces : gset ClassOrModuleRef) (fuel : nat) (e : list NameRef) : bool :=
  symbol_exists (lookupFQN gs e)
  && match isInTestPackage gs pkg pkgNamespaces fuel (lookupFQN gs e) with
     | Ok true => true
     | _ => false
     end.

(** The export name-path [e] resolves to a symbol that is not owned by the
    package's test namespace. *)
Definition productionExport (gs : GlobalState) (pkg : PackageInfo)
    (pkgNamespaces : gset ClassOrModuleRef) (fuel : nat) (e : list NameRef) : bool :=
  symbol_exists (lookupFQN gs e)
  && negb (ownedByTestNamespace gs pkg pkgNamespaces fuel e).

(** Every reference of the manifest of [st1] is in the manifest of [st2]. *)
Definition manifestIncluded (gs : GlobalState) (st1 st2 : RBIExporter) : Prop :=
  (forall ref, ref ∈ packageRefs gs st1 -> ref ∈ packageRefs gs st2)
  /\ (forall ref, ref ∈ rbiRefs gs st1 -> ref ∈ rbiRefs gs st2).

(** ** Vocabulary of the specification: states of a pass *)

(** [Preserves P m]: every run of [m] that returns takes a state in [P] to a
    state in [P]. *)
Definition Preserves {A} (P : RBIExporter -> Prop) (m : M A) : Prop :=
  forall st a st', m st = Ok (a, st') -> P st -> P st'.

(** The accumulators of [st] hold at least what those of [st0] hold. *)
Definition accumulated (st0 st : RBIExporter) : Prop :=
  (forall package, is_Some (referencedPackages st0 !! package) ->
                   is_Some (referencedPackages st !! package))
  /\ referencedRBIs st0 ⊆ referencedRBIs st.




(** What the specification says of a struct: one property per keyword
    parameter of the initializer, [const] unless a setter exists, with a
    default when the parameter has one; then the initializer, if it is the
    user's own, and the methods that are not accessors of a property, with
    the fields that back none. *)
Definition structPropsSpec (gs : GlobalState) (pkg : PackageInfo)
    (pkgNamespaces : gset ClassOrModuleRef) (fuel : nat)
    (structInitializer : MethodRef) (methods : list MethodRef) (fields : list FieldRef)
    : M unit :=
  let props := keywordArguments gs structInitializer in
  let names := map arg_name props in
  forEach props (fun arg =>
    emitProp gs pkg pkgNamespaces fuel (arg_name arg) (arg_type arg)
             (negb (hasSetter gs methods (arg_name arg)))
             (af_isDefault (arg_flags arg))) >>
  let methods := List.filter (fun method => negb (isAccessorOf gs names method)) methods in
  let fields := List.filter (fun field => negb (isBackingFieldOf gs names field)) fields in
  let* fields :=
    (if bool_decide (me_loc (methodData gs structInitializer)
                     ≠ co_loc (classOrModuleData gs (me_owner (methodData gs structInitializer))))
     then emit_method gs pkg pkgNamespaces fuel structInitializer fields
     else ret fields) in
  emitMethods gs pkg pkgNamespaces fuel methods fields >> ret tt.

(** ** Vocabulary of the properties beyond the specification *)

(** [Holds P E m]: from a state in [P], a run of [m] that returns ends in a
    state in [P], and an exception it raises has a message in [E]. *)
Definition Holds {A} (P : RBIExporter -> Prop) (E : string -> Prop) (m : M A) : Prop :=
  forall st, P st ->
    match m st with
    | Ok (_, st') => P st'
    | Raise msg => E msg
    | OutOfFuel => True
    end.

(** The ownership walk accepts [s] within the budget: the owner chain of [s]
    first meets the production or the test namespace of the package. *)
Definition accepted (gs : GlobalState) (pkg : PackageInfo)
    (pkgNamespaces : gset ClassOrModuleRef) (fuel : nat) (s : SymbolRef) : Prop :=
  exists j, (j <= fuel)%nat /\ reachesOwnNamespace gs pkg pkgNamespaces s j.

(** The output is [i] levels deep, and its tab string is in step. *)
Definition indentedAt (i : Z) (st : RBIExporter) : Prop :=
  out_indent (out st) = i /\ out_tabStr (out st) = spaces (Z.to_nat (i * 2)).

(** The text is a sequence of complete lines. *)
Definition completeLines (text : string) : Prop :=
  text = EmptyString \/ exists t, text = t +:+ newline.

(** The text has no line break. *)
Definition noNewline (text : string) : bool :=
  string_forallb (fun c => negb (Ascii.eqb c newline_char)) text.

(** The exporter has accounted for the symbol [s]: it is marked, to be
    rendered in a stub of this package; or the package that owns it is
    among the referenced packages; or it belongs to no package, and the RBI
    file that defines it, if one does, is among the referenced RBIs. *)
Definition accountedFor (gs : GlobalState) (pkg : PackageInfo)
    (pkgNamespaces : gset ClassOrModuleRef) (s : SymbolRef) (st : RBIExporter) : Prop :=
  s ∈ emittedSymbols st
  \/ (exists j package,
        reachesForeignPackage gs pkg pkgNamespaces s j package
        /\ is_Some (referencedPackages st !! package))
  \/ (exists j,
        reachesGlobalRoot gs pkg pkgNamespaces s j
        /\ (definedInLegacyRBI gs s = true ->
            loc_file (SymbolRef_loc gs s) ∈ referencedRBIs st)).

(** Every symbol on the worklist is marked, and every class on it is
    accepted by the ownership walk. *)
Definition worklistAccepted (gs : GlobalState) (pkg : PackageInfo)
    (pkgNamespaces : gset ClassOrModuleRef) (fuel : nat) (st : RBIExporter) : Prop :=
  forall s, s ∈ toEmit st ->
    s ∈ emittedSymbols st /\ (kind s = ClassOrModule -> accepted gs pkg pkgNamespaces fuel s).

(** The buffer of [st] is [base] and complete lines after it. *)
Definition appended (base : string) (st : RBIExporter) : Prop :=
  exists text, out_buf (out st) = base +:+ text /\ completeLines text.

(** The state between two passes and what a pass returns. *)
Definition handedOver (st : RBIExporter) : RBIExporter :=
  set_out (mkOutput EmptyString (out_indent (out st)) (out_tabStr (out st))) st.

(** [emit(ClassOrModuleRef)] renders [klass]: it is no value class of an
    enum and no class internal to Sorbet. *)
Definition rendersClass (gs : GlobalState) (klass : ClassOrModuleRef) : bool :=
  negb (isEnumValueClass gs klass)
  && negb (StartsWith (n_shortName (nameData gs (co_name (classOrModuleData gs klass)))) "<").

(** The class definition line of [klass]. *)
Definition classHeader (gs : GlobalState) (klass : ClassOrModuleRef) : string :=
  let data := classOrModuleData gs klass in
  let superClass := co_superClass data in
  (if co_isClassOrModuleClass data then "class" else "module") +:+ " " +:+ co_show data
  +:+ (if ref_exists superClass
          && negb (N.eqb superClass (Symbols_Sorbet_Private_Static_ImplicitModuleSuperClass gs))
       then " < " +:+ co_show (classOrModuleData gs superClass)
       else EmptyString).

(** The output is [i] levels deep and holds [base] and complete lines. *)
Definition rendering (base : string) (i : Z) (st : RBIExporter) : Prop :=
  indentedAt i st /\ appended base st.

(** Every package the accumulators name is the namespace of another known
    package that the owner chain of its blamed symbol reaches, and every
    file they name is the RBI file, outside the payload, of a symbol whose
    owner chain reaches a root. *)
Definition manifestSound (gs : GlobalState) (pkg : PackageInfo)
    (pkgNamespaces : gset ClassOrModuleRef) (fuel : nat) (st : RBIExporter) : Prop :=
  (forall package blame,
      referencedPackages st !! package = Some blame ->
      exists j, (j <= fuel)%nat /\ reachesForeignPackage gs pkg pkgNamespaces blame j package)
  /\ (forall file,
        file ∈ referencedRBIs st ->
        exists original j,
          (j <= fuel)%nat /\ reachesGlobalRoot gs pkg pkgNamespaces original j
          /\ definedInLegacyRBI gs original = true
          /\ file = loc_file (SymbolRef_loc gs original)).

(** No symbol of the visited set is a singleton class, and every symbol of
    it that is no method and no type member is accepted by the ownership
    walk. *)
Definition visitedOwn (gs : GlobalState) (pkg : PackageInfo)
    (pkgNamespaces : gset ClassOrModuleRef) (fuel : nat) (st : RBIExporter) : Prop :=
  forall s, s ∈ emittedSymbols st ->
    isSingletonClassSymbol gs s = false
    /\ (kind s <> Method -> kind s <> TypeMember -> accepted gs pkg pkgNamespaces fuel s).

(** [st] with the worklist [queue]. *)
Definition withWorklist (queue : list SymbolRef) (st : RBIExporter) : RBIExporter :=
  mkExporter (emittedSymbols st) (referencedPackages st) (referencedRBIs st) queue (out st).

(** The worklist of [st] starts with [front]. *)
Definition worklistFrom (front : list SymbolRef) (st : RBIExporter) : Prop :=
  exists more, toEmit st = (front ++ more)%list.

(** What taking one symbol off the worklist keeps: the worklist still starts
    with [front], the output is [i] levels deep, and the buffer holds
    [base] and complete lines. *)
Definition stepInv (front : list SymbolRef) (base : string) (i : Z) (st : RBIExporter) : Prop :=
  worklistFrom front st /\ indentedAt i st /\ appended base st.






(** A stub and its manifest: both empty, or the header and the text of the
    pass with the manifest of the accumulators. *)
Definition stubWithManifest (gs : GlobalState) (stub deps : string) : Prop :=
  (stub = EmptyString /\ deps = EmptyString)
  \/ (exists text st, stub = typedHeader +:+ text /\ deps = dependenciesText gs st).

(** [k] is the production or the test namespace of [pkg], and exists. *)
Definition namespaceOf (gs : GlobalState) (pkg : PackageInfo) (k : ClassOrModuleRef) : Prop :=
  (symbol_exists (lookupFQN gs (fullName pkg)) = true /\ k = pkgNamespace gs pkg)
  \/ (symbol_exists (lookupFQN gs (Names_Constants_Test gs :: fullName pkg)) = true
      /\ k = pkgTestNamespace gs pkg).

(** The extensions of the files of a package. *)
Definition stubExtensions : list string :=
  [".rbi"; ".deps.json"; ".test.rbi"; ".test.deps.json"].

(** [w] writes a text that is not empty to one of the files of the package
    [pkg] under [outputDir]. *)
Definition writesFileOf (gs : GlobalState) (outputDir : string) (pkg : PackageInfo)
    (w : FileWrite) : Prop :=
  snd w <> EmptyString
  /\ exists ext,
       ext ∈ stubExtensions
       /\ fst w = outputDir +:+ "/" +:+ n_show (nameData gs (mangledName pkg)) +:+ ext.

(** Every marked symbol is on the worklist: nothing has been taken off it. *)
Definition allPending (st : RBIExporter) : Prop :=
  forall s, s ∈ emittedSymbols st -> s ∈ toEmit st.

(** ** Vocabulary of the specification: owners, parameters and properties *)

(** The owner chain of [sym] first meets, [k] links up, the test namespace
    of the package, and that is neither a root nor the production
    namespace. *)
Definition reachesTestNamespace (gs : GlobalState) (pkg : PackageInfo)
    (pkgNamespaces : gset ClassOrModuleRef) (sym : SymbolRef) (k : nat) : Prop :=
  chainPasses gs pkg pkgNamespaces k sym = true
  /\ isRootOrRegistry gs (ancestor gs k sym) = false
  /\ ancestor gs k sym <> classSym (pkgNamespace gs pkg)
  /\ ancestor gs k sym = classSym (pkgTestNamespace gs pkg).




(** ** The two layouts of a signature, line by line *)








(** ** The text of a declaration *)





(** The signature of a method, in the layout that fits. *)
Definition signatureText (gs : GlobalState) (method : MethodRef) (receiver retType : TypePtr)
    (constraint : option N) : string :=
  if Nat.leb (String.length (onelineSig gs method receiver retType constraint)) MAX_PRETTY_WIDTH
     && Nat.leb (length (nonSyntheticArguments gs method)) MAX_PRETTY_SIG_ARGS
  then onelineSig gs method receiver retType constraint
  else multilineSig gs method receiver retType constraint.

(** The output after the signature of [method], if it has one. *)
Definition declareSignature (gs : GlobalState) (method : MethodRef) (o : Output) : Output :=
  if me_hasSig (methodData gs method) then
    let dealiased := me_dealiasMethod (methodData gs method) in
    Output_println
      (if ref_exists dealiased
       then signatureText gs dealiased nullptr (me_resultType (methodData gs dealiased)) None
       else EmptyString) o
  else o.




(** The output after the definition of [method] on one line. *)
Definition defineWithoutFields (gs : GlobalState) (method : MethodRef) (o : Output) : Output :=
  Output_println (prettyDefForMethod gs method +:+ "; end") (declareSignature gs method o).

(** ** One declaration per symbol *)



(** ** The rendering of a struct *)

(** The line of the property that the keyword parameter [arg] of the
    initializer of a struct yields, in a class with the methods [methods]:
    [const] unless the class has its setter, with a default when the
    parameter has one. *)
Definition structPropertyLine (gs : GlobalState) (methods : list MethodRef) (tabStr : string)
    (arg : ArgInfo) : string :=
  tabStr
  +:+ propLine gs (arg_name arg) (shownType gs (arg_type arg))
              (negb (hasSetter gs methods (arg_name arg))) (af_isDefault (arg_flags arg))
  +:+ newline.

(** What one member adds to the locals of [emit(ClassOrModuleRef)]: the
    loop over the members without what it prints and enqueues. *)
Definition memberPending (gs : GlobalState) (pkgNamespaces : gset ClassOrModuleRef)
    (klass : ClassOrModuleRef) (isEnum : bool) (p : Pending) (entry : NameRef * SymbolRef)
    : Pending :=
  let '(name, member) := entry in
  if shouldSkipMember gs name then p
  else
    match kind member with
    | ClassOrModule =>
        let memberKlass := asClassOrModuleRef member in
        if bool_decide (memberKlass ∈ pkgNamespaces) then p
        else if isEnum && N.eqb (co_superClass (classOrModuleData gs memberKlass)) klass then
          mkPending (initializeMethod p) (pendingFields p)
                    (pendingEnumValues p ++ [memberKlass]) (pendingMethods p)
        else p
    | TypeMember => p
    | TypeArgument => p
    | Method =>
        if N.eqb name (Names_initialize gs) then
          mkPending (idx member) (pendingFields p) (pendingEnumValues p) (pendingMethods p)
        else
          mkPending (initializeMethod p) (pendingFields p) (pendingEnumValues p)
                    (pendingMethods p ++ [idx member])
    | FieldOrStaticField =>
        if fi_isField (fieldData gs (idx member)) then
          mkPending (initializeMethod p) (pendingFields p ++ [idx member])
                    (pendingEnumValues p) (pendingMethods p)
        else p
    end.

(** The initializer, the instance fields, the enum values and the methods
    of [klass] that the loop over its members leaves pending. *)
Definition classPending (gs : GlobalState) (pkgNamespaces : gset ClassOrModuleRef)
    (klass : ClassOrModuleRef) : Pending :=
  fold_left
    (memberPending gs pkgNamespaces klass
       (N.eqb (co_superClass (classOrModuleData gs klass)) (Symbols_T_Enum gs)))
    (co_membersStableOrderSlow (classOrModuleData gs klass))
    (mkPending 0%N [] [] []).

(** The body of [emit(ClassOrModuleRef)] up to the end of the loop over
    the members: the modifiers, the mixins, the type members, the members. *)
Definition classPreamble (gs : GlobalState) (pkg : PackageInfo)
    (pkgNamespaces : gset ClassOrModuleRef) (fuel : nat) (klass : ClassOrModuleRef)
    (isEnum : bool) : M Pending :=
  let data := classOrModuleData gs klass in
  when (co_isClassOrModuleAbstract data) (println "abstract!") >>
  when (co_isClassOrModuleFinal data) (println "final!") >>
  when (co_isClassOrModuleInterface data) (println "interface!") >>
  when (co_isClassOrModuleSealed data) (println "sealed!") >>
  forEach (co_mixins data) (fun mixin =>
    let keyword :=
      if co_isSingletonClass (classOrModuleData gs mixin) then "extend" else "include" in
    printlnf (keyword +:+ " " +:+ co_show (classOrModuleData gs mixin)) >>
    maybeEmit gs pkg pkgNamespaces fuel (classSym mixin)) >>
  forEach (co_typeMembers data) (emit_typeMember gs pkg pkgNamespaces fuel) >>
  forEachWith (co_membersStableOrderSlow data) (mkPending 0%N [] [] [])
              (classMember gs pkg pkgNamespaces fuel klass isEnum).

(** The end of the body of [emit(ClassOrModuleRef)]: the singleton class,
    whose methods get the fields that are still pending, and the values of
    an enum. *)
Definition classEpilogue (gs : GlobalState) (pkg : PackageInfo)
    (pkgNamespaces : gset ClassOrModuleRef) (fuel : nat) (klass : ClassOrModuleRef)
    (isEnum : bool) (enumValues : list ClassOrModuleRef) (pendingFields : list FieldRef)
    : M unit :=
  let data := classOrModuleData gs klass in
  let singleton := co_lookupSingletonClass data in
  (if ref_exists singleton then
     let sdata := classOrModuleData gs singleton in
     forEach (co_mixins sdata) (fun mixin =>
       printlnf ("extend " +:+ co_show (classOrModuleData gs mixin)) >>
       maybeEmit gs pkg pkgNamespaces fuel (classSym mixin)) >>
     forEach (co_typeMembers sdata) (emit_typeMember gs pkg pkgNamespaces fuel) >>
     forEachWith (co_membersStableOrderSlow sdata) pendingFields
                 (singletonMember gs pkg pkgNamespaces fuel klass) >>
     ret tt
   else ret tt) >>
  when (isEnum && negb (bool_decide (enumValues = [])))
    (println "enums do" >>
     withIndent
       (forEach enumValues (fun enumVal =>
          printlnf (n_show (nameData gs (co_name (classOrModuleData gs enumVal))) +:+ " = new"))) >>
     println "end").

(** What [maybeEmitStructProps] defines after the properties: the
    initializer, when it is the user's own, and the methods that are no
    accessors of a property, with the fields that back none. *)
Definition structDefinitions (gs : GlobalState) (pkg : PackageInfo)
    (pkgNamespaces : gset ClassOrModuleRef) (fuel : nat)
    (structInitializer : MethodRef) (methods : list MethodRef) (fields : list FieldRef)
    : M (list FieldRef) :=
  let names := map arg_name (keywordArguments gs structInitializer) in
  let methods := List.filter (fun method => negb (isAccessorOf gs names method)) methods in
  let fields := List.filter (fun field => negb (isBackingFieldOf gs names field)) fields in
  let* fields :=
    (if bool_decide (me_loc (methodData gs structInitializer)
                     ≠ co_loc (classOrModuleData gs (me_owner (methodData gs structInitializer))))
     then emit_method gs pkg pkgNamespaces fuel structInitializer fields
     else ret fields) in
  emitMethods gs pkg pkgNamespaces fuel methods fields.

(** ** A small universe of packages

    Three packages, [P] (with its test namespace [Test::P]), [Q] and the
    subpackage [P::Sub]:
<<
      class P::A < Test::P::T           # class 5
        include Q::B                    # class 8, owned by package Q
      end
      class Test::P::T; end             # class 6
      module P::Sub                     # class 9, the namespace of P::Sub
        X = type_template               # type member 1, on the singleton
        sig {returns(X)}
        def self.make; end              # method 1, on the singleton
      end
      class P::Point < T::Struct        # class 11
        const :a, Integer
        prop :b, String, default: ...
      end
      class P::Fwd                      # class 12
        def_delegators :@impl, :size, :each
        sig {params(x: Integer).returns(String)}
        def show(x); end
      end
      class Legacy; end                 # class 13, from rbi/legacy.rbi
>>
    The singleton class of [P::Sub] (class 10) is owned by [P], the owner of
    [P::Sub] itself. *)

Module World.

Definition name (k : NameKind) (text : string) : Name := mkName k text text text.

Definition names (n : NameRef) : Name :=
  match n with
  | 1 => name CONSTANT "P"       | 2 => name CONSTANT "Test"
  | 3 => name CONSTANT "A"       | 4 => name CONSTANT "T"
  | 5 => name CONSTANT "Q"       | 6 => name CONSTANT "B"
  | 7 => name CONSTANT "Sub"     | 8 => name CONSTANT "X"
  | 9 => name UTF8 "make"        | 10 => name UTF8 "<blk>"
  | 11 => name UTF8 "initialize" | 12 => name UTF8 "<static-init>"
  | 13 => name UTF8 "<mixed_in_class_methods>"
  | 14 => name UTF8 "sealed_subclasses"
  | 15 => name UTF8 "<singleton>" | 16 => name UTF8 "<attached>"
  | 17 => name CONSTANT "AttachedClass"
  | 18 => name UNIQUE "<Class:Sub>"
  | 19 => name CONSTANT "Point"
  | 20 => name UTF8 "a"          | 21 => name UTF8 "b"
  | 22 => name UTF8 "b="         | 23 => name UTF8 "@a"
  | 24 => name UTF8 "@b"         | 25 => name CONSTANT "Fwd"
  | 26 => name UTF8 "size"       | 27 => name UTF8 "each"
  | 28 => name UTF8 "bad"        | 29 => name UTF8 "worse"
  | 30 => name UTF8 "show"       | 31 => name UTF8 "x"
  | 32 => name CONSTANT "Legacy" | 33 => name CONSTANT "Integer"
  | 34 => name CONSTANT "String" | 35 => name CONSTANT "Struct"
  | 36 => name CONSTANT "Enum"   | 37 => name CONSTANT "Missing"
  | 38 => name UTF8 "P_Package"  | 39 => name UTF8 "P_Sub_Package"
  | _ => name UTF8 "?"
  end%N.

Definition lookupWithEq (n : NameRef) : NameRef :=
  match n with 21 => 22 | _ => 0 end%N.

Definition lookupWithAt (n : NameRef) : NameRef :=
  match n with 20 => 23 | 21 => 24 | _ => 0 end%N.

Definition files (f : FileRef) : FileData :=
  match f with
  | 1 => mkFile "rbi/legacy.rbi" true false
  | 2 => mkFile "payload/core.rbi" true true
  | _ => mkFile "lib/p.rb" false false
  end%N.

Definition noLoc : Loc := mkLoc false 0 0 0.

Definition noMember (_ : NameRef) : SymbolRef := classSym noClassOrModule.

(** A class or module without superclass, mixins or members. *)
Definition scope (owner : ClassOrModuleRef) (name : NameRef) (show : string) (isClass : bool)
    (findMember : NameRef -> SymbolRef) : ClassOrModuleData :=
  mkClass owner name show (mkLoc true 3 0 0) 0 [] [] [] findMember false 0 0 isClass
          false false false false.

Definition classes (k : ClassOrModuleRef) : ClassOrModuleData :=
  match k with
  | 1 => scope 1 0 "<root>" true
           (fun n => match n with
                     | 1 => classSym 2 | 2 => classSym 3 | 5 => classSym 7
                     | 32 => classSym 13 | _ => classSym 0
                     end%N)
  | 2 => scope 1 1 "P" false
           (fun n => match n with
                     | 3 => classSym 5 | 7 => classSym 9 | 19 => classSym 11
                     | 25 => classSym 12 | _ => classSym 0
                     end%N)
  | 3 => scope 1 2 "Test" false
           (fun n => match n with 1 => classSym 4 | _ => classSym 0 end%N)
  | 4 => scope 3 1 "Test::P" false
           (fun n => match n with 4 => classSym 6 | _ => classSym 0 end%N)
  | 5 => mkClass 2 3 "P::A" (mkLoc true 3 0 0) 6 [8%N] [] [] noMember false 0 0 true
                 false false false false
  | 6 => scope 4 4 "Test::P::T" true noMember
  | 7 => scope 1 5 "Q" false
           (fun n => match n with 6 => classSym 8 | _ => classSym 0 end%N)
  | 8 => scope 7 6 "Q::B" false noMember
  | 9 => mkClass 2 7 "P::Sub" (mkLoc true 3 0 0) 0 [] [] [] noMember false 0 10 false
                 false false false false
  | 10 => mkClass 2 18 "T.class_of(P::Sub)" (mkLoc true 3 0 0) 0 [] [1%N]
                  [(9%N, methodSym 1)] noMember true 9 0 true false false false false
  | 11 => mkClass 2 19 "P::Point" (mkLoc true 3 10 20) 16 [] []
                  [(11%N, methodSym 2); (20%N, methodSym 3); (21%N, methodSym 4);
                   (22%N, methodSym 10); (23%N, fieldSym 1); (24%N, fieldSym 2)]
                  noMember false 0 0 true false false false false
  | 12 => mkClass 2 25 "P::Fwd" (mkLoc true 3 0 0) 0 [] []
                  [(26%N, methodSym 5); (27%N, methodSym 6); (30%N, methodSym 9)]
                  noMember false 0 0 true false false false false
  | 13 => mkClass 1 32 "Legacy" (mkLoc true 1 0 0) 0 [] [] [] noMember false 0 0 true
                  false false false false
  | 14 => mkClass 1 33 "Integer" (mkLoc true 2 0 0) 0 [] [] [] noMember false 0 0 true
                  false false false false
  | 15 => mkClass 1 34 "String" (mkLoc true 2 0 0) 0 [] [] [] noMember false 0 0 true
                  false false false false
  | 16 => mkClass 1 35 "T::Struct" (mkLoc true 2 0 0) 0 [] [] [] noMember false 0 0 true
                  false false false false
  | 17 => mkClass 1 36 "T::Enum" (mkLoc true 2 0 0) 0 [] [] [] noMember false 0 0 true
                  false false false false
  | _ => scope 1 0 EmptyString true noMember
  end%N.

Definition plain : ArgFlags := mkArgFlags false false false false.
Definition keyword (hasDefault : bool) : ArgFlags := mkArgFlags true false hasDefault false.

Definition blk : ArgInfo := mkArg 10 nullptr (mkArgFlags false false false true) "blk" true.

(** The first argument of a method that [def_delegator(s)] synthesised: its
    name is the text of the declaration. *)
Definition delegatorArg (text : string) : ArgInfo :=
  mkArg 0 nullptr (mkArgFlags false true false false) text false.

Definition noFlags : MethodFlags := mkMethodFlags false false false false false false.

Definition method (owner : ClassOrModuleRef) (name : NameRef) (self : MethodRef)
    (arguments : list ArgInfo) (hasSig : bool) (resultType : TypePtr) : MethodData :=
  mkMethod owner name (mkLoc true 3 30 40) None arguments [] noFlags resultType hasSig self.

Definition methods (m : MethodRef) : MethodData :=
  match m with
  | 1 => method 10 9 1 [blk] true (SelfTypeParam (typeMemberSym 1))
  | 2 => mkMethod 11 11 (mkLoc true 3 10 20) None
           [mkArg 20 (ClassType 14) (keyword false) "a" false;
            mkArg 21 (ClassType 15) (keyword true) "b" false; blk]
           [] noFlags nullptr false 2
  | 3 => method 11 20 3 [blk] false nullptr
  | 4 => method 11 21 4 [blk] false nullptr
  | 5 => method 12 26 5 [delegatorArg "def_delegators :@impl, :size, :each"; blk] false nullptr
  | 6 => method 12 27 6 [delegatorArg "def_delegators :@impl, :size, :each"; blk] false nullptr
  | 7 => method 12 28 7 [delegatorArg "def_delegator"; blk] false nullptr
  | 8 => method 12 29 8 [delegatorArg "def_delegators"; blk] false nullptr
  | 9 => method 12 30 9 [mkArg 31 (ClassType 14) plain "x" false; blk] true (ClassType 15)
  | 10 => method 11 22 10 [mkArg 21 nullptr plain "b" false; blk] false nullptr
  | _ => method 0 0 0 [] false nullptr
  end%N.

Definition fields (f : FieldRef) : FieldData :=
  match f with
  | 1 => mkField 11 23 "@a" noLoc true false false (ClassType 14)
  | 2 => mkField 11 24 "@b" noLoc true false false (ClassType 15)
  | _ => mkField 0 0 EmptyString noLoc false false false nullptr
  end%N.

Definition typeMembers (t : TypeMemberRef) : TypeParameterData :=
  match t with
  | 1 => mkTypeParameter (classSym 10) 8 "P::Sub::X" (mkLoc true 3 0 0) false Invariant nullptr
  | _ => mkTypeParameter (classSym 0) 0 EmptyString noLoc false Invariant nullptr
  end%N.

Definition typeArguments (t : TypeArgumentRef) : TypeParameterData :=
  mkTypeParameter (classSym 0) 0 EmptyString noLoc false Invariant nullptr.

Definition show (t : TypePtr) : string :=
  match t with
  | ClassType k => co_show (classes k)
  | SelfTypeParam s => n_show (names (tp_name (typeMembers (idx s))))
  | _ => "T.untyped"
  end.

Definition gs : GlobalState :=
  mkGlobalState classes methods fields typeMembers typeArguments files names
    lookupWithEq lookupWithAt (fun _ => 0%N) (fun _ _ => 0%N)
    11 12 13 14 15 16 17 2
    1 18 17 16 19 0
    show BlamedUntyped (fun _ => false) (fun _ => false) (fun t => t) (fun _ => 0%N)
    (fun t _ _ _ => t) (fun t _ => t) (fun t _ => t).

(** The namespaces of all packages: [P], [Test::P], [Q] and [P::Sub]. *)
Definition namespaces : gset ClassOrModuleRef := {[ 2; 4; 7; 9 ]}%N.

(** Package [P] with one production export and one export in its test
    namespace. *)
Definition pkgP : PackageInfo := mkPackageInfo [1%N] 38 [[1; 3]; [2; 1; 4]]%N [].

(** Package [P] exporting [P::A], and exporting [P::A] to its tests again. *)
Definition pkgP_forTest : PackageInfo := mkPackageInfo [1%N] 38 [[1; 3]]%N [[1; 3]]%N.

(** Package [P] exporting [P::A], and [P::Point] to its tests. *)
Definition pkgP_point : PackageInfo := mkPackageInfo [1%N] 38 [[1; 3]]%N [[1; 19]]%N.

(** Package [P] declaring an export, [P::Missing], that does not exist. *)
Definition pkgP_missing : PackageInfo := mkPackageInfo [1%N] 38 [[1; 3]; [1; 37]]%N [].

(** Package [P] without the export that does not exist. *)
Definition pkgP_present : PackageInfo := mkPackageInfo [1%N] 38 [[1; 3]]%N [].

(** The subpackage [P::Sub], exporting its own namespace. *)
Definition pkgSub : PackageInfo := mkPackageInfo [1; 7]%N 39 [[1; 7]]%N [].

Definition fuel : nat := 8.

End World.

(** ** A second universe: props and flatfiles

    The universe of [World], and in package [P] two more classes:
<<
      class P::Doc                      # class 24
        prop :title, String             # methods title (20) and title= (21)
        const :id, Integer              # method id (24)
      end
      class P::Row < Opus::Flatfiles::Record   # class 23 < class 22
        flatfile do
          field :name                   # methods name (22) and name= (23)
        end
      end
>>  *)

Module Records.

Definition names (n : NameRef) : Name :=
  match n with
  | 40 => World.name UTF8 "title"      | 41 => World.name UTF8 "title="
  | 42 => World.name UTF8 "@title"     | 43 => World.name UTF8 "id"
  | 44 => World.name UTF8 "@id"        | 45 => World.name CONSTANT "Opus"
  | 46 => World.name CONSTANT "Flatfiles" | 47 => World.name CONSTANT "Record"
  | 48 => World.name CONSTANT "Row"    | 49 => World.name UTF8 "name"
  | 50 => World.name UTF8 "name="      | 51 => World.name CONSTANT "Doc"
  | 52 => World.name UTF8 "Q_Package"
  | _ => World.names n
  end%N.

Definition lookupWithEq (n : NameRef) : NameRef :=
  match n with 40 => 41 | 49 => 50 | _ => World.lookupWithEq n end%N.

Definition lookupWithAt (n : NameRef) : NameRef :=
  match n with 40 => 42 | 43 => 44 | _ => World.lookupWithAt n end%N.

Definition lookupNameConstant (text : string) : NameRef :=
  if String.eqb text "Flatfiles" then 46%N
  else if String.eqb text "Record" then 47%N
  else 0%N.

Definition lookupClassSymbol (owner : ClassOrModuleRef) (name : NameRef) : ClassOrModuleRef :=
  match owner, name with
  | 20, 46 => 21
  | 21, 47 => 22
  | _, _ => 0
  end%N.

Definition classes (k : ClassOrModuleRef) : ClassOrModuleData :=
  match k with
  | 20 => World.scope 1 45 "Opus" false World.noMember
  | 21 => World.scope 20 46 "Opus::Flatfiles" false World.noMember
  | 22 => World.scope 21 47 "Opus::Flatfiles::Record" true World.noMember
  | 23 => mkClass 2 48 "P::Row" (mkLoc true 3 0 0) 22 [] []
                  [(49%N, methodSym 22); (50%N, methodSym 23)]
                  World.noMember false 0 0 true false false false false
  | 24 => mkClass 2 51 "P::Doc" (mkLoc true 3 0 0) 0 [] []
                  [(40%N, methodSym 20); (41%N, methodSym 21); (43%N, methodSym 24);
                   (42%N, fieldSym 3); (44%N, fieldSym 4)]
                  World.noMember false 0 0 true false false false false
  | _ => World.classes k
  end%N.

(** A method that a declaration with the source text [source] synthesised. *)
Definition declared (owner : ClassOrModuleRef) (name : NameRef) (self : MethodRef)
    (source : string) (resultType : TypePtr) : MethodData :=
  mkMethod owner name (mkLoc true 3 30 40) (Some source) [World.blk] [] World.noFlags
           resultType false self.

Definition methods (m : MethodRef) : MethodData :=
  match m with
  | 20 => declared 24 40 20 "prop :title, String" (ClassType 15)
  | 21 => declared 24 41 21 "prop :title, String" (ClassType 15)
  | 22 => declared 23 49 22 "field :name, String" (ClassType 15)
  | 23 => declared 23 50 23 "field :name, String" (ClassType 15)
  | 24 => declared 24 43 24 "const :id, Integer" (ClassType 14)
  | _ => World.methods m
  end%N.

Definition fields (f : FieldRef) : FieldData :=
  match f with
  | 3 => mkField 24 42 "@title" World.noLoc true false false (ClassType 15)
  | 4 => mkField 24 44 "@id" World.noLoc true false false (ClassType 14)
  | _ => World.fields f
  end%N.

Definition show (t : TypePtr) : string :=
  match t with
  | ClassType k => co_show (classes k)
  | _ => World.show t
  end.

Definition gs : GlobalState :=
  mkGlobalState classes methods fields World.typeMembers World.typeArguments World.files names
    lookupWithEq lookupWithAt lookupNameConstant lookupClassSymbol
    11 12 13 14 15 16 17 2
    1 18 17 16 19 20
    show BlamedUntyped (fun _ => false) (fun _ => false) (fun t => t) (fun _ => 0%N)
    (fun t _ _ _ => t) (fun t _ => t) (fun t _ => t).

(** The package database of the universe: [P], [Q] and [P::Sub], with the
    package [Q] exporting nothing. *)
Definition pkgQ : PackageInfo := mkPackageInfo [5%N] 52 [] [].

Definition db : PackageDB :=
  mkPackageDB [38; 52; 39]%N
    (fun package => match package with
                    | 38 => World.pkgP_point
                    | 39 => World.pkgSub
                    | _ => pkgQ
                    end%N).

End Records.

(** ** A third universe: delegations that are not of the usual form

    The universe of [World], where [P::Fwd] reads
<<
      class P::Fwd                      # class 12
        def_delegators<TAB>:@impl, :size, :each    # method 11, [size]
        def_delegators                  # method 8, [worse]
      end
>>
    with a tab between the keyword and the receiver of the first
    declaration. *)

Module Delegations.

Definition tab : string := String (ascii_of_nat 9) EmptyString.

Definition tabbedText : string := "def_delegators" +:+ tab +:+ ":@impl, :size, :each".

Definition methods (m : MethodRef) : MethodData :=
  match m with
  | 11 => World.method 12 26 11 [World.delegatorArg tabbedText; World.blk] false nullptr
  | _ => World.methods m
  end%N.

Definition classes (k : ClassOrModuleRef) : ClassOrModuleData :=
  match k with
  | 12 => mkClass 2 25 "P::Fwd" (mkLoc true 3 0 0) 0 [] []
                  [(26%N, methodSym 11); (29%N, methodSym 8)]
                  World.noMember false 0 0 true false false false false
  | _ => World.classes k
  end%N.

Definition show (t : TypePtr) : string :=
  match t with
  | ClassType k => co_show (classes k)
  | _ => World.show t
  end.

Definition gs : GlobalState :=
  mkGlobalState classes methods World.fields World.typeMembers World.typeArguments World.files
    World.names World.lookupWithEq World.lookupWithAt (fun _ => 0%N) (fun _ _ => 0%N)
    11 12 13 14 15 16 17 2
    1 18 17 16 19 0
    show BlamedUntyped (fun _ => false) (fun _ => false) (fun t => t) (fun _ => 0%N)
    (fun t _ _ _ => t) (fun t _ => t) (fun t _ => t).

(** Package [P] exporting [P::Fwd]. *)
Definition pkgFwd : PackageInfo := mkPackageInfo [1%N] 38 [[1; 25]]%N [].

Definition db : PackageDB := mkPackageDB [38%N] (fun _ => pkgFwd).

(** The namespaces of the packages of [db]: [P] and [Test::P]. *)
Definition namespaces : gset ClassOrModuleRef := {[ 2; 4 ]}%N.

End Delegations.

(** * Properties *)

(** ** The monad *)

Lemma bind_ok {A B} (m : M A) (k : A -> M B) st a st' :
  m st = Ok (a, st') -> bind m k st = k a st'.
Proof. intros H. unfold bind. rewrite H. reflexivity. Qed.

Lemma bind_inv {A B} (m : M A) (k : A -> M B) st b st2 :
  bind m k st = Ok (b, st2) ->
  exists a st1, m st = Ok (a, st1) /\ k a st1 = Ok (b, st2).
Proof.
  unfold bind. destruct (m st) as [[a st1]| |] eqn:E; try discriminate.
  intros H. exists a, st1. split; [reflexivity | exact H].
Qed.

Lemma bind_raise {A B} (m : M A) (k : A -> M B) st msg :
  m st = Raise msg -> bind m k st = Raise msg.
Proof. intros H. unfold bind. rewrite H. reflexivity. Qed.

Lemma bind_ext {A B} (m1 m2 : M A) (k1 k2 : A -> M B) st :
  m1 st = m2 st -> (forall a st', k1 a st' = k2 a st') -> bind m1 k1 st = bind m2 k2 st.
Proof.
  intros Hm Hk. unfold bind. rewrite Hm.
  destruct (m2 st) as [[a st']| |]; [apply Hk | reflexivity | reflexivity].
Qed.

Lemma bind_assoc {A B C} (m : M A) (k : A -> M B) (h : B -> M C) st :
  bind (bind m k) h st = bind m (fun a => bind (k a) h) st.
Proof. unfold bind. destruct (m st) as [[a st']| |]; reflexivity. Qed.

Lemma forEach_app {A} (l1 l2 : list A) (body : A -> M unit) st :
  forEach (l1 ++ l2) body st = (forEach l1 body >> forEach l2 body) st.
Proof.
  revert st. induction l1 as [|x l1 IH]; intros st; simpl.
  - reflexivity.
  - rewrite bind_assoc. apply bind_ext; [reflexivity | intros _ st'; apply IH].
Qed.

(** ** Frame rules: what a computation preserves *)

Lemma preserves_ret {A} P (a : A) : Preserves P (ret a).
Proof. intros st a' st' H HP. inversion H; subst; exact HP. Qed.

Lemma preserves_bind {A B} P (m : M A) (k : A -> M B) :
  Preserves P m -> (forall a, Preserves P (k a)) -> Preserves P (bind m k).
Proof.
  intros Hm Hk st b st2 H HP.
  apply bind_inv in H as (a & st1 & H1 & H2).
  eapply Hk; [exact H2 | eapply Hm; eassumption].
Qed.

Lemma preserves_gets {A} P (f : RBIExporter -> A) : Preserves P (gets f).
Proof. intros st a st' H HP. inversion H; subst; exact HP. Qed.

Lemma preserves_raise {A} P msg : Preserves P (@raise A msg).
Proof. intros st a st' H. discriminate H. Qed.

Lemma preserves_outOfFuel {A} P : Preserves P (@outOfFuel A).
Proof. intros st a st' H. discriminate H. Qed.

Lemma preserves_liftResult {A} P (r : Result A) : Preserves P (liftResult r).
Proof. intros st a st' H HP. destruct r; inversion H; subst; exact HP. Qed.

Lemma preserves_modify P (f : RBIExporter -> RBIExporter) :
  (forall st, P st -> P (f st)) -> Preserves P (modify f).
Proof. intros Hf st a st' H HP. inversion H; subst. apply Hf, HP. Qed.

Lemma preserves_when P (b : bool) (m : M unit) : Preserves P m -> Preserves P (when b m).
Proof. intros Hm. destruct b; [exact Hm | apply preserves_ret]. Qed.

Lemma preserves_forEach {A} P (l : list A) (body : A -> M unit) :
  (forall x, Preserves P (body x)) -> Preserves P (forEach l body).
Proof.
  intros Hb. induction l as [|x l IH]; simpl.
  - apply preserves_ret.
  - apply preserves_bind; [apply Hb | intros _; exact IH].
Qed.

Lemma preserves_forEachWith {A S} P (l : list A) (acc : S) (body : S -> A -> M S) :
  (forall acc x, Preserves P (body acc x)) -> Preserves P (forEachWith l acc body).
Proof.
  intros Hb. revert acc. induction l as [|x l IH]; intros acc; simpl.
  - apply preserves_ret.
  - apply preserves_bind; [apply Hb | intros acc'; apply IH].
Qed.

Lemma preserves_mapM {A B} P (f : A -> M B) (l : list A) :
  (forall x, Preserves P (f x)) -> Preserves P (mapM f l).
Proof.
  intros Hf. induction l as [|x l IH]; simpl.
  - apply preserves_ret.
  - apply preserves_bind; [apply Hf | intros y].
    apply preserves_bind; [exact IH | intros ys; apply preserves_ret].
Qed.

(** One step of a frame proof: a rule for the head of the computation, or a
    case split on what it branches on. *)
Ltac preserves_step :=
  match goal with
  | |- Preserves _ (ret _) => apply preserves_ret
  | |- Preserves _ (bind _ _) => apply preserves_bind; [| intros ?]
  | |- Preserves _ (gets _) => apply preserves_gets
  | |- Preserves _ (raise _) => apply preserves_raise
  | |- Preserves _ badCast => apply preserves_raise
  | |- Preserves _ outOfFuel => apply preserves_outOfFuel
  | |- Preserves _ (liftResult _) => apply preserves_liftResult
  | |- Preserves _ (when _ _) => apply preserves_when
  | |- Preserves _ (forEach _ _) => apply preserves_forEach; intros ?
  | |- Preserves _ (forEachWith _ _ _) => apply preserves_forEachWith; intros ? ?
  | |- Preserves _ (mapM _ _) => apply preserves_mapM; intros ?
  | |- Preserves _ (if ?b then _ else _) => destruct b
  | |- Preserves _ (match ?x with _ => _ end) => destruct x
  | |- Preserves _ (let (_, _) := ?x in _) => destruct x
  | |- Preserves _ _ => progress cbv beta
  end.

(** The ownership walk only writes the two accumulators. *)

Section WalkFrame.

Context (gs : GlobalState) (pkg : PackageInfo).
Context (pkgNamespaces : gset ClassOrModuleRef).
Variable P : RBIExporter -> Prop.

Hypothesis P_package : forall st package blame,
  P st ->
  P (mkExporter (emittedSymbols st) (<[package := blame]> (referencedPackages st))
                (referencedRBIs st) (toEmit st) (out st)).

Hypothesis P_rbi : forall st file,
  P st ->
  P (mkExporter (emittedSymbols st) (referencedPackages st) ({[file]} ∪ referencedRBIs st)
                (toEmit st) (out st)).

Lemma isInPackage_fuel_preserves n sym original :
  Preserves P (isInPackage_fuel gs pkg pkgNamespaces n sym original).
Proof.
  revert sym. induction n as [|n IH]; intros sym; simpl;
    repeat first
      [ apply IH
      | apply preserves_modify; intros; first [apply P_package | apply P_rbi]; assumption
      | preserves_step ].
Qed.

End WalkFrame.

Lemma isInPackage_fuel_keeps gs pkg pkgNamespaces n sym original st b st' :
  isInPackage_fuel gs pkg pkgNamespaces n sym original st = Ok (b, st') ->
  emittedSymbols st' = emittedSymbols st /\ toEmit st' = toEmit st /\ out st' = out st.
Proof.
  intros H.
  apply (isInPackage_fuel_preserves gs pkg pkgNamespaces
           (fun s => emittedSymbols s = emittedSymbols st /\ toEmit s = toEmit st
                     /\ out s = out st)) in H.
  - apply H. repeat split.
  - intros s package blame Hs. exact Hs.
  - intros s file Hs. exact Hs.
Qed.

(** ** Types as lists of symbols

    [enqueueSymbolsInType] feeds [maybeEmit] the symbols of the type, one
    after the other. *)

Lemma TypePtr_nested_ind (Q : TypePtr -> Prop) :
  Q nullptr ->
  (forall s, Q (AliasType s)) ->
  (forall l r, Q l -> Q r -> Q (AndType l r)) ->
  (forall k targs, Forall Q targs -> Q (AppliedType k targs)) ->
  Q BlamedUntyped ->
  (forall k, Q (ClassType k)) ->
  (forall n, Q (LiteralType n)) ->
  (forall w, Q w -> Q (MetaType w)) ->
  (forall l r, Q l -> Q r -> Q (OrType l r)) ->
  Q SelfType ->
  (forall d, Q (SelfTypeParam d)) ->
  (forall ks vs, Forall Q ks -> Forall Q vs -> Q (ShapeType ks vs)) ->
  (forall es, Forall Q es -> Q (TupleType es)) ->
  (forall s, Q (TypeVar s)) ->
  (forall k s targs, Forall Q targs -> Q (UnresolvedAppliedType k s targs)) ->
  Q UnresolvedClassType ->
  (forall d l u, Q (LambdaParam d l u)) ->
  forall t, Q t.
Proof.
  intros Hnull Halias Hand Happ Hblamed Hclass Hlit Hmeta Hor Hself Hparam Hshape Htuple
         Hvar Hunres Huclass Hlambda.
  fix IH 1. intros t.
  assert (Hall : forall ts : list TypePtr,
             (fix all (l : list TypePtr) : Prop :=
                match l with [] => True | x :: l' => Q x /\ all l' end) ts ->
             Forall Q ts).
  { induction ts as [|x ts IHts]; intros H; [constructor |].
    destruct H as [Hx Hts]. constructor; [exact Hx | exact (IHts Hts)]. }
  destruct t as [ | s | l r | k targs | | k | n | w | l r | | d | ks vs | es | s
                | k s targs | | d l u ].
  - exact Hnull.
  - apply Halias.
  - apply Hand; apply IH.
  - apply Happ, Hall. clear Hall. induction targs as [|x xs IHxs]; simpl; [exact I |].
    split; [apply IH | exact IHxs].
  - exact Hblamed.
  - apply Hclass.
  - apply Hlit.
  - apply Hmeta, IH.
  - apply Hor; apply IH.
  - exact Hself.
  - apply Hparam.
  - apply Hshape; apply Hall; clear Hall.
    + induction ks as [|x xs IHxs]; simpl; [exact I |]. split; [apply IH | exact IHxs].
    + induction vs as [|x xs IHxs]; simpl; [exact I |]. split; [apply IH | exact IHxs].
  - apply Htuple, Hall. clear Hall. induction es as [|x xs IHxs]; simpl; [exact I |].
    split; [apply IH | exact IHxs].
  - apply Hvar.
  - apply Hunres, Hall. clear Hall. induction targs as [|x xs IHxs]; simpl; [exact I |].
    split; [apply IH | exact IHxs].
  - exact Huclass.
  - apply Hlambda.
Qed.

Lemma bind_ret_tt (m : M unit) st : (m >> ret tt) st = m st.
Proof. unfold bind, ret. destruct (m st) as [[[] st']| |]; reflexivity. Qed.

Section TypeSymbols.

Context (gs : GlobalState) (pkg : PackageInfo).
Context (pkgNamespaces : gset ClassOrModuleRef) (fuel : nat).

(** The loop over a list of types, given what the body does on each. *)
Lemma enqueueAll_forEach (types : list TypePtr) :
  Forall (fun t => forall st,
            enqueueSymbolsInType gs pkg pkgNamespaces fuel t st
            = forEach (symbolsInType t) (maybeEmit gs pkg pkgNamespaces fuel) st) types ->
  forall st,
    (fix enqueueAll (types : list TypePtr) : M unit :=
       match types with
       | [] => ret tt
       | t :: rest => enqueueSymbolsInType gs pkg pkgNamespaces fuel t >> enqueueAll rest
       end) types st
    = forEach ((fix symbolsInAll (types : list TypePtr) : list SymbolRef :=
                  match types with
                  | [] => []
                  | t :: rest => (symbolsInType t ++ symbolsInAll rest)%list
                  end) types)
              (maybeEmit gs pkg pkgNamespaces fuel) st.
Proof.
  induction 1 as [|t rest Ht _ IH]; intros st.
  - reflexivity.
  - rewrite forEach_app. apply bind_ext; [apply Ht | intros _ st'; apply IH].
Qed.

Lemma enqueueSymbolsInType_forEach (type : TypePtr) st :
  enqueueSymbolsInType gs pkg pkgNamespaces fuel type st
  = forEach (symbolsInType type) (maybeEmit gs pkg pkgNamespaces fuel) st.
Proof.
  revert st. induction type using TypePtr_nested_ind; intros st; simpl;
    try reflexivity; try (symmetry; apply bind_ret_tt).
  - rewrite forEach_app. apply bind_ext; [apply IHtype1 | intros _ st'; apply IHtype2].
  - apply bind_ext; [reflexivity | intros _ st'].
    apply (enqueueAll_forEach targs H).
  - apply IHtype.
  - rewrite forEach_app. apply bind_ext; [apply IHtype1 | intros _ st'; apply IHtype2].
  - rewrite forEach_app.
    apply bind_ext; [apply (enqueueAll_forEach ks H) | intros _ st'].
    apply (enqueueAll_forEach vs H0).
  - apply (enqueueAll_forEach es H).
  - apply bind_ext; [reflexivity | intros _ st'].
    apply bind_ext; [reflexivity | intros _ st2].
    apply (enqueueAll_forEach targs H).
Qed.

End TypeSymbols.

(** A predicate on the exporter's state that the ways of changing the state
    respect is preserved by every member function. A lemma below depends
    only on the closure conditions its function needs: the closure builder
    never prints, the renderer never takes a symbol off the worklist. *)

Section Frame.

Context (gs : GlobalState) (pkg : PackageInfo).
Context (pkgNamespaces : gset ClassOrModuleRef) (fuel : nat).
Variable P : RBIExporter -> Prop.

Hypothesis P_package : forall st package blame,
  P st ->
  P (mkExporter (emittedSymbols st) (<[package := blame]> (referencedPackages st))
                (referencedRBIs st) (toEmit st) (out st)).

Hypothesis P_rbi : forall st file,
  P st ->
  P (mkExporter (emittedSymbols st) (referencedPackages st) ({[file]} ∪ referencedRBIs st)
                (toEmit st) (out st)).

(** [maybeEmit] marks and enqueues a symbol that is not marked yet. *)
Hypothesis P_enqueue : forall st s,
  s ∉ emittedSymbols st ->
  P st ->
  P (mkExporter ({[s]} ∪ emittedSymbols st) (referencedPackages st) (referencedRBIs st)
                (toEmit st ++ [s]) (out st)).

(** The [emit] overloads for methods and type members mark a symbol. *)
Hypothesis P_mark : forall st s,
  P st ->
  P (mkExporter ({[s]} ∪ emittedSymbols st) (referencedPackages st) (referencedRBIs st)
                (toEmit st) (out st)).

Hypothesis P_out : forall st o, P st -> P (set_out o st).

Hypothesis P_pop : forall st,
  P st ->
  P (mkExporter (emittedSymbols st) (referencedPackages st) (referencedRBIs st)
                (removelast (toEmit st)) (out st)).

Lemma maybeEmit_fuel_preserves n symbol :
  Preserves P (maybeEmit_fuel gs pkg pkgNamespaces fuel n symbol).
Proof.
  revert symbol. induction n as [|n IH]; intros symbol; simpl.
  all: destruct (isSingletonClassSymbol gs symbol);
    [first [apply preserves_outOfFuel | apply IH] |].
  all: intros st a st' H HP; unfold bind, gets in H; simpl in H.
  all: destruct (bool_decide (symbol ∈ emittedSymbols st)) eqn:Evis;
    [inversion H; subst; exact HP |].
  all: destruct (isInPackage gs pkg pkgNamespaces fuel symbol symbol st)
    as [[[] st1]| |] eqn:Ein; try discriminate.
  all: pose proof (isInPackage_fuel_preserves gs pkg pkgNamespaces P P_package P_rbi
                     _ _ _ _ _ _ Ein HP) as HP1.
  all: try (inversion H; subst; exact HP1).
  all: apply isInPackage_fuel_keeps in Ein as (Hkeep & _ & _).
  all: unfold insertEmitted, pushToEmit, modify in H; simpl in H;
    inversion H; subst; simpl.
  all: apply bool_decide_eq_false in Evis.
  all: rewrite <- Hkeep in Evis; apply (P_enqueue st1 symbol Evis HP1).
Qed.

Lemma maybeEmit_preserves symbol : Preserves P (maybeEmit gs pkg pkgNamespaces fuel symbol).
Proof. apply maybeEmit_fuel_preserves. Qed.

Lemma enqueueSymbolsInType_preserves type :
  Preserves P (enqueueSymbolsInType gs pkg pkgNamespaces fuel type).
Proof.
  intros st a st' H. rewrite enqueueSymbolsInType_forEach in H. revert st a st' H.
  apply preserves_forEach. intros s. apply maybeEmit_preserves.
Qed.

Lemma showType_preserves type : Preserves P (showType gs pkg pkgNamespaces fuel type).
Proof.
  unfold showType.
  repeat first [apply enqueueSymbolsInType_preserves | preserves_step].
Qed.

Lemma typeDeclaration_preserves type :
  Preserves P (typeDeclaration gs pkg pkgNamespaces fuel type).
Proof.
  unfold typeDeclaration.
  repeat first [apply showType_preserves | apply maybeEmit_preserves | preserves_step].
Qed.

Lemma showVariance_preserves tm : Preserves P (showVariance gs pkg pkgNamespaces fuel tm).
Proof.
  unfold showVariance. repeat first [apply showType_preserves | preserves_step].
Qed.

Lemma sigParams_preserves method receiver constraint arguments :
  Preserves P (sigParams gs pkg pkgNamespaces fuel method receiver constraint arguments).
Proof.
  induction arguments as [|argSym rest IH]; simpl;
    repeat first [apply IH | apply showType_preserves | preserves_step].
Qed.

Lemma prettySigForMethod_preserves method receiver retType constraint :
  Preserves P (prettySigForMethod gs pkg pkgNamespaces fuel method receiver retType constraint).
Proof.
  unfold prettySigForMethod.
  repeat first [apply sigParams_preserves | apply showType_preserves | preserves_step].
Qed.

Lemma printlnf_preserves line : Preserves P (printlnf line).
Proof. apply preserves_modify. intros st HP. apply P_out, HP. Qed.

Lemma println_preserves arg : Preserves P (println arg).
Proof. apply preserves_modify. intros st HP. apply P_out, HP. Qed.

Lemma withIndent_preserves {A} (body : M A) : Preserves P body -> Preserves P (withIndent body).
Proof.
  intros Hb. unfold withIndent.
  repeat first [exact Hb | apply preserves_modify; intros; apply P_out; assumption
               | preserves_step].
Qed.

Lemma insertEmitted_preserves s : Preserves P (insertEmitted s).
Proof. apply preserves_modify. intros st HP. apply P_mark, HP. Qed.

Lemma emitProp_preserves name type isConst hasDefault :
  Preserves P (emitProp gs pkg pkgNamespaces fuel name type isConst hasDefault).
Proof.
  unfold emitProp.
  repeat first [apply showType_preserves | apply printlnf_preserves | preserves_step].
Qed.

Lemma emit_field_preserves field isCVar :
  Preserves P (emit_field gs pkg pkgNamespaces fuel field isCVar).
Proof.
  unfold emit_field.
  repeat first [apply showType_preserves | apply typeDeclaration_preserves
               | apply printlnf_preserves | preserves_step].
Qed.

Lemma emit_typeMember_preserves tm :
  Preserves P (emit_typeMember gs pkg pkgNamespaces fuel tm).
Proof.
  unfold emit_typeMember.
  repeat first [apply showVariance_preserves | apply insertEmitted_preserves
               | apply printlnf_preserves | preserves_step].
Qed.

Lemma tryEmitDefDelegator_preserves method : Preserves P (tryEmitDefDelegator gs method).
Proof.
  unfold tryEmitDefDelegator.
  repeat first [apply printlnf_preserves | apply println_preserves | preserves_step].
Qed.

Lemma emit_method_preserves method fields :
  Preserves P (emit_method gs pkg pkgNamespaces fuel method fields).
Proof.
  unfold emit_method.
  repeat first [ apply tryEmitDefDelegator_preserves | apply prettySigForMethod_preserves
               | apply insertEmitted_preserves | apply emit_field_preserves
               | apply printlnf_preserves | apply println_preserves
               | apply withIndent_preserves | preserves_step ].
Qed.



Lemma structPropsLoop_preserves arguments methods fields :
  Preserves P (structPropsLoop gs pkg pkgNamespaces fuel arguments methods fields).
Proof.
  revert methods fields. induction arguments as [|arg rest IH]; intros methods fields; simpl;
    repeat first [apply IH | apply emitProp_preserves | preserves_step].
Qed.

Lemma emitMethods_preserves methods fields :
  Preserves P (emitMethods gs pkg pkgNamespaces fuel methods fields).
Proof.
  unfold emitMethods. repeat first [apply emit_method_preserves | preserves_step].
Qed.

Lemma maybeEmitStructProps_preserves structInitializer methods fields :
  Preserves P (maybeEmitStructProps gs pkg pkgNamespaces fuel structInitializer methods fields).
Proof.
  unfold maybeEmitStructProps.
  repeat first [ apply structPropsLoop_preserves | apply emit_method_preserves
               | apply emitMethods_preserves | preserves_step ].
Qed.

Lemma classMember_preserves klass isEnum p entry :
  Preserves P (classMember gs pkg pkgNamespaces fuel klass isEnum p entry).
Proof.
  unfold classMember.
  repeat first [ apply maybeEmit_preserves | apply emit_field_preserves | preserves_step ].
Qed.

Lemma singletonMember_preserves klass pendingFields entry :
  Preserves P (singletonMember gs pkg pkgNamespaces fuel klass pendingFields entry).
Proof.
  unfold singletonMember.
  repeat first [ apply maybeEmit_preserves | apply emit_field_preserves
               | apply emit_method_preserves | preserves_step ].
Qed.

Lemma propsPhase_preserves pendingMethods pendingFields :
  Preserves P (propsPhase gs pkg pkgNamespaces fuel pendingMethods pendingFields).
Proof.
  unfold propsPhase.
  repeat first [ apply emitProp_preserves | preserves_step ].
Qed.

Lemma flatfilePhase_preserves pendingMethods :
  Preserves P (flatfilePhase gs pendingMethods).
Proof.
  unfold flatfilePhase.
  repeat first [ apply printlnf_preserves | apply println_preserves
               | apply withIndent_preserves | preserves_step ].
Qed.

Lemma emit_klass_body_preserves klass isEnum isStruct isFlatFile :
  Preserves P (emit_klass_body gs pkg pkgNamespaces fuel klass isEnum isStruct isFlatFile).
Proof.
  unfold emit_klass_body.
  repeat first [ apply maybeEmit_preserves | apply emit_typeMember_preserves
               | apply classMember_preserves | apply singletonMember_preserves
               | apply maybeEmitStructProps_preserves | apply emit_method_preserves
               | apply propsPhase_preserves | apply flatfilePhase_preserves
               | apply emitMethods_preserves
               | apply printlnf_preserves | apply println_preserves
               | apply withIndent_preserves | preserves_step ].
Qed.

Lemma emit_klass_preserves klass : Preserves P (emit_klass gs pkg pkgNamespaces fuel klass).
Proof.
  unfold emit_klass, isInPackage, isFlatfile.
  repeat first [ apply (isInPackage_fuel_preserves gs pkg pkgNamespaces P P_package P_rbi)
               | apply emit_klass_body_preserves | apply maybeEmit_preserves
               | apply printlnf_preserves | apply println_preserves
               | apply withIndent_preserves | preserves_step ].
Qed.

Lemma emitLoop_fuel_preserves n : Preserves P (emitLoop_fuel gs pkg pkgNamespaces fuel n).
Proof.
  induction n as [|n IH]; simpl.
  - repeat preserves_step.
  - repeat first [ apply IH | apply emit_klass_preserves | apply emit_method_preserves
                 | apply emit_field_preserves
                 | apply preserves_modify; intros; apply P_pop; assumption
                 | preserves_step ].
Qed.

Lemma emitLoop_preserves : Preserves P (emitLoop gs pkg pkgNamespaces fuel).
Proof. apply emitLoop_fuel_preserves. Qed.

Lemma Output_toString_preserves : Preserves P Output_toString.
Proof.
  unfold Output_toString.
  repeat first [apply preserves_modify; intros; apply P_out; assumption | preserves_step].
Qed.

Lemma productionPass_preserves exports :
  Preserves P (productionPass gs pkg pkgNamespaces fuel exports).
Proof.
  unfold productionPass, dependencies.
  repeat first [ apply maybeEmit_preserves | apply emitLoop_preserves
               | apply Output_toString_preserves | preserves_step ].
Qed.

Lemma testPass_preserves testExports :
  Preserves P (testPass gs pkg pkgNamespaces fuel testExports).
Proof.
  unfold testPass, dependencies.
  repeat first [ apply maybeEmit_preserves | apply emitLoop_preserves
               | apply Output_toString_preserves | preserves_step ].
Qed.

End Frame.

(** ** The ownership walk *)

Section Walk.

Context (gs : GlobalState) (pkg : PackageInfo).
Context (pkgNamespaces : gset ClassOrModuleRef).

Lemma walkContinues_inv sym :
  walkContinues gs pkg pkgNamespaces sym = true ->
  isRootOrRegistry gs sym = false
  /\ isOwnNamespace gs pkg sym = false
  /\ isPackageNamespace pkgNamespaces sym = false.
Proof.
  unfold walkContinues. intros H.
  apply andb_prop in H as [H H3]. apply andb_prop in H as [H1 H2].
  repeat split; apply negb_true_iff; assumption.
Qed.

(** Over a stretch of the chain without roots or namespaces the walk just
    climbs. *)
Lemma isInPackage_fuel_climb k n sym original st :
  chainPasses gs pkg pkgNamespaces k sym = true ->
  isInPackage_fuel gs pkg pkgNamespaces (k + n) sym original st
  = isInPackage_fuel gs pkg pkgNamespaces n (ancestor gs k sym) original st.
Proof.
  revert sym. induction k as [|k IH]; intros sym Hpass; [reflexivity |].
  simpl in Hpass. apply andb_prop in Hpass as [Hcont Hpass].
  apply walkContinues_inv in Hcont as (Hroot & Hown & Hns).
  unfold isOwnNamespace in Hown.
  change (S k + n)%nat with (S (k + n)). simpl.
  rewrite Hroot, Hown, Hns. apply IH, Hpass.
Qed.

Lemma isInPackage_fuel_foreign n sym original st :
  isRootOrRegistry gs sym = false ->
  isOwnNamespace gs pkg sym = false ->
  isPackageNamespace pkgNamespaces sym = true ->
  isInPackage_fuel gs pkg pkgNamespaces n sym original st
  = Ok (false,
        mkExporter (emittedSymbols st)
                   (<[asClassOrModuleRef sym := original]> (referencedPackages st))
                   (referencedRBIs st) (toEmit st) (out st)).
Proof.
  intros Hroot Hown Hns. unfold isOwnNamespace in Hown.
  destruct n; simpl; rewrite Hroot, Hown, Hns; reflexivity.
Qed.

Lemma isInPackage_fuel_root n sym original st :
  isRootOrRegistry gs sym = true ->
  isInPackage_fuel gs pkg pkgNamespaces n sym original st
  = Ok (false,
        mkExporter (emittedSymbols st) (referencedPackages st)
                   (if definedInLegacyRBI gs original
                    then {[loc_file (SymbolRef_loc gs original)]} ∪ referencedRBIs st
                    else referencedRBIs st)
                   (toEmit st) (out st)).
Proof.
  intros Hroot. unfold definedInLegacyRBI.
  destruct n; simpl; rewrite Hroot;
    destruct (loc_exists _ && fd_isRBI _ && negb (fd_isPayload _));
    destruct st; reflexivity.
Qed.

Lemma isInPackage_fuel_own n sym original st :
  isRootOrRegistry gs sym = false ->
  isOwnNamespace gs pkg sym = true ->
  isInPackage_fuel gs pkg pkgNamespaces n sym original st = Ok (true, st).
Proof.
  intros Hroot Hown. unfold isOwnNamespace in Hown.
  destruct n; simpl; rewrite Hroot, Hown; reflexivity.
Qed.

Lemma le_split (k fuel : nat) : (k <= fuel)%nat -> exists n, fuel = (k + n)%nat.
Proof. intros H. exists (fuel - k)%nat. lia. Qed.

(** Enough fuel: the walk returns, and leaves everything but the two
    accumulators alone. *)
Lemma isInPackage_fuel_ends n sym original st :
  walkEnds gs pkg pkgNamespaces n sym = true ->
  exists b st',
    isInPackage_fuel gs pkg pkgNamespaces n sym original st = Ok (b, st')
    /\ emittedSymbols st' = emittedSymbols st /\ toEmit st' = toEmit st /\ out st' = out st.
Proof.
  revert sym. induction n as [|n IH]; intros sym Hends; simpl in Hends.
  all: destruct (walkContinues gs pkg pkgNamespaces sym) eqn:Hcont;
    [first [discriminate Hends
           | apply walkContinues_inv in Hcont as (Hroot & Hown & Hns);
             unfold isOwnNamespace in Hown; simpl; rewrite Hroot, Hown, Hns;
             apply IH, Hends] |].
  all: assert (Hret : exists b st',
           isInPackage_fuel gs pkg pkgNamespaces 0 sym original st = Ok (b, st')).
  all: try (unfold walkContinues in Hcont;
            destruct (isRootOrRegistry gs sym) eqn:Hroot;
            [ rewrite (isInPackage_fuel_root 0 sym original st Hroot); eauto |];
            destruct (isOwnNamespace gs pkg sym) eqn:Hown;
            [ rewrite (isInPackage_fuel_own 0 sym original st Hroot Hown); eauto |];
            destruct (isPackageNamespace pkgNamespaces sym) eqn:Hns;
            [ rewrite (isInPackage_fuel_foreign 0 sym original st Hroot Hown Hns); eauto
            | discriminate Hcont ]).
  all: destruct Hret as (b & st' & Hret).
  - exists b, st'. split; [exact Hret | eapply isInPackage_fuel_keeps, Hret].
  - exists b, st'.
    assert (Hsame : isInPackage_fuel gs pkg pkgNamespaces (S n) sym original st
                    = isInPackage_fuel gs pkg pkgNamespaces 0 sym original st).
    { unfold walkContinues in Hcont. simpl.
      destruct (isRootOrRegistry gs sym); [reflexivity |].
      unfold isOwnNamespace in Hcont.
      destruct (bool_decide (sym = classSym (pkgNamespace gs pkg))
                || bool_decide (sym = classSym (pkgTestNamespace gs pkg))); [reflexivity |].
      destruct (isPackageNamespace pkgNamespaces sym); [reflexivity | discriminate Hcont]. }
    rewrite Hsame. split; [exact Hret | eapply isInPackage_fuel_keeps, Hret].
Qed.

End Walk.

(** ** The closure builder *)

Section Closure.

Context (gs : GlobalState) (pkg : PackageInfo).
Context (pkgNamespaces : gset ClassOrModuleRef) (fuel : nat).

(** A singleton class is redirected to its attached class; the symbol the
    redirections settle on is treated as [maybeEmit] treats any symbol. *)
Lemma maybeEmit_fuel_target n symbol target st :
  attachedTarget gs n symbol = Some target ->
  isSingletonClassSymbol gs target = false
  /\ maybeEmit_fuel gs pkg pkgNamespaces fuel n symbol st
     = maybeEmit_fuel gs pkg pkgNamespaces fuel 0 target st.
Proof.
  revert symbol. induction n as [|n IH]; intros symbol Htarget; simpl in Htarget.
  - destruct (isSingletonClassSymbol gs symbol) eqn:Hs; [discriminate |].
    inversion Htarget; subst. split; [exact Hs | reflexivity].
  - destruct (isSingletonClassSymbol gs symbol) eqn:Hs.
    + simpl. rewrite Hs. apply IH, Htarget.
    + inversion Htarget; subst. split; [exact Hs |]. simpl. rewrite Hs. reflexivity.
Qed.

(** A symbol that is already marked is passed over: nothing changes. *)
Lemma maybeEmit_visited symbol target st :
  attachedTarget gs fuel symbol = Some target ->
  target ∈ emittedSymbols st ->
  maybeEmit gs pkg pkgNamespaces fuel symbol st = Ok (tt, st).
Proof.
  intros Htarget Hin. unfold maybeEmit.
  destruct (maybeEmit_fuel_target fuel symbol target st Htarget) as [Hs ->].
  simpl. rewrite Hs. unfold bind, gets. simpl.
  rewrite bool_decide_eq_true_2 by exact Hin. reflexivity.
Qed.

(** A symbol that is not marked yet is walked; what the walk answers decides. *)
Lemma maybeEmit_unvisited symbol target st :
  attachedTarget gs fuel symbol = Some target ->
  target ∉ emittedSymbols st ->
  maybeEmit gs pkg pkgNamespaces fuel symbol st
  = match isInPackage gs pkg pkgNamespaces fuel target target st with
    | Ok (true, st') =>
        Ok (tt, mkExporter ({[target]} ∪ emittedSymbols st') (referencedPackages st')
                           (referencedRBIs st') (toEmit st' ++ [target]) (out st'))
    | Ok (false, st') => Ok (tt, st')
    | Raise msg => Raise msg
    | OutOfFuel => OutOfFuel
    end.
Proof.
  intros Htarget Hin. unfold maybeEmit.
  destruct (maybeEmit_fuel_target fuel symbol target st Htarget) as [Hs ->].
  simpl. rewrite Hs. unfold bind, gets. simpl.
  rewrite bool_decide_eq_false_2 by exact Hin.
  destruct (isInPackage gs pkg pkgNamespaces fuel target target st) as [[[] st']| |];
    reflexivity.
Qed.

End Closure.

(** ** Claims about the closure builder *)

(** C1, as amended: a symbol fed to [maybeEmit] is first redirected from a
    singleton class to its attached class; if the symbol so reached is not
    in the visited set and its owner chain first meets the namespace [ns] of
    a known package other than this one's production or test namespace, then
    [maybeEmit] neither marks nor enqueues it, and the only change of state
    is the entry [ns => symbol] of the map of referenced packages, which
    replaces any earlier entry for [ns]. *)
Theorem C1_foreign_symbol_recorded_not_enqueued
    gs pkg pkgNamespaces fuel symbol target k ns st :
  attachedTarget gs fuel symbol = Some target ->
  target ∉ emittedSymbols st ->
  reachesForeignPackage gs pkg pkgNamespaces target k ns ->
  (k <= fuel)%nat ->
  maybeEmit gs pkg pkgNamespaces fuel symbol st
  = Ok (tt, mkExporter (emittedSymbols st) (<[ns := target]> (referencedPackages st))
                       (referencedRBIs st) (toEmit st) (out st)).
Proof.
  intros Htarget Hfresh (Hpass & Hanc & Hns & Hroot & Hown) Hk.
  rewrite (maybeEmit_unvisited gs pkg pkgNamespaces fuel symbol target st Htarget Hfresh).
  unfold isInPackage. destruct (le_split k fuel Hk) as [n ->].
  rewrite (isInPackage_fuel_climb gs pkg pkgNamespaces k n target target st Hpass), Hanc.
  rewrite isInPackage_fuel_foreign; [reflexivity | exact Hroot | exact Hown |].
  unfold isPackageNamespace. simpl. apply bool_decide_eq_true_2, Hns.
Qed.

Lemma World_namespace_elem (ns : N) :
  bool_decide (ns ∈ World.namespaces) = true -> ns ∈ World.namespaces.
Proof. apply bool_decide_eq_true_1. Qed.

(** [Q::B], owned by package [Q], met while package [P] is generated. *)
Lemma C1_witness :
  maybeEmit World.gs World.pkgP World.namespaces World.fuel (classSym 8) initialExporter
  = Ok (tt, mkExporter ∅ (<[7%N := classSym 8]> ∅) ∅ [] initialOutput).
Proof.
  apply (C1_foreign_symbol_recorded_not_enqueued World.gs World.pkgP World.namespaces
           World.fuel (classSym 8) (classSym 8) 1 7%N initialExporter).
  - reflexivity.
  - apply not_elem_of_empty.
  - unfold reachesForeignPackage.
    split; [vm_compute; reflexivity |].
    split; [vm_compute; reflexivity |].
    split; [apply World_namespace_elem; vm_compute; reflexivity |].
    split; vm_compute; reflexivity.
  - vm_compute. lia.
Defined.

(** C1, as stated, fails on a symbol that is already marked: while package
    [P::Sub] is generated, the type template [X] of its namespace is marked
    by [emit(TypeMemberRef)]; its owner chain leads through the singleton
    class to [P], the namespace of another package, yet feeding it to
    [maybeEmit] afterwards (as rendering the signature of [make] does)
    records nothing, and the manifest of the run names no package. *)
Lemma C1_counterexample :
  reachesForeignPackage World.gs World.pkgSub World.namespaces (typeMemberSym 1) 2 2%N
  /\ (exists st1,
        emit_typeMember World.gs World.pkgSub World.namespaces World.fuel 1 initialExporter
        = Ok (tt, st1)
        /\ maybeEmit World.gs World.pkgSub World.namespaces World.fuel (typeMemberSym 1) st1
           = Ok (tt, st1)
        /\ referencedPackages st1 !! 2%N = None)
  /\ (exists output,
        runOnce World.gs World.pkgSub World.namespaces World.fuel = Ok output
        /\ rbiPackageDependencies output = dependenciesText World.gs initialExporter).
Proof.
  split; [| split].
  - unfold reachesForeignPackage.
    split; [vm_compute; reflexivity |].
    split; [vm_compute; reflexivity |].
    split; [apply World_namespace_elem; vm_compute; reflexivity |].
    split; vm_compute; reflexivity.
  - eexists. split; [vm_compute; reflexivity |].
    split; vm_compute; reflexivity.
  - eexists. split; vm_compute; reflexivity.
Qed.

(** C8: when the owner chain of a symbol reaches the global root (or the
    package registry) without meeting any package namespace, the ownership
    walk rejects the symbol, and the file of its defining location joins the
    set of referenced RBIs exactly when that location exists and its file is
    an RBI file outside the payload; nothing else changes. The set holds a
    file once: when the file is in it already, the walk leaves the state as
    it is. *)
Theorem C8_unpackaged_symbol_rejected_legacy_rbi_recorded
    gs pkg pkgNamespaces fuel symbol k st :
  reachesGlobalRoot gs pkg pkgNamespaces symbol k ->
  (k <= fuel)%nat ->
  isInPackage gs pkg pkgNamespaces fuel symbol symbol st
  = Ok (false,
        mkExporter (emittedSymbols st) (referencedPackages st)
                   (if definedInLegacyRBI gs symbol
                    then {[loc_file (SymbolRef_loc gs symbol)]} ∪ referencedRBIs st
                    else referencedRBIs st)
                   (toEmit st) (out st))
  /\ (loc_file (SymbolRef_loc gs symbol) ∈ referencedRBIs st ->
      isInPackage gs pkg pkgNamespaces fuel symbol symbol st = Ok (false, st)).
Proof.
  intros (Hpass & Hroot) Hk.
  assert (Hwalk :
    isInPackage gs pkg pkgNamespaces fuel symbol symbol st
    = Ok (false,
          mkExporter (emittedSymbols st) (referencedPackages st)
                     (if definedInLegacyRBI gs symbol
                      then {[loc_file (SymbolRef_loc gs symbol)]} ∪ referencedRBIs st
                      else referencedRBIs st)
                     (toEmit st) (out st))).
  { unfold isInPackage. destruct (le_split k fuel Hk) as [n ->].
    rewrite (isInPackage_fuel_climb gs pkg pkgNamespaces k n symbol symbol st Hpass).
    apply isInPackage_fuel_root, Hroot. }
  split; [exact Hwalk |].
  intros Hin. rewrite Hwalk. do 2 f_equal.
  assert (Hsame : {[loc_file (SymbolRef_loc gs symbol)]} ∪ referencedRBIs st
                  = referencedRBIs st).
  { apply subseteq_union_1_L. intros x Hx. apply elem_of_singleton in Hx. subst x.
    exact Hin. }
  rewrite Hsame. destruct (definedInLegacyRBI gs symbol); destruct st; reflexivity.
Qed.

(** [Legacy], defined at the top level in [rbi/legacy.rbi]. *)
Lemma C8_witness :
  isInPackage World.gs World.pkgP World.namespaces World.fuel (classSym 13) (classSym 13)
              initialExporter
  = Ok (false, mkExporter ∅ ∅ ({[1%N]} ∪ ∅) [] initialOutput).
Proof.
  apply (proj1 (C8_unpackaged_symbol_rejected_legacy_rbi_recorded World.gs World.pkgP
                  World.namespaces World.fuel (classSym 13) 1 initialExporter
                  ltac:(split; vm_compute; reflexivity) ltac:(vm_compute; lia))).
Defined.

(** ** Strings *)

Lemma append_cons (c : ascii) (a b : string) : String c a +:+ b = String c (a +:+ b).
Proof. reflexivity. Qed.

Lemma append_nil_l (s : string) : EmptyString +:+ s = s.
Proof. reflexivity. Qed.

Lemma append_nil_r (s : string) : s +:+ EmptyString = s.
Proof.
  induction s as [|c s IH]; [reflexivity |]. rewrite append_cons, IH. reflexivity.
Qed.

Lemma append_assoc (a b c : string) : (a +:+ b) +:+ c = a +:+ (b +:+ c).
Proof.
  induction a as [|x a IH]; [reflexivity |]. rewrite !append_cons, IH. reflexivity.
Qed.

Lemma prefix_append (a b : string) : String.prefix a (a +:+ b) = true.
Proof.
  induction a as [|c a IH].
  - destruct b; reflexivity.
  - rewrite append_cons. simpl.
    destruct (ascii_dec c c) as [_|Hne]; [exact IH | contradiction].
Qed.

Lemma prefix_append_l (a b s : string) :
  String.prefix (a +:+ b) s = true -> String.prefix a s = true.
Proof.
  revert s. induction a as [|c a IH]; intros s H.
  - destruct s; reflexivity.
  - rewrite append_cons in H. destruct s as [|d s]; [discriminate |].
    simpl in *. destruct (ascii_dec c d); [apply IH, H | discriminate].
Qed.




Lemma firstTarget_blank i component rest :
  StripAsciiWhitespace component = EmptyString ->
  firstTarget i (component :: rest) = firstTarget (S i) rest.
Proof. intros H. simpl. rewrite H. simpl. destruct i; reflexivity. Qed.


Lemma firstTarget_no_token i components :
  Forall (fun component => StripAsciiWhitespace component = EmptyString) components ->
  firstTarget i components = None.
Proof.
  intros H. revert i. induction H as [|c rest Hc _ IH]; intros i; [reflexivity |].
  rewrite firstTarget_blank by exact Hc. apply IH.
Qed.



(** ** Claims about delegation *)

Section Delegation.

Context (gs : GlobalState) (pkg : PackageInfo).
Context (pkgNamespaces : gset ClassOrModuleRef) (fuel : nat).





End Delegation.




(** ** Claims about fatal errors *)

Lemma emit_klass_rejected gs pkg pkgNamespaces fuel klass st st' :
  isInPackage gs pkg pkgNamespaces fuel (classSym klass) (classSym klass) st = Ok (false, st') ->
  emit_klass gs pkg pkgNamespaces fuel klass st = Raise "Invalid klass".
Proof. intros H. unfold emit_klass. rewrite (bind_ok _ _ _ _ _ H). reflexivity. Qed.

Lemma emit_klass_unvisited gs pkg pkgNamespaces fuel klass st b st' :
  isInPackage gs pkg pkgNamespaces fuel (classSym klass) (classSym klass) st = Ok (b, st') ->
  classSym klass ∉ emittedSymbols st' ->
  emit_klass gs pkg pkgNamespaces fuel klass st = Raise "Invalid klass".
Proof.
  intros H Hfresh. unfold emit_klass. rewrite (bind_ok _ _ _ _ _ H).
  unfold bind, gets. rewrite bool_decide_eq_false_2 by exact Hfresh.
  destruct b; reflexivity.
Qed.

(** ** Enough fuel: the closure builder returns *)

Section Ends.

Context (gs : GlobalState) (pkg : PackageInfo).
Context (pkgNamespaces : gset ClassOrModuleRef) (fuel : nat).

Lemma maybeEmit_ends symbol st :
  maybeEmitEnds gs pkg pkgNamespaces fuel symbol = true ->
  exists st', maybeEmit gs pkg pkgNamespaces fuel symbol st = Ok (tt, st').
Proof.
  unfold maybeEmitEnds.
  destruct (attachedTarget gs fuel symbol) as [target|] eqn:Htarget; [| discriminate].
  intros Hends. destruct (decide (target ∈ emittedSymbols st)) as [Hin | Hfresh].
  - exists st. eapply maybeEmit_visited; eassumption.
  - rewrite (maybeEmit_unvisited gs pkg pkgNamespaces fuel symbol target st Htarget Hfresh).
    destruct (isInPackage_fuel_ends gs pkg pkgNamespaces fuel target target st Hends)
      as (b & st' & Hrun & _).
    unfold isInPackage. rewrite Hrun. destruct b; eauto.
Qed.

Lemma forEach_ends {A} (l : list A) (body : A -> M unit) st :
  Forall (fun x => forall st, exists st', body x st = Ok (tt, st')) l ->
  exists st', forEach l body st = Ok (tt, st').
Proof.
  intros H. revert st. induction H as [|x l Hx _ IH]; intros st; simpl.
  - exists st. reflexivity.
  - destruct (Hx st) as (st1 & H1). rewrite (bind_ok _ _ _ _ _ H1). apply IH.
Qed.

Lemma showType_ends type st :
  showTypeEnds gs pkg pkgNamespaces fuel type = true ->
  exists st', showType gs pkg pkgNamespaces fuel type st = Ok (shownType gs type, st').
Proof.
  intros Hends. unfold showType, shownType.
  destruct (is_nullptr type); [exists st; reflexivity |].
  destruct (forEach_ends (symbolsInType type) (maybeEmit gs pkg pkgNamespaces fuel) st)
    as (st' & Hrun).
  - unfold showTypeEnds in Hends. apply Forall_forall. intros s Hs st0.
    apply maybeEmit_ends.
    apply (proj1 (forallb_forall _ _) Hends). apply list_elem_of_In, Hs.
  - exists st'. unfold bind. rewrite enqueueSymbolsInType_forEach, Hrun. reflexivity.
Qed.


End Ends.

(** ** Claims about the layout of signatures *)


(** *** The layouts are those of the code *)
















(** ** Claims about struct properties *)

Section StructProps.

Context (gs : GlobalState) (pkg : PackageInfo).
Context (pkgNamespaces : gset ClassOrModuleRef) (fuel : nat).

(** [remove_if] keeps the methods that are neither the getter nor the
    setter, and clears [isConst] when it meets a setter. *)
Lemma removePropMethods_spec methods name isConst :
  removePropMethods gs methods name isConst
  = (List.filter (fun method => negb (isAccessorOf gs [name] method)) methods,
     isConst && negb (hasSetter gs methods name)).
Proof.
  revert isConst. induction methods as [|method rest IH]; intros isConst.
  - simpl. rewrite andb_true_r. reflexivity.
  - cbn [removePropMethods List.filter hasSetter existsb isAccessorOf].
    destruct (N.eqb (me_name (methodData gs method)) (lookupWithEq gs name)) eqn:Eset.
    + rewrite IH. cbn. rewrite andb_false_r. reflexivity.
    + destruct (N.eqb (me_name (methodData gs method)) name) eqn:Eget.
      * rewrite IH. cbn. reflexivity.
      * rewrite IH. cbn. reflexivity.
Qed.

Lemma removePropField_spec fields name :
  removePropField gs fields name
  = List.filter (fun field => negb (isBackingFieldOf gs [name] field)) fields.
Proof.
  unfold removePropField. apply List.filter_ext. intros field. cbn.
  rewrite orb_false_r. reflexivity.
Qed.

Lemma isAccessorOf_app names1 names2 method :
  isAccessorOf gs (names1 ++ names2) method
  = isAccessorOf gs names1 method || isAccessorOf gs names2 method.
Proof. unfold isAccessorOf. apply existsb_app. Qed.

Lemma isBackingFieldOf_app names1 names2 field :
  isBackingFieldOf gs (names1 ++ names2) field
  = isBackingFieldOf gs names1 field || isBackingFieldOf gs names2 field.
Proof. unfold isBackingFieldOf. apply existsb_app. Qed.

Lemma filter_filter {A} (f g : A -> bool) (l : list A) :
  List.filter f (List.filter g l) = List.filter (fun x => g x && f x) l.
Proof.
  induction l as [|x l IH]; [reflexivity |]. simpl.
  destruct (g x); simpl; [destruct (f x) |]; rewrite IH; reflexivity.
Qed.

Lemma filter_all {A} (l : list A) : List.filter (fun _ => true) l = l.
Proof. induction l as [|x l IH]; [reflexivity |]. simpl. rewrite IH. reflexivity. Qed.

Lemma filter_accessors seen name methods :
  List.filter (fun method => negb (isAccessorOf gs [name] method))
              (List.filter (fun method => negb (isAccessorOf gs seen method)) methods)
  = List.filter (fun method => negb (isAccessorOf gs (seen ++ [name]) method)) methods.
Proof.
  rewrite filter_filter. apply List.filter_ext. intros method.
  rewrite isAccessorOf_app, negb_orb. reflexivity.
Qed.

Lemma filter_backing seen name fields :
  List.filter (fun field => negb (isBackingFieldOf gs [name] field))
              (List.filter (fun field => negb (isBackingFieldOf gs seen field)) fields)
  = List.filter (fun field => negb (isBackingFieldOf gs (seen ++ [name]) field)) fields.
Proof.
  rewrite filter_filter. apply List.filter_ext. intros field.
  rewrite isBackingFieldOf_app, negb_orb. reflexivity.
Qed.

(** Removing the accessors of other properties does not remove the setter
    of this one. *)
Lemma hasSetter_filter methods seen name :
  setterApart gs methods seen name = true ->
  hasSetter gs (List.filter (fun method => negb (isAccessorOf gs seen method)) methods) name
  = hasSetter gs methods name.
Proof.
  unfold setterApart, hasSetter. induction methods as [|method rest IH]; intros H;
    [reflexivity |].
  simpl in H. apply andb_prop in H as [Hm Hrest]. simpl.
  destruct (N.eqb (me_name (methodData gs method)) (lookupWithEq gs name)) eqn:Eset.
  - simpl in Hm. apply negb_true_iff in Hm. rewrite Hm. simpl. rewrite Eset. reflexivity.
  - destruct (negb (isAccessorOf gs seen method)); simpl; [rewrite Eset |]; simpl;
      apply IH, Hrest.
Qed.

(** The loop, with the accessors of the properties [seen] so far removed:
    it prints the remaining properties, each [const] unless the class has
    its setter, and removes their accessors and backing fields too. *)
Lemma structPropsLoop_spec methods fields arguments seen st :
  propsApart gs methods seen (map arg_name (keywordsOf arguments)) = true ->
  structPropsLoop gs pkg pkgNamespaces fuel arguments
    (List.filter (fun method => negb (isAccessorOf gs seen method)) methods)
    (List.filter (fun field => negb (isBackingFieldOf gs seen field)) fields) st
  = (forEach (keywordsOf arguments) (fun arg =>
       emitProp gs pkg pkgNamespaces fuel (arg_name arg) (arg_type arg)
                (negb (hasSetter gs methods (arg_name arg)))
                (af_isDefault (arg_flags arg))) >>
     ret (List.filter (fun method =>
                         negb (isAccessorOf gs (seen ++ map arg_name (keywordsOf arguments))
                                            method)) methods,
          List.filter (fun field =>
                         negb (isBackingFieldOf gs (seen ++ map arg_name (keywordsOf arguments))
                                                field)) fields)) st.
Proof.
  revert seen st. induction arguments as [|arg rest IH]; intros seen st Hapart.
  - simpl. rewrite app_nil_r. reflexivity.
  - cbn [structPropsLoop keywordsOf List.filter] in Hapart |- *.
    destruct (arg_isSyntheticBlockArgument arg || negb (af_isKeyword (arg_flags arg))).
    + cbn [negb] in Hapart |- *. apply IH, Hapart.
    + cbn [negb map propsApart] in Hapart |- *.
      apply andb_prop in Hapart as [Hsetter Hapart].
      rewrite removePropMethods_spec, removePropField_spec.
      rewrite (hasSetter_filter methods seen (arg_name arg) Hsetter).
      rewrite filter_accessors, filter_backing. cbn [andb forEach].
      rewrite bind_assoc. apply bind_ext; [reflexivity |]. intros _ st1.
      rewrite (IH (seen ++ [arg_name arg])%list st1 Hapart).
      cbn [map]. rewrite <- !app_assoc. reflexivity.
Qed.

Lemma showType_keeps_out type st shown st' :
  showType gs pkg pkgNamespaces fuel type st = Ok (shown, st') -> out st' = out st.
Proof.
  intros H.
  refine (showType_preserves gs pkg pkgNamespaces fuel (fun s => out s = out st) _ _ _
            type st shown st' H eq_refl); intros; assumption.
Qed.

(** [emitProp] prints the one line of the property. *)
Lemma emitProp_line name type isConst hasDefault st :
  showTypeEnds gs pkg pkgNamespaces fuel type = true ->
  exists st',
    emitProp gs pkg pkgNamespaces fuel name type isConst hasDefault st = Ok (tt, st')
    /\ out st' = Output_printlnf (propLine gs name (shownType gs type) isConst hasDefault)
                                 (out st).
Proof.
  intros Hends. unfold emitProp.
  destruct (showType_ends gs pkg pkgNamespaces fuel type st Hends) as (st1 & H1).
  rewrite (bind_ok _ _ _ _ _ H1). pose proof (showType_keeps_out _ _ _ _ H1) as Hout1.
  destruct hasDefault.
  - destruct (showType_ends gs pkg pkgNamespaces fuel type st1 Hends) as (st2 & H2).
    pose proof (showType_keeps_out _ _ _ _ H2) as Hout2.
    rewrite bind_assoc, (bind_ok _ _ _ _ _ H2).
    eexists. split; [reflexivity |]. simpl. rewrite Hout2, Hout1. reflexivity.
  - eexists. split; [reflexivity |]. simpl. rewrite Hout1. reflexivity.
Qed.

End StructProps.

(** ** Claims about exports *)

Section Exports.

Context (gs : GlobalState) (pkg : PackageInfo).
Context (pkgNamespaces : gset ClassOrModuleRef) (fuel : nat).

(** An export that does not resolve leaves the two lists as they are. *)
Lemma splitExports_skip e before after exports testExports :
  symbol_exists (lookupFQN gs e) = false ->
  splitExports gs pkg pkgNamespaces fuel (before ++ e :: after) exports testExports
  = splitExports gs pkg pkgNamespaces fuel (before ++ after) exports testExports.
Proof.
  intros Hmissing. revert exports testExports.
  induction before as [|x before IH]; intros exports testExports; simpl.
  - rewrite Hmissing. reflexivity.
  - destruct (symbol_exists (lookupFQN gs x)); [| apply IH].
    destruct (isInTestPackage gs pkg pkgNamespaces fuel (lookupFQN gs x)) as [[]| |];
      try reflexivity; apply IH.
Qed.

Lemma resolveTestExports_skip e before after testExports :
  symbol_exists (lookupFQN gs e) = false ->
  resolveTestExports gs (before ++ e :: after) testExports
  = resolveTestExports gs (before ++ after) testExports.
Proof.
  intros Hmissing. revert testExports.
  induction before as [|x before IH]; intros testExports; simpl.
  - rewrite Hmissing. reflexivity.
  - destruct (symbol_exists (lookupFQN gs x)); apply IH.
Qed.

(** The loop over the raw exports files every export that resolves under
    the namespace that owns its symbol. *)
Lemma splitExports_spec rawExports exports0 testExports0 exports testExports :
  splitExports gs pkg pkgNamespaces fuel rawExports exports0 testExports0
  = Ok (exports, testExports) ->
  exports
  = (exports0 ++ map (lookupFQN gs)
                     (List.filter (productionExport gs pkg pkgNamespaces fuel) rawExports))%list
  /\ testExports
     = (testExports0 ++ map (lookupFQN gs)
                            (List.filter (ownedByTestNamespace gs pkg pkgNamespaces fuel)
                                         rawExports))%list.
Proof.
  revert exports0 testExports0.
  induction rawExports as [|e rest IH]; intros exports0 testExports0 H; simpl in H.
  - inversion H; subst. simpl. rewrite !app_nil_r. split; reflexivity.
  - cbn [List.filter].
    destruct (symbol_exists (lookupFQN gs e)) eqn:Hexists.
    + destruct (isInTestPackage gs pkg pkgNamespaces fuel (lookupFQN gs e))
        as [[]| |] eqn:Htest; try discriminate H.
      * assert (Hown : ownedByTestNamespace gs pkg pkgNamespaces fuel e = true)
          by (unfold ownedByTestNamespace; rewrite Hexists, Htest; reflexivity).
        assert (Hprod : productionExport gs pkg pkgNamespaces fuel e = false)
          by (unfold productionExport; rewrite Hexists, Hown; reflexivity).
        rewrite Hown, Hprod. apply IH in H as [-> ->]. cbn [map].
        rewrite <- !app_assoc. split; reflexivity.
      * assert (Hown : ownedByTestNamespace gs pkg pkgNamespaces fuel e = false)
          by (unfold ownedByTestNamespace; rewrite Hexists, Htest; reflexivity).
        assert (Hprod : productionExport gs pkg pkgNamespaces fuel e = true)
          by (unfold productionExport; rewrite Hexists, Hown; reflexivity).
        rewrite Hown, Hprod. apply IH in H as [-> ->]. cbn [map].
        rewrite <- !app_assoc. split; reflexivity.
    + assert (Hown : ownedByTestNamespace gs pkg pkgNamespaces fuel e = false)
        by (unfold ownedByTestNamespace; rewrite Hexists; reflexivity).
      assert (Hprod : productionExport gs pkg pkgNamespaces fuel e = false)
        by (unfold productionExport; rewrite Hexists; reflexivity).
      rewrite Hown, Hprod. apply IH, H.
Qed.

(** Without the exports owned by the test namespace the loop gives the same
    production exports, and adds no test export. *)
Lemma splitExports_production rawExports exports0 testExports0 exports testExports :
  splitExports gs pkg pkgNamespaces fuel rawExports exports0 testExports0
  = Ok (exports, testExports) ->
  forall testExports1,
    splitExports gs pkg pkgNamespaces fuel
      (List.filter (fun e => negb (ownedByTestNamespace gs pkg pkgNamespaces fuel e))
                   rawExports)
      exports0 testExports1
    = Ok (exports, testExports1).
Proof.
  revert exports0 testExports0.
  induction rawExports as [|e rest IH]; intros exports0 testExports0 H testExports1;
    simpl in H.
  - inversion H; subst. reflexivity.
  - cbn [List.filter]. unfold ownedByTestNamespace at 1.
    destruct (symbol_exists (lookupFQN gs e)) eqn:Hexists.
    + destruct (isInTestPackage gs pkg pkgNamespaces fuel (lookupFQN gs e))
        as [[]| |] eqn:Htest; try discriminate H; cbn [andb negb].
      * eapply IH, H.
      * simpl. rewrite Hexists, Htest. eapply IH, H.
    + cbn [andb negb]. simpl. rewrite Hexists. eapply IH, H.
Qed.

End Exports.

(** C6: an export name-path that does not resolve to an existing symbol is
    skipped: the run of the package is the run of the package without that
    entry, whether the entry is among the exports or among the test
    exports -- the same stubs, the same manifests, and an error only if the
    run without the entry has one. *)
Theorem C6_unresolved_export_skipped
    gs pkgNamespaces fuel fullName mangledName e before after others :
  symbol_exists (lookupFQN gs e) = false ->
  runOnce gs (mkPackageInfo fullName mangledName (before ++ e :: after) others)
          pkgNamespaces fuel
  = runOnce gs (mkPackageInfo fullName mangledName (before ++ after) others)
            pkgNamespaces fuel
  /\ runOnce gs (mkPackageInfo fullName mangledName others (before ++ e :: after))
             pkgNamespaces fuel
     = runOnce gs (mkPackageInfo fullName mangledName others (before ++ after))
               pkgNamespaces fuel.
Proof.
  intros Hmissing. split; unfold runOnce.
  - assert (Hsame :
      emit gs (mkPackageInfo fullName mangledName (before ++ e :: after) others)
           pkgNamespaces fuel initialExporter
      = emit gs (mkPackageInfo fullName mangledName (before ++ after) others)
             pkgNamespaces fuel initialExporter).
    { unfold emit. cbn [exports testExports].
      rewrite (splitExports_skip gs _ pkgNamespaces fuel e before after [] [] Hmissing).
      reflexivity. }
    rewrite Hsame. reflexivity.
  - assert (Hsame :
      emit gs (mkPackageInfo fullName mangledName others (before ++ e :: after))
           pkgNamespaces fuel initialExporter
      = emit gs (mkPackageInfo fullName mangledName others (before ++ after))
             pkgNamespaces fuel initialExporter).
    { unfold emit. cbn [exports testExports].
      apply bind_ext; [reflexivity |]. intros [exports1 testExports1] st1.
      rewrite (resolveTestExports_skip gs e before after testExports1 Hmissing).
      reflexivity. }
    rewrite Hsame. reflexivity.
Qed.

(** Package [P] declares the export [P::Missing], which does not exist. *)
Lemma C6_witness :
  runOnce World.gs World.pkgP_missing World.namespaces World.fuel
  = runOnce World.gs World.pkgP_present World.namespaces World.fuel.
Proof.
  apply (proj1 (C6_unresolved_export_skipped World.gs World.namespaces World.fuel
                  [1%N] 38%N [1; 37]%N [[1; 3]%N] [] [] ltac:(vm_compute; reflexivity))).
Defined.

(** What [emit] does, in its three steps. *)
Lemma emit_inv gs pkg pkgNamespaces fuel st output st' :
  emit gs pkg pkgNamespaces fuel st = Ok (output, st') ->
  exists roots testRoots stub deps st1 testStub testDeps,
    splitExports gs pkg pkgNamespaces fuel (exports pkg) [] [] = Ok (roots, testRoots)
    /\ productionPass gs pkg pkgNamespaces fuel roots st = Ok ((stub, deps), st1)
    /\ testPass gs pkg pkgNamespaces fuel
                (resolveTestExports gs (testExports pkg) testRoots) st1
       = Ok ((testStub, testDeps), st')
    /\ output
       = mkRBIOutput (n_show (nameData gs (mangledName pkg))) stub deps testStub testDeps.
Proof.
  intros H. unfold emit in H.
  apply bind_inv in H as ([roots testRoots] & st0 & Hsplit & H).
  unfold liftResult in Hsplit.
  destruct (splitExports gs pkg pkgNamespaces fuel (exports pkg) [] [])
    as [[roots' testRoots']| |] eqn:Esplit; try discriminate Hsplit.
  inversion Hsplit; subst roots' testRoots' st0. clear Hsplit.
  apply bind_inv in H as ([stub deps] & st1 & Hprod & H).
  apply bind_inv in H as ([testStub testDeps] & st2 & Htest & H).
  inversion H; subst. exists roots, testRoots, stub, deps, st1, testStub, testDeps.
  repeat split; assumption.
Qed.

Section TestWalk.

Context (gs : GlobalState) (pkg : PackageInfo).
Context (pkgNamespaces : gset ClassOrModuleRef).

Lemma reachesTestNamespace_stop sym k :
  walkContinues gs pkg pkgNamespaces sym = false ->
  reachesTestNamespace gs pkg pkgNamespaces sym k ->
  k = 0%nat.
Proof.
  intros Hstop (Hpass & _). destruct k as [|k]; [reflexivity |].
  simpl in Hpass. rewrite Hstop in Hpass. discriminate Hpass.
Qed.

(** The walk for the test namespace answers yes exactly when the owner
    chain first meets the test namespace, within the budget. *)
Lemma isInTestPackage_fuel_true n sym :
  isInTestPackage_fuel gs pkg pkgNamespaces n sym = Ok true
  <-> exists k, (k <= n)%nat /\ reachesTestNamespace gs pkg pkgNamespaces sym k.
Proof.
  revert sym. induction n as [|n IH]; intros sym; simpl.
  all: destruct (isRootOrRegistry gs sym) eqn:Hroot.
  all: try (split; [discriminate |]; intros (k & _ & Hreach);
            assert (Hstop : walkContinues gs pkg pkgNamespaces sym = false)
              by (unfold walkContinues; rewrite Hroot; reflexivity);
            pose proof (reachesTestNamespace_stop sym k Hstop Hreach) as ->;
            destruct Hreach as (_ & Hr & _); simpl in Hr; congruence).
  all: destruct (bool_decide (sym = classSym (pkgNamespace gs pkg))) eqn:Hprod.
  all: try (split; [discriminate |]; intros (k & _ & Hreach);
            assert (Hstop : walkContinues gs pkg pkgNamespaces sym = false)
              by (unfold walkContinues, isOwnNamespace; rewrite Hroot, Hprod; reflexivity);
            pose proof (reachesTestNamespace_stop sym k Hstop Hreach) as ->;
            destruct Hreach as (_ & _ & Hne & _); simpl in Hne;
            apply bool_decide_eq_true in Hprod; contradiction).
  all: destruct (bool_decide (sym = classSym (pkgTestNamespace gs pkg))) eqn:Htest.
  all: try (split; [| reflexivity]; intros _; exists 0%nat; split; [lia |];
            apply bool_decide_eq_true in Htest; apply bool_decide_eq_false in Hprod;
            split; [reflexivity |]; split; [exact Hroot |]; split; assumption).
  all: destruct (isPackageNamespace pkgNamespaces sym) eqn:Hns.
  all: try (split; [discriminate |]; intros (k & _ & Hreach);
            assert (Hstop : walkContinues gs pkg pkgNamespaces sym = false)
              by (unfold walkContinues, isOwnNamespace; rewrite Hroot, Hprod, Htest, Hns;
                  reflexivity);
            pose proof (reachesTestNamespace_stop sym k Hstop Hreach) as ->;
            destruct Hreach as (_ & _ & _ & Heq); simpl in Heq;
            apply bool_decide_eq_false in Htest; contradiction).
  all: assert (Hcont : walkContinues gs pkg pkgNamespaces sym = true)
    by (unfold walkContinues, isOwnNamespace; rewrite Hroot, Hprod, Htest, Hns; reflexivity).
  - split; [discriminate |]. intros (k & Hk & Hreach).
    assert (k = 0%nat) as -> by lia.
    destruct Hreach as (_ & _ & _ & Heq). simpl in Heq.
    apply bool_decide_eq_false in Htest. contradiction.
  - rewrite IH. split.
    + intros (k & Hk & Hpass & Hrest). exists (S k). split; [lia |].
      split; [simpl; rewrite Hcont, Hpass; reflexivity | exact Hrest].
    + intros (k & Hk & Hpass & Hrest). destruct k as [|k].
      * destruct Hrest as (_ & _ & Heq). simpl in Heq.
        apply bool_decide_eq_false in Htest. contradiction.
      * exists k. split; [lia |]. simpl in Hpass. rewrite Hcont in Hpass.
        split; [exact Hpass | exact Hrest].
Qed.

(** When it answers no, the owner chain does not first meet the test
    namespace, however far up. *)
Lemma isInTestPackage_fuel_false n sym k :
  isInTestPackage_fuel gs pkg pkgNamespaces n sym = Ok false ->
  ~ reachesTestNamespace gs pkg pkgNamespaces sym k.
Proof.
  revert sym k. induction n as [|n IH]; intros sym k; simpl.
  all: destruct (isRootOrRegistry gs sym) eqn:Hroot.
  all: try (intros _ Hreach;
            assert (Hstop : walkContinues gs pkg pkgNamespaces sym = false)
              by (unfold walkContinues; rewrite Hroot; reflexivity);
            pose proof (reachesTestNamespace_stop sym k Hstop Hreach) as ->;
            destruct Hreach as (_ & Hr & _); simpl in Hr; congruence).
  all: destruct (bool_decide (sym = classSym (pkgNamespace gs pkg))) eqn:Hprod.
  all: try (intros _ Hreach;
            assert (Hstop : walkContinues gs pkg pkgNamespaces sym = false)
              by (unfold walkContinues, isOwnNamespace; rewrite Hroot, Hprod; reflexivity);
            pose proof (reachesTestNamespace_stop sym k Hstop Hreach) as ->;
            destruct Hreach as (_ & _ & Hne & _); simpl in Hne;
            apply bool_decide_eq_true in Hprod; contradiction).
  all: destruct (bool_decide (sym = classSym (pkgTestNamespace gs pkg))) eqn:Htest;
    try discriminate.
  all: destruct (isPackageNamespace pkgNamespaces sym) eqn:Hns.
  all: try (intros _ Hreach;
            assert (Hstop : walkContinues gs pkg pkgNamespaces sym = false)
              by (unfold walkContinues, isOwnNamespace; rewrite Hroot, Hprod, Htest, Hns;
                  reflexivity);
            pose proof (reachesTestNamespace_stop sym k Hstop Hreach) as ->;
            destruct Hreach as (_ & _ & _ & Heq); simpl in Heq;
            apply bool_decide_eq_false in Htest; contradiction).
  all: assert (Hcont : walkContinues gs pkg pkgNamespaces sym = true)
    by (unfold walkContinues, isOwnNamespace; rewrite Hroot, Hprod, Htest, Hns; reflexivity).
  - discriminate.
  - intros Hwalk (Hpass & Hrest). destruct k as [|k].
    + destruct Hrest as (_ & _ & Heq). simpl in Heq.
      apply bool_decide_eq_false in Htest. contradiction.
    + simpl in Hpass. rewrite Hcont in Hpass.
      apply (IH (SymbolRef_owner gs sym) k Hwalk). split; [exact Hpass | exact Hrest].
Qed.

(** A loop over the raw exports that returns has filed every export that
    resolves. *)
Lemma splitExports_walks fuel rawExports exports0 testExports0 result e :
  splitExports gs pkg pkgNamespaces fuel rawExports exports0 testExports0 = Ok result ->
  e ∈ rawExports ->
  symbol_exists (lookupFQN gs e) = true ->
  exists b, isInTestPackage gs pkg pkgNamespaces fuel (lookupFQN gs e) = Ok b.
Proof.
  revert exports0 testExports0.
  induction rawExports as [|x rest IH]; intros exports0 testExports0 Hrun Hin Hexists.
  - inversion Hin.
  - simpl in Hrun. apply elem_of_cons in Hin as [-> | Hin].
    + rewrite Hexists in Hrun.
      destruct (isInTestPackage gs pkg pkgNamespaces fuel (lookupFQN gs x)) as [b| |];
        try discriminate Hrun.
      exists b. reflexivity.
    + destruct (symbol_exists (lookupFQN gs x)); [| exact (IH _ _ Hrun Hin Hexists)].
      destruct (isInTestPackage gs pkg pkgNamespaces fuel (lookupFQN gs x)) as [[]| |];
        try discriminate Hrun; exact (IH _ _ Hrun Hin Hexists).
Qed.

End TestWalk.

(** C9, as amended: an export that resolves to a symbol owned by the test
    namespace -- its owner chain first meets the test namespace of the
    package -- is filed under the test exports and is no root of the
    production pass, and no root of the production pass is owned by the
    test namespace: the production stub and manifest of the package are
    those of the package without such exports and without test exports, so
    they are complete before any test export is enqueued. (A symbol of the
    test namespace that the production closure reaches is rendered in the
    production stub all the same: the ownership walk accepts both
    namespaces.) *)
Theorem C9_test_exports_are_no_production_roots
    gs pkgNamespaces fuel fullName mangledName rawExports rawTestExports output :
  runOnce gs (mkPackageInfo fullName mangledName rawExports rawTestExports)
          pkgNamespaces fuel = Ok output ->
  (exists roots testRoots,
     splitExports gs (mkPackageInfo fullName mangledName rawExports rawTestExports)
                  pkgNamespaces fuel rawExports [] [] = Ok (roots, testRoots)
     /\ roots
        = map (lookupFQN gs)
              (List.filter
                 (productionExport gs (mkPackageInfo fullName mangledName rawExports
                                                     rawTestExports) pkgNamespaces fuel)
                 rawExports)
     /\ testRoots
        = map (lookupFQN gs)
              (List.filter
                 (ownedByTestNamespace gs (mkPackageInfo fullName mangledName rawExports
                                                         rawTestExports) pkgNamespaces fuel)
                 rawExports))
  /\ (exists output',
        runOnce gs
          (mkPackageInfo fullName mangledName
             (List.filter
                (fun e => negb (ownedByTestNamespace gs
                                  (mkPackageInfo fullName mangledName rawExports rawTestExports)
                                  pkgNamespaces fuel e))
                rawExports) [])
          pkgNamespaces fuel = Ok output'
        /\ rbi output' = rbi output
        /\ rbiPackageDependencies output' = rbiPackageDependencies output)
  /\ (forall e,
        ownedByTestNamespace gs (mkPackageInfo fullName mangledName rawExports rawTestExports)
                             pkgNamespaces fuel e = true
        <-> symbol_exists (lookupFQN gs e) = true
            /\ exists k,
                 (k <= fuel)%nat
                 /\ reachesTestNamespace gs
                      (mkPackageInfo fullName mangledName rawExports rawTestExports)
                      pkgNamespaces (lookupFQN gs e) k)
  /\ (forall e k,
        e ∈ rawExports ->
        productionExport gs (mkPackageInfo fullName mangledName rawExports rawTestExports)
                         pkgNamespaces fuel e = true ->
        ~ reachesTestNamespace gs
            (mkPackageInfo fullName mangledName rawExports rawTestExports)
            pkgNamespaces (lookupFQN gs e) k).
Proof.
  intros Hrun. unfold runOnce in Hrun.
  destruct (emit gs _ pkgNamespaces fuel initialExporter) as [[out0 st']| |] eqn:Hemit;
    try discriminate Hrun.
  inversion Hrun; subst out0. clear Hrun.
  apply emit_inv in Hemit
    as (roots & testRoots & stub & deps & st1 & testStub & testDeps
        & Hsplit & Hprod & Htest & ->).
  cbn [exports testExports] in *.
  split; [| split; [| split]].
  - exists roots, testRoots. split; [exact Hsplit |].
    apply splitExports_spec in Hsplit as [-> ->]. split; reflexivity.
  - pose proof (splitExports_production gs _ pkgNamespaces fuel _ _ _ _ _ Hsplit [])
      as Hsplit'.
    eexists. split.
    + unfold runOnce, emit. cbn [exports testExports].
      change (splitExports gs
                (mkPackageInfo fullName mangledName
                   (List.filter
                      (fun e => negb (ownedByTestNamespace gs
                                        (mkPackageInfo fullName mangledName rawExports
                                                       rawTestExports) pkgNamespaces fuel e))
                      rawExports) []) pkgNamespaces fuel)
        with (splitExports gs (mkPackageInfo fullName mangledName rawExports rawTestExports)
                           pkgNamespaces fuel).
      unfold bind at 1. unfold liftResult at 1. rewrite Hsplit'.
      change (productionPass gs
                (mkPackageInfo fullName mangledName
                   (List.filter
                      (fun e => negb (ownedByTestNamespace gs
                                        (mkPackageInfo fullName mangledName rawExports
                                                       rawTestExports) pkgNamespaces fuel e))
                      rawExports) []) pkgNamespaces fuel)
        with (productionPass gs (mkPackageInfo fullName mangledName rawExports rawTestExports)
                             pkgNamespaces fuel).
      rewrite (bind_ok _ _ _ _ _ Hprod). reflexivity.
    + split; reflexivity.
  - intros e. unfold ownedByTestNamespace, isInTestPackage.
    rewrite <- isInTestPackage_fuel_true.
    destruct (symbol_exists (lookupFQN gs e)); cbn [andb].
    + destruct (isInTestPackage_fuel gs _ pkgNamespaces fuel (lookupFQN gs e)) as [[]| |].
      * split; [intros _; split; reflexivity | reflexivity].
      * split; [discriminate | intros [_ H]; discriminate H].
      * split; [discriminate | intros [_ H]; discriminate H].
      * split; [discriminate | intros [_ H]; discriminate H].
    + split; [discriminate | intros [H _]; discriminate H].
  - intros e k Hin Hproduction.
    unfold productionExport in Hproduction.
    apply andb_prop in Hproduction as [Hexists Hnot]. apply negb_true_iff in Hnot.
    destruct (splitExports_walks gs _ pkgNamespaces fuel _ _ _ _ e Hsplit Hin Hexists)
      as [b Hwalk].
    unfold ownedByTestNamespace in Hnot. rewrite Hexists, Hwalk in Hnot. cbn [andb] in Hnot.
    destruct b; [discriminate Hnot |].
    apply (isInTestPackage_fuel_false gs _ pkgNamespaces fuel _ k Hwalk).
Qed.

(** Package [P], whose export [Test::P::T] is owned by its test namespace:
    its owner chain meets [Test::P] one link up. *)
Lemma C9_witness :
  exists output output',
    runOnce World.gs World.pkgP World.namespaces World.fuel = Ok output
    /\ runOnce World.gs
         (mkPackageInfo [1%N] 38
            (List.filter
               (fun e => negb (ownedByTestNamespace World.gs World.pkgP World.namespaces
                                                    World.fuel e))
               (exports World.pkgP)) [])
         World.namespaces World.fuel = Ok output'
    /\ rbi output' = rbi output
    /\ rbiPackageDependencies output' = rbiPackageDependencies output
    /\ ownedByTestNamespace World.gs World.pkgP World.namespaces World.fuel [2; 1; 4]%N = true.
Proof.
  eexists.
  destruct (C9_test_exports_are_no_production_roots World.gs World.namespaces World.fuel
              [1%N] 38%N (exports World.pkgP) (testExports World.pkgP) _
              ltac:(vm_compute; reflexivity))
    as (_ & (output' & Hrun & Hrbi & Hdeps) & Howned & _).
  exists output'. split; [vm_compute; reflexivity |].
  split; [exact Hrun |]. split; [exact Hrbi |]. split; [exact Hdeps |].
  apply Howned. split; [reflexivity |]. exists 1%nat. split; [vm_compute; lia |].
  split; [vm_compute; reflexivity |]. split; [vm_compute; reflexivity |].
  split; [vm_compute; discriminate | vm_compute; reflexivity].
Defined.

(** C9, as stated, fails when the production closure reaches a symbol of the
    test namespace: package [P] exports [P::A] and [Test::P::T]; the latter
    is owned by the test namespace (its owner is [Test::P]) and filed under
    the test exports, but it is the superclass of [P::A], so it is rendered
    in the production stub -- and, being marked by then, not in the test
    stub, which stays empty. *)
Lemma C9_counterexample :
  reachesTestNamespace World.gs World.pkgP World.namespaces (lookupFQN World.gs [2; 1; 4]%N) 1
  /\ ownedByTestNamespace World.gs World.pkgP World.namespaces World.fuel [2; 1; 4]%N = true
  /\ splitExports World.gs World.pkgP World.namespaces World.fuel (exports World.pkgP) [] []
     = Ok ([classSym 5], [classSym 6])
  /\ exists output,
       runOnce World.gs World.pkgP World.namespaces World.fuel = Ok output
       /\ rbi output
          = typedHeader +:+ "class P::A < Test::P::T" +:+ newline
            +:+ "  include Q::B" +:+ newline
            +:+ "end" +:+ newline
            +:+ "class Test::P::T" +:+ newline
            +:+ "end" +:+ newline
       /\ testRBI output = EmptyString.
Proof.
  split.
  { split; [vm_compute; reflexivity |]. split; [vm_compute; reflexivity |].
    split; [vm_compute; discriminate | vm_compute; reflexivity]. }
  split; [vm_compute; reflexivity |]. split; [vm_compute; reflexivity |].
  eexists. split; [vm_compute; reflexivity |]. split; vm_compute; reflexivity.
Qed.

(** ** Claims about the manifests *)

Section Manifests.

Context (gs : GlobalState) (pkg : PackageInfo).
Context (pkgNamespaces : gset ClassOrModuleRef) (fuel : nat).

Lemma accumulated_manifest st0 st : accumulated st0 st -> manifestIncluded gs st0 st.
Proof.
  intros [Hpackages Hrbis]. split; intros ref Href.
  - unfold packageRefs in *. apply list_elem_of_In in Href. apply list_elem_of_In.
    apply in_map_iff in Href as ([package blame] & <- & Hin).
    apply list_elem_of_In, elem_of_map_to_list in Hin.
    destruct (Hpackages package) as [blame' Hblame']; [eauto |].
    apply in_map_iff. exists (package, blame'). split; [reflexivity |].
    apply list_elem_of_In, elem_of_map_to_list. exact Hblame'.
  - unfold rbiRefs in *. apply list_elem_of_In in Href. apply list_elem_of_In.
    apply in_map_iff in Href as (file & <- & Hin).
    apply in_map_iff. exists file. split; [reflexivity |].
    apply list_elem_of_In, elem_of_elements.
    apply list_elem_of_In, elem_of_elements in Hin. apply Hrbis, Hin.
Qed.

(** Nothing the test pass does takes a reference out of the accumulators. *)
Lemma testPass_accumulates testRoots st result st' :
  testPass gs pkg pkgNamespaces fuel testRoots st = Ok (result, st') -> accumulated st st'.
Proof.
  intros H.
  refine (testPass_preserves gs pkg pkgNamespaces fuel (accumulated st) _ _ _ _ _ _
            testRoots st result st' H _).
  - intros s package blame [Hp Hr]. split; [| exact Hr]. simpl. intros k Hk.
    destruct (decide (package = k)) as [-> | Hne].
    + rewrite lookup_insert_eq. eauto.
    + rewrite lookup_insert_ne by exact Hne. apply Hp, Hk.
  - intros s file [Hp Hr]. split; [exact Hp |]. simpl. set_solver.
  - intros s sym _ Hs. exact Hs.
  - intros s sym Hs. exact Hs.
  - intros s o Hs. exact Hs.
  - intros s Hs. exact Hs.
  - split; [intros k Hk; exact Hk | reflexivity].
Qed.

Lemma Output_toString_inv st text st' :
  Output_toString st = Ok (text, st') ->
  text = out_buf (out st)
  /\ referencedPackages st' = referencedPackages st
  /\ referencedRBIs st' = referencedRBIs st.
Proof. intros H. inversion H; subst. repeat split. Qed.

(** A production stub is the header and the text rendered, and comes with
    the manifest of the accumulators as they stand. *)
Lemma productionPass_inv roots st stub deps st1 :
  productionPass gs pkg pkgNamespaces fuel roots st = Ok ((stub, deps), st1) ->
  stub <> EmptyString ->
  deps = dependenciesText gs st1.
Proof.
  unfold productionPass. intros H Hstub.
  destruct (negb (bool_decide (roots = []))).
  - apply bind_inv in H as (? & sa & _ & H). apply bind_inv in H as (? & sb & _ & H).
    apply bind_inv in H as (text & sc & _ & H).
    unfold dependencies in H. inversion H; subst. reflexivity.
  - inversion H; subst. contradiction.
Qed.

(** A test stub is produced only from text, and then with the manifest of
    the accumulators as they stand. *)
Lemma testPass_inv testRoots st stub deps st2 :
  testPass gs pkg pkgNamespaces fuel testRoots st = Ok ((stub, deps), st2) ->
  stub <> EmptyString ->
  deps = dependenciesText gs st2.
Proof.
  unfold testPass. intros H Hstub.
  destruct (negb (bool_decide (testRoots = []))).
  - apply bind_inv in H as (? & sa & _ & H). apply bind_inv in H as (? & sb & _ & H).
    apply bind_inv in H as (text & sc & _ & H).
    destruct (negb (string_empty text)).
    + unfold dependencies in H. inversion H; subst. reflexivity.
    + inversion H; subst. contradiction.
  - inversion H; subst. contradiction.
Qed.

End Manifests.

(** C10, as amended: when a run produces both a production stub and a test
    stub (the latter takes test exports that render some text), the test
    manifest holds every package reference and every RBI reference of the
    production manifest: the manifests are those of the accumulators after
    the production pass and after the test pass, and the test pass only
    adds to them. *)
Theorem C10_test_manifest_includes_production_manifest
    gs pkg pkgNamespaces fuel output :
  runOnce gs pkg pkgNamespaces fuel = Ok output ->
  rbi output <> EmptyString ->
  testRBI output <> EmptyString ->
  exists st1 st2,
    rbiPackageDependencies output = dependenciesText gs st1
    /\ testRBIPackageDependencies output = dependenciesText gs st2
    /\ manifestIncluded gs st1 st2.
Proof.
  intros Hrun Hstub Htest. unfold runOnce in Hrun.
  destruct (emit gs pkg pkgNamespaces fuel initialExporter) as [[out0 st']| |] eqn:Hemit;
    try discriminate Hrun.
  inversion Hrun; subst out0. clear Hrun.
  apply emit_inv in Hemit
    as (roots & testRoots & stub & deps & st1 & testStub & testDeps
        & Hsplit & Hprod & Hpass & ->).
  simpl in Hstub, Htest. exists st1, st'. simpl.
  split; [eapply productionPass_inv; eassumption |].
  split; [eapply testPass_inv; eassumption |].
  eapply accumulated_manifest, testPass_accumulates, Hpass.
Qed.

(** Package [P] exporting [P::A], and [P::Point] to its tests: both
    manifests name package [Q]. *)
Lemma C10_witness :
  exists output st1 st2,
    runOnce World.gs World.pkgP_point World.namespaces World.fuel = Ok output
    /\ rbiPackageDependencies output = dependenciesText World.gs st1
    /\ testRBIPackageDependencies output = dependenciesText World.gs st2
    /\ manifestIncluded World.gs st1 st2.
Proof.
  eexists.
  destruct (C10_test_manifest_includes_production_manifest World.gs World.pkgP_point
              World.namespaces World.fuel _ ltac:(vm_compute; reflexivity))
    as (st1 & st2 & Hdeps & Htest & Hincl).
  - vm_compute. discriminate.
  - vm_compute. discriminate.
  - exists st1, st2. split; [vm_compute; reflexivity |].
    split; [exact Hdeps |]. split; [exact Htest | exact Hincl].
Defined.

(** C10, as stated, fails when the test pass renders nothing: package [P]
    exports [P::A] and exports it to its tests as well, so both export sets
    hold one symbol; the production manifest names package [Q], the test
    pass finds [P::A] marked and renders no text, and no test manifest is
    made at all. *)
Lemma C10_counterexample :
  splitExports World.gs World.pkgP_forTest World.namespaces World.fuel
               (exports World.pkgP_forTest) [] [] = Ok ([classSym 5], [])
  /\ resolveTestExports World.gs (testExports World.pkgP_forTest) [] = [classSym 5]
  /\ exists output,
       runOnce World.gs World.pkgP_forTest World.namespaces World.fuel = Ok output
       /\ rbiPackageDependencies output
          = dependenciesText World.gs
              (mkExporter ∅ (<[7%N := classSym 8]> ∅) ∅ [] initialOutput)
       /\ packageRefs World.gs (mkExporter ∅ (<[7%N := classSym 8]> ∅) ∅ [] initialOutput)
          = [dquote +:+ "Q" +:+ dquote]
       /\ testRBIPackageDependencies output = EmptyString.
Proof.
  split; [vm_compute; reflexivity |]. split; [vm_compute; reflexivity |].
  eexists. split; [vm_compute; reflexivity |].
  split; [vm_compute; reflexivity |]. split; vm_compute; reflexivity.
Qed.

(** ** Claims about the visited set *)

Section Visited.

Context (gs : GlobalState) (pkg : PackageInfo).
Context (pkgNamespaces : gset ClassOrModuleRef) (fuel : nat).

Lemma maybeEmit_fuel_no_target n symbol st :
  attachedTarget gs n symbol = None ->
  maybeEmit_fuel gs pkg pkgNamespaces fuel n symbol st = OutOfFuel.
Proof.
  revert symbol. induction n as [|n IH]; intros symbol H; simpl in *;
    destruct (isSingletonClassSymbol gs symbol); try discriminate H;
    [reflexivity | apply IH, H].
Qed.


(** The closure conditions of the three predicates of a pass. *)

Lemma removelast_elem {A} (x : A) (l : list A) : x ∈ removelast l -> x ∈ l.
Proof.
  induction l as [|y l IH]; simpl; [intros H; exact H |].
  destruct l as [|z l]; [intros H; inversion H |].
  intros H. apply elem_of_cons in H as [-> | H]; [left | right; apply IH, H].
Qed.















End Visited.

(** * Properties of the code beyond the specification *)

(** ** Invariants and exceptions: the rules of [Holds] *)

Lemma holds_ret {A} P E (a : A) : Holds P E (ret a).
Proof. intros st HP. exact HP. Qed.

Lemma holds_bind {A B} P E (m : M A) (k : A -> M B) :
  Holds P E m -> (forall a, Holds P E (k a)) -> Holds P E (bind m k).
Proof.
  intros Hm Hk st HP. unfold bind. specialize (Hm st HP).
  destruct (m st) as [[a st1]| |]; [apply Hk, Hm | exact Hm | exact I].
Qed.

Lemma holds_gets {A} P E (f : RBIExporter -> A) : Holds P E (gets f).
Proof. intros st HP. exact HP. Qed.

Lemma holds_raise {A} P (E : string -> Prop) msg : E msg -> Holds P E (@raise A msg).
Proof. intros HE st HP. exact HE. Qed.

Lemma holds_outOfFuel {A} P E : Holds P E (@outOfFuel A).
Proof. intros st HP. exact I. Qed.

Lemma holds_modify P E (f : RBIExporter -> RBIExporter) :
  (forall st, P st -> P (f st)) -> Holds P E (modify f).
Proof. intros Hf st HP. apply Hf, HP. Qed.

Lemma holds_when P E (b : bool) (m : M unit) : Holds P E m -> Holds P E (when b m).
Proof. intros Hm. destruct b; [exact Hm | apply holds_ret]. Qed.

Lemma holds_forEach {A} P E (l : list A) (body : A -> M unit) :
  (forall x, Holds P E (body x)) -> Holds P E (forEach l body).
Proof.
  intros Hb. induction l as [|x l IH]; simpl.
  - apply holds_ret.
  - apply holds_bind; [apply Hb | intros _; exact IH].
Qed.

Lemma holds_forEachWith {A S} P E (l : list A) (acc : S) (body : S -> A -> M S) :
  (forall acc x, Holds P E (body acc x)) -> Holds P E (forEachWith l acc body).
Proof.
  intros Hb. revert acc. induction l as [|x l IH]; intros acc; simpl.
  - apply holds_ret.
  - apply holds_bind; [apply Hb | intros acc'; apply IH].
Qed.

(** A run that returns in [P] and raises in [E], seen from its result. *)
Lemma holds_ok {A} P E (m : M A) st a st' :
  Holds P E m -> P st -> m st = Ok (a, st') -> P st'.
Proof. intros Hm HP Hrun. specialize (Hm st HP). rewrite Hrun in Hm. exact Hm. Qed.

Lemma holds_raised {A} P E (m : M A) st msg :
  Holds P E m -> P st -> m st = Raise msg -> E msg.
Proof. intros Hm HP Hrun. specialize (Hm st HP). rewrite Hrun in Hm. exact Hm. Qed.

Ltac holds_step :=
  match goal with
  | |- Holds _ _ (ret _) => apply holds_ret
  | |- Holds _ _ (bind _ _) => apply holds_bind; [| intros ?]
  | |- Holds _ _ (gets _) => apply holds_gets
  | |- Holds _ _ outOfFuel => apply holds_outOfFuel
  | |- Holds _ _ (when _ _) => apply holds_when
  | |- Holds _ _ (forEach _ _) => apply holds_forEach; intros ?
  | |- Holds _ _ (forEachWith _ _ _) => apply holds_forEachWith; intros ? ?
  | |- Holds _ _ (if ?b then _ else _) => destruct b
  | |- Holds _ _ (match ?x with _ => _ end) => destruct x
  | |- Holds _ _ (let (_, _) := ?x in _) => destruct x
  | |- Holds _ _ _ => progress cbv beta
  end.

(** ** The ownership walk, from its result *)

Section WalkCases.

Context (gs : GlobalState) (pkg : PackageInfo).
Context (pkgNamespaces : gset ClassOrModuleRef).

Lemma walk_stops sym :
  walkContinues gs pkg pkgNamespaces sym = false ->
  isRootOrRegistry gs sym = true
  \/ (isRootOrRegistry gs sym = false /\ isOwnNamespace gs pkg sym = true)
  \/ (isRootOrRegistry gs sym = false /\ isOwnNamespace gs pkg sym = false
      /\ isPackageNamespace pkgNamespaces sym = true).
Proof.
  unfold walkContinues.
  destruct (isRootOrRegistry gs sym); [left; reflexivity |].
  destruct (isOwnNamespace gs pkg sym); [right; left; split; reflexivity |].
  destruct (isPackageNamespace pkgNamespaces sym); [| discriminate].
  right; right. repeat split.
Qed.

Lemma isPackageNamespace_inv sym :
  isPackageNamespace pkgNamespaces sym = true ->
  sym = classSym (asClassOrModuleRef sym) /\ asClassOrModuleRef sym ∈ pkgNamespaces.
Proof.
  unfold isPackageNamespace, isClassOrModule. destruct sym as [[] i]; simpl; try discriminate.
  intros H. apply bool_decide_eq_true in H. split; [reflexivity | exact H].
Qed.

(** What the walk has met when it returns: the package's own namespace, or
    the namespace of another package, which it records, or a root, where it
    records the RBI file of the symbol. It never raises. *)
Lemma isInPackage_fuel_cases n sym original st :
  match isInPackage_fuel gs pkg pkgNamespaces n sym original st with
  | Ok (true, st') =>
      st' = st
      /\ exists j, (j <= n)%nat /\ reachesOwnNamespace gs pkg pkgNamespaces sym j
  | Ok (false, st') =>
      (exists j package,
          (j <= n)%nat /\ reachesForeignPackage gs pkg pkgNamespaces sym j package
          /\ st' = mkExporter (emittedSymbols st) (<[package := original]> (referencedPackages st))
                              (referencedRBIs st) (toEmit st) (out st))
      \/ (exists j,
            (j <= n)%nat /\ reachesGlobalRoot gs pkg pkgNamespaces sym j
            /\ st' = mkExporter (emittedSymbols st) (referencedPackages st)
                                (if definedInLegacyRBI gs original
                                 then {[loc_file (SymbolRef_loc gs original)]} ∪ referencedRBIs st
                                 else referencedRBIs st)
                                (toEmit st) (out st))
  | Raise _ => False
  | OutOfFuel => walkEnds gs pkg pkgNamespaces n sym = false
  end.
Proof.
  revert sym. induction n as [|n IH]; intros sym.
  all: destruct (walkContinues gs pkg pkgNamespaces sym) eqn:Hcont.
  - apply walkContinues_inv in Hcont as (Hroot & Hown & Hns). unfold isOwnNamespace in Hown.
    simpl. rewrite Hroot, Hown, Hns. unfold walkContinues, isOwnNamespace.
    rewrite Hroot, Hown, Hns. reflexivity.
  - apply walk_stops in Hcont as [Hroot | [[Hroot Hown] | (Hroot & Hown & Hns)]].
    + rewrite isInPackage_fuel_root by exact Hroot. right. exists 0%nat.
      split; [lia |]. split; [split; [reflexivity | exact Hroot] | reflexivity].
    + rewrite isInPackage_fuel_own by assumption. split; [reflexivity |].
      exists 0%nat. split; [lia |]. split; [reflexivity |]. split; assumption.
    + rewrite isInPackage_fuel_foreign by assumption.
      apply isPackageNamespace_inv in Hns as [Hsym Hin].
      left. exists 0%nat, (asClassOrModuleRef sym). split; [lia |].
      split; [| reflexivity].
      split; [reflexivity |]. split; [exact Hsym |]. split; [exact Hin |].
      rewrite <- Hsym. split; assumption.
  - pose proof Hcont as Hcont'.
    apply walkContinues_inv in Hcont as (Hroot & Hown & Hns). unfold isOwnNamespace in Hown.
    specialize (IH (SymbolRef_owner gs sym)).
    simpl. rewrite Hroot, Hown, Hns.
    destruct (isInPackage_fuel gs pkg pkgNamespaces n (SymbolRef_owner gs sym) original st)
      as [[[] st']| |].
    + destruct IH as [-> (j & Hj & Hpass & Hr & Ho)]. split; [reflexivity |].
      exists (S j). split; [lia |]. split; [| split; assumption].
      simpl. rewrite Hcont', Hpass. reflexivity.
    + destruct IH as [(j & package & Hj & (Hpass & Hanc & Hrest) & ->)
                     | (j & Hj & (Hpass & Hr) & ->)].
      * left. exists (S j), package. split; [lia |]. split; [| reflexivity].
        split; [simpl; rewrite Hcont', Hpass; reflexivity |]. split; assumption.
      * right. exists (S j). split; [lia |]. split; [| reflexivity].
        split; [simpl; rewrite Hcont', Hpass; reflexivity | exact Hr].
    + exact IH.
    + unfold walkContinues, isOwnNamespace. rewrite Hroot, Hown, Hns. exact IH.
  - apply walk_stops in Hcont as [Hroot | [[Hroot Hown] | (Hroot & Hown & Hns)]].
    + rewrite isInPackage_fuel_root by exact Hroot. right. exists 0%nat.
      split; [lia |]. split; [split; [reflexivity | exact Hroot] | reflexivity].
    + rewrite isInPackage_fuel_own by assumption. split; [reflexivity |].
      exists 0%nat. split; [lia |]. split; [reflexivity |]. split; assumption.
    + rewrite isInPackage_fuel_foreign by assumption.
      apply isPackageNamespace_inv in Hns as [Hsym Hin].
      left. exists 0%nat, (asClassOrModuleRef sym). split; [lia |].
      split; [| reflexivity].
      split; [reflexivity |]. split; [exact Hsym |]. split; [exact Hin |].
      rewrite <- Hsym. split; assumption.
Qed.

End WalkCases.

(** ** Invariants of the exporter

    A family [P i] of predicates on the state, [i] the depth of the
    indentation, and a set [E] of messages. When the ways the exporter
    changes its state respect [P] (under what the code has checked before
    each change) and its fatal errors are in [E], every member function
    keeps [P i] and raises in [E]. *)

Section Invariants.

Context (gs : GlobalState) (pkg : PackageInfo).
Context (pkgNamespaces : gset ClassOrModuleRef) (fuel : nat).
Variable P : Z -> RBIExporter -> Prop.
Variable E : string -> Prop.

(** The walk records a package when the chain of [blame] reaches it. *)
Hypothesis P_package : forall i st package blame j,
  (j <= fuel)%nat ->
  reachesForeignPackage gs pkg pkgNamespaces blame j package ->
  P i st ->
  P i (mkExporter (emittedSymbols st) (<[package := blame]> (referencedPackages st))
                  (referencedRBIs st) (toEmit st) (out st)).

(** The walk records a file when it is the RBI file of a symbol whose chain
    reaches a root. *)
Hypothesis P_rbi : forall i st original j,
  (j <= fuel)%nat ->
  reachesGlobalRoot gs pkg pkgNamespaces original j ->
  definedInLegacyRBI gs original = true ->
  P i st ->
  P i (mkExporter (emittedSymbols st) (referencedPackages st)
                  ({[loc_file (SymbolRef_loc gs original)]} ∪ referencedRBIs st)
                  (toEmit st) (out st)).

(** [maybeEmit] marks and enqueues a symbol that is not marked, is no
    singleton class, and that the walk accepts. *)
Hypothesis P_enqueue : forall i st s,
  s ∉ emittedSymbols st ->
  isSingletonClassSymbol gs s = false ->
  accepted gs pkg pkgNamespaces fuel s ->
  P i st ->
  P i (mkExporter ({[s]} ∪ emittedSymbols st) (referencedPackages st) (referencedRBIs st)
                  (toEmit st ++ [s]) (out st)).

(** The [emit] overloads for methods and type members mark their symbol. *)
Hypothesis P_mark : forall i st s,
  s ∉ emittedSymbols st ->
  kind s = Method \/ kind s = TypeMember ->
  P i st ->
  P i (mkExporter ({[s]} ∪ emittedSymbols st) (referencedPackages st) (referencedRBIs st)
                  (toEmit st) (out st)).

Hypothesis P_printlnf : forall i st line,
  P i st -> P i (set_out (Output_printlnf line (out st)) st).

Hypothesis P_println : forall i st arg,
  P i st -> P i (set_out (Output_println arg (out st)) st).

Hypothesis P_tab : forall i st, P i st -> P (i + 1) (set_out (Output_tab (out st)) st).

Hypothesis P_untab : forall i st, P (i + 1) st -> P i (set_out (Output_untab (out st)) st).

Hypothesis P_pop : forall i st,
  P i st ->
  P i (mkExporter (emittedSymbols st) (referencedPackages st) (referencedRBIs st)
                  (removelast (toEmit st)) (out st)).

Hypothesis E_delegator : E "Invalid def_delegator!".
Hypothesis E_cast : E "bad type cast".

(** The symbol [emitLoop] takes off the worklist, when it is a class: either
    ["Invalid klass"] is in [E], or the class is marked and accepted. *)
Hypothesis E_klass : forall i st s,
  P i st ->
  last (toEmit st) = Some s ->
  kind s = ClassOrModule ->
  E "Invalid klass" \/ (s ∈ emittedSymbols st /\ accepted gs pkg pkgNamespaces fuel s).

Lemma isInPackage_holds i s :
  Holds (P i) E (isInPackage gs pkg pkgNamespaces fuel s s).
Proof.
  intros st HP. unfold isInPackage.
  pose proof (isInPackage_fuel_cases gs pkg pkgNamespaces fuel s s st) as Hcases.
  destruct (isInPackage_fuel gs pkg pkgNamespaces fuel s s st) as [[[] st']| |].
  - destruct Hcases as [-> _]. exact HP.
  - destruct Hcases as [(j & package & Hj & Hreach & ->) | (j & Hj & Hreach & ->)].
    + eapply P_package; eassumption.
    + destruct (definedInLegacyRBI gs s) eqn:Hrbi.
      * eapply P_rbi; eassumption.
      * destruct st; exact HP.
  - contradiction.
  - exact I.
Qed.

Lemma maybeEmit_fuel_holds i n symbol :
  Holds (P i) E (maybeEmit_fuel gs pkg pkgNamespaces fuel n symbol).
Proof.
  revert symbol. induction n as [|n IH]; intros symbol; simpl.
  all: destruct (isSingletonClassSymbol gs symbol) eqn:Hsingleton;
    [first [apply holds_outOfFuel | apply IH] |].
  all: intros st HP; unfold bind, gets; simpl.
  all: destruct (bool_decide (symbol ∈ emittedSymbols st)) eqn:Evis; [exact HP |].
  all: apply bool_decide_eq_false in Evis.
  all: pose proof (isInPackage_holds i symbol st HP) as Hwalk.
  all: unfold isInPackage in *.
  all: pose proof (isInPackage_fuel_cases gs pkg pkgNamespaces fuel symbol symbol st) as Hcases.
  all: destruct (isInPackage_fuel gs pkg pkgNamespaces fuel symbol symbol st)
    as [[[] st1]| |]; try exact Hwalk.
  all: destruct Hcases as [-> Hacc]; unfold insertEmitted, pushToEmit, modify; simpl.
  all: apply P_enqueue; assumption.
Qed.

Lemma maybeEmit_holds i symbol : Holds (P i) E (maybeEmit gs pkg pkgNamespaces fuel symbol).
Proof. apply maybeEmit_fuel_holds. Qed.

Lemma holds_ext {A} (Q : RBIExporter -> Prop) (m1 m2 : M A) :
  (forall st, m1 st = m2 st) -> Holds Q E m2 -> Holds Q E m1.
Proof. intros Heq H st HQ. rewrite Heq. apply H, HQ. Qed.

Lemma enqueueSymbolsInType_holds i type :
  Holds (P i) E (enqueueSymbolsInType gs pkg pkgNamespaces fuel type).
Proof.
  eapply holds_ext; [intros st; apply enqueueSymbolsInType_forEach |].
  apply holds_forEach. intros s. apply maybeEmit_holds.
Qed.

Lemma showType_holds i type : Holds (P i) E (showType gs pkg pkgNamespaces fuel type).
Proof.
  unfold showType. repeat first [apply enqueueSymbolsInType_holds | holds_step].
Qed.

Lemma badCast_holds {A} i : Holds (P i) E (@badCast A).
Proof. apply holds_raise, E_cast. Qed.

Lemma typeDeclaration_holds i type :
  Holds (P i) E (typeDeclaration gs pkg pkgNamespaces fuel type).
Proof.
  unfold typeDeclaration.
  repeat first [apply showType_holds | apply maybeEmit_holds | holds_step].
Qed.

Lemma showVariance_holds i tm : Holds (P i) E (showVariance gs pkg pkgNamespaces fuel tm).
Proof.
  unfold showVariance.
  repeat first [apply showType_holds | apply badCast_holds | holds_step].
Qed.

Lemma sigParams_holds i method receiver constraint arguments :
  Holds (P i) E (sigParams gs pkg pkgNamespaces fuel method receiver constraint arguments).
Proof.
  induction arguments as [|argSym rest IH]; simpl;
    repeat first [apply IH | apply showType_holds | holds_step].
Qed.

Lemma prettySigForMethod_holds i method receiver retType constraint :
  Holds (P i) E (prettySigForMethod gs pkg pkgNamespaces fuel method receiver retType constraint).
Proof.
  unfold prettySigForMethod.
  repeat first [apply sigParams_holds | apply showType_holds | holds_step].
Qed.

Lemma printlnf_holds i line : Holds (P i) E (printlnf line).
Proof. apply holds_modify. intros st HP. apply P_printlnf, HP. Qed.

Lemma println_holds i arg : Holds (P i) E (println arg).
Proof. apply holds_modify. intros st HP. apply P_println, HP. Qed.

Lemma withIndent_holds {A} i (body : M A) :
  (forall j, Holds (P j) E body) -> Holds (P i) E (withIndent body).
Proof.
  intros Hbody st HP. unfold withIndent, bind, modify. simpl.
  specialize (Hbody (i + 1) _ (P_tab i st HP)).
  destruct (body _) as [[a st']| |]; [| exact Hbody | exact I].
  simpl. apply P_untab, Hbody.
Qed.

Lemma emitProp_holds i name type isConst hasDefault :
  Holds (P i) E (emitProp gs pkg pkgNamespaces fuel name type isConst hasDefault).
Proof.
  unfold emitProp.
  repeat first [apply showType_holds | apply printlnf_holds | holds_step].
Qed.

Lemma emit_field_holds i field isCVar :
  Holds (P i) E (emit_field gs pkg pkgNamespaces fuel field isCVar).
Proof.
  unfold emit_field.
  repeat first [apply showType_holds | apply typeDeclaration_holds
               | apply printlnf_holds | holds_step].
Qed.

(** Marking a symbol that is not marked, and going on. *)
Lemma mark_then {A} i s (rest : M A) st :
  P i st ->
  s ∉ emittedSymbols st ->
  kind s = Method \/ kind s = TypeMember ->
  Holds (P i) E rest ->
  match (insertEmitted s >> rest) st with
  | Ok (_, st') => P i st'
  | Raise msg => E msg
  | OutOfFuel => True
  end.
Proof.
  intros HP Hfresh Hkind Hrest. unfold bind, insertEmitted, modify.
  apply Hrest, P_mark; assumption.
Qed.

Lemma emit_typeMember_holds i tm :
  Holds (P i) E (emit_typeMember gs pkg pkgNamespaces fuel tm).
Proof.
  intros st HP. unfold emit_typeMember.
  erewrite bind_ok by reflexivity.
  destruct (bool_decide (typeMemberSym tm ∈ emittedSymbols st)) eqn:Evis; [exact HP |].
  apply bool_decide_eq_false in Evis.
  apply mark_then; [exact HP | exact Evis | right; reflexivity |].
  repeat first [apply showVariance_holds | apply printlnf_holds | holds_step].
Qed.

Lemma tryEmitDefDelegator_holds i method : Holds (P i) E (tryEmitDefDelegator gs method).
Proof.
  unfold tryEmitDefDelegator.
  repeat first [apply printlnf_holds | apply println_holds
               | apply holds_raise, E_delegator | holds_step].
Qed.

Lemma emit_method_holds i method fields :
  Holds (P i) E (emit_method gs pkg pkgNamespaces fuel method fields).
Proof.
  intros st HP. unfold emit_method.
  erewrite bind_ok by reflexivity.
  destruct (bool_decide (methodSym method ∈ emittedSymbols st)) eqn:Evis; [exact HP |].
  apply bool_decide_eq_false in Evis.
  destruct (N.eqb (me_name (methodData gs method)) (Names_staticInit gs)); [exact HP |].
  apply mark_then; [exact HP | exact Evis | left; reflexivity |].
  repeat first [ apply tryEmitDefDelegator_holds | apply prettySigForMethod_holds
               | apply emit_field_holds | apply badCast_holds
               | apply printlnf_holds | apply println_holds
               | apply withIndent_holds; intros ? | holds_step ].
Qed.

Lemma structPropsLoop_holds i arguments methods fields :
  Holds (P i) E (structPropsLoop gs pkg pkgNamespaces fuel arguments methods fields).
Proof.
  revert methods fields. induction arguments as [|arg rest IH]; intros methods fields; simpl;
    repeat first [apply IH | apply emitProp_holds | holds_step].
Qed.

Lemma emitMethods_holds i methods fields :
  Holds (P i) E (emitMethods gs pkg pkgNamespaces fuel methods fields).
Proof.
  unfold emitMethods. repeat first [apply emit_method_holds | holds_step].
Qed.

Lemma maybeEmitStructProps_holds i structInitializer methods fields :
  Holds (P i) E (maybeEmitStructProps gs pkg pkgNamespaces fuel structInitializer methods fields).
Proof.
  unfold maybeEmitStructProps.
  repeat first [ apply structPropsLoop_holds | apply emit_method_holds
               | apply emitMethods_holds | holds_step ].
Qed.

Lemma classMember_holds i klass isEnum p entry :
  Holds (P i) E (classMember gs pkg pkgNamespaces fuel klass isEnum p entry).
Proof.
  unfold classMember.
  repeat first [ apply maybeEmit_holds | apply emit_field_holds | holds_step ].
Qed.

Lemma singletonMember_holds i klass pendingFields entry :
  Holds (P i) E (singletonMember gs pkg pkgNamespaces fuel klass pendingFields entry).
Proof.
  unfold singletonMember.
  repeat first [ apply maybeEmit_holds | apply emit_field_holds
               | apply emit_method_holds | holds_step ].
Qed.

Lemma propsPhase_holds i pendingMethods pendingFields :
  Holds (P i) E (propsPhase gs pkg pkgNamespaces fuel pendingMethods pendingFields).
Proof.
  unfold propsPhase. repeat first [ apply emitProp_holds | holds_step ].
Qed.

Lemma flatfilePhase_holds i pendingMethods : Holds (P i) E (flatfilePhase gs pendingMethods).
Proof.
  unfold flatfilePhase.
  repeat first [ apply printlnf_holds | apply println_holds
               | apply withIndent_holds; intros ? | holds_step ].
Qed.

Lemma emit_klass_body_holds i klass isEnum isStruct isFlatFile :
  Holds (P i) E (emit_klass_body gs pkg pkgNamespaces fuel klass isEnum isStruct isFlatFile).
Proof.
  unfold emit_klass_body.
  repeat first [ apply maybeEmit_holds | apply emit_typeMember_holds
               | apply classMember_holds | apply singletonMember_holds
               | apply maybeEmitStructProps_holds | apply emit_method_holds
               | apply propsPhase_holds | apply flatfilePhase_holds
               | apply emitMethods_holds
               | apply printlnf_holds | apply println_holds
               | apply withIndent_holds; intros ? | holds_step ].
Qed.

Lemma isFlatfile_fuel_returns n klass msg : isFlatfile_fuel gs n klass <> Raise msg.
Proof.
  revert klass. induction n as [|n IH]; intros klass; simpl;
    destruct (N.eqb klass (Symbols_root gs) || negb (ref_exists klass)); try discriminate;
    destruct (N.eqb klass (flatfileRecord gs)); try discriminate.
  apply IH.
Qed.

Lemma isFlatfile_holds i klass : Holds (P i) E (isFlatfile gs fuel klass).
Proof.
  intros st HP. unfold isFlatfile, liftResult.
  pose proof (isFlatfile_fuel_returns fuel klass) as Hret.
  destruct (isFlatfile_fuel gs fuel klass); [exact HP | | exact I].
  exfalso. apply (Hret msg). reflexivity.
Qed.

(** [emit(ClassOrModuleRef)], for a class of which ["Invalid klass"] is in
    [E] or that is marked and accepted. *)
Lemma emit_klass_holds i klass st :
  P i st ->
  E "Invalid klass"
  \/ (classSym klass ∈ emittedSymbols st
      /\ accepted gs pkg pkgNamespaces fuel (classSym klass)) ->
  match emit_klass gs pkg pkgNamespaces fuel klass st with
  | Ok (_, st') => P i st'
  | Raise msg => E msg
  | OutOfFuel => True
  end.
Proof.
  intros HP Hguard. unfold emit_klass.
  pose proof (isInPackage_holds i (classSym klass) st HP) as Hwalk.
  unfold isInPackage in *. unfold bind at 1.
  destruct (isInPackage_fuel gs pkg pkgNamespaces fuel (classSym klass) (classSym klass) st)
    as [[inPackage st1]| |] eqn:Ewalk; [| exact Hwalk | exact I].
  erewrite bind_ok by reflexivity.
  assert (Hemitted : emittedSymbols st1 = emittedSymbols st)
    by (apply isInPackage_fuel_keeps in Ewalk as (H & _ & _); exact H).
  destruct (negb inPackage || negb (bool_decide (classSym klass ∈ emittedSymbols st1)))
    eqn:Hreject.
  - destruct Hguard as [HE | [Hmarked (j & Hj & Hpass & Hroot & Hown)]]; [exact HE |].
    exfalso.
    rewrite Hemitted, (bool_decide_eq_true_2 _ Hmarked), orb_false_r in Hreject.
    apply negb_true_iff in Hreject. subst inPackage.
    destruct (le_split j fuel Hj) as [n Hn]. rewrite Hn in Ewalk.
    rewrite (isInPackage_fuel_climb gs pkg pkgNamespaces j n _ _ st Hpass) in Ewalk.
    rewrite (isInPackage_fuel_own gs pkg pkgNamespaces n _ _ st Hroot Hown) in Ewalk.
    discriminate Ewalk.
  - revert st1 Hwalk Ewalk Hemitted Hreject.
    match goal with
    | |- forall st1, _ -> _ -> _ -> _ -> match ?R st1 with _ => _ end =>
        cut (Holds (P i) E R); [intros HR st1 Hwalk _ _ _; apply HR, Hwalk |]
    end.
    unfold isFlatfile.
    repeat first [ apply (isFlatfile_holds i)
                 | apply emit_klass_body_holds | apply maybeEmit_holds
                 | apply printlnf_holds | apply println_holds
                 | apply withIndent_holds; intros ? | holds_step ].
Qed.

Lemma emitLoop_fuel_holds i n : Holds (P i) E (emitLoop_fuel gs pkg pkgNamespaces fuel n).
Proof.
  induction n as [|n IH]; intros st HP; simpl.
  - erewrite bind_ok by reflexivity. destruct (last (toEmit st)); exact I || exact HP.
  - erewrite bind_ok by reflexivity.
    destruct (last (toEmit st)) as [symbol|] eqn:Hlast; [| exact HP].
    unfold bind at 1. unfold popToEmit, modify.
    pose proof (P_pop i st HP) as Hpop.
    pose proof (E_klass i st symbol HP Hlast) as Hklass.
    unfold bind at 1.
    match goal with
    | |- match match ?m ?s0 with _ => _ end with _ => _ end =>
        assert (Hstep : match m s0 with
                        | Ok (_, st') => P i st' | Raise msg => E msg | OutOfFuel => True
                        end)
    end.
    { destruct symbol as [[] ix]; simpl.
      - apply emit_klass_holds; [exact Hpop |]. simpl. apply Hklass. reflexivity.
      - revert Hpop. generalize (mkExporter (emittedSymbols st) (referencedPackages st)
                                   (referencedRBIs st) (removelast (toEmit st)) (out st)).
        change (Holds (P i) E (emit_method gs pkg pkgNamespaces fuel ix [] >> ret tt)).
        repeat first [apply emit_method_holds | holds_step].
      - apply emit_field_holds, Hpop.
      - exact Hpop.
      - exact Hpop. }
    match goal with
    | |- match match ?m ?s0 with _ => _ end with _ => _ end =>
        destruct (m s0) as [[u st1]| |]; [apply IH, Hstep | exact Hstep | exact I]
    end.
Qed.

Lemma emitLoop_holds i : Holds (P i) E (emitLoop gs pkg pkgNamespaces fuel).
Proof. apply emitLoop_fuel_holds. Qed.

(** [Output::toString] clears the buffer. *)
Hypothesis P_clear : forall i st,
  P i st ->
  P i (set_out (mkOutput EmptyString (out_indent (out st)) (out_tabStr (out st))) st).

Lemma Output_toString_holds i : Holds (P i) E Output_toString.
Proof.
  unfold Output_toString.
  repeat first [apply holds_modify; intros; apply P_clear; assumption | holds_step].
Qed.

Lemma isInTestPackage_fuel_returns n sym msg :
  isInTestPackage_fuel gs pkg pkgNamespaces n sym <> Raise msg.
Proof.
  revert sym. induction n as [|n IH]; intros sym; simpl;
    repeat match goal with
           | |- (if ?b then _ else _) <> _ => destruct b; try discriminate
           end.
  apply IH.
Qed.

Lemma splitExports_returns rawExports exports testExports msg :
  splitExports gs pkg pkgNamespaces fuel rawExports exports testExports <> Raise msg.
Proof.
  revert exports testExports.
  induction rawExports as [|e rest IH]; intros exports testExports; simpl; [discriminate |].
  destruct (symbol_exists (lookupFQN gs e)); [| apply IH].
  pose proof (isInTestPackage_fuel_returns fuel (lookupFQN gs e)) as Hret.
  unfold isInTestPackage.
  destruct (isInTestPackage_fuel gs pkg pkgNamespaces fuel (lookupFQN gs e)) as [[]| |];
    try apply IH; [| discriminate].
  intros H. apply (Hret msg0). reflexivity.
Qed.

Lemma productionPass_holds i exports :
  Holds (P i) E (productionPass gs pkg pkgNamespaces fuel exports).
Proof.
  unfold productionPass, dependencies.
  repeat first [ apply maybeEmit_holds | apply emitLoop_holds
               | apply Output_toString_holds | holds_step ].
Qed.

Lemma testPass_holds i testExports :
  Holds (P i) E (testPass gs pkg pkgNamespaces fuel testExports).
Proof.
  unfold testPass, dependencies.
  repeat first [ apply maybeEmit_holds | apply emitLoop_holds
               | apply Output_toString_holds | holds_step ].
Qed.

Lemma emit_holds i : Holds (P i) E (emit gs pkg pkgNamespaces fuel).
Proof.
  unfold emit. apply holds_bind.
  - intros st HP. unfold liftResult.
    pose proof (splitExports_returns (exports pkg) [] []) as Hret.
    destruct (splitExports gs pkg pkgNamespaces fuel (exports pkg) [] []);
      [exact HP | | exact I].
    exfalso. apply (Hret msg). reflexivity.
  - intros [roots testRoots].
    repeat first [ apply productionPass_holds | apply testPass_holds | holds_step ].
Qed.

End Invariants.

(** ** The two walks and the closure builder *)

Section Walks.

Context (gs : GlobalState) (pkg : PackageInfo).
Context (pkgNamespaces : gset ClassOrModuleRef).

(** The walk only writes what it has met: on the state it leaves, it
    answers the same and changes nothing. *)
Lemma isInPackage_fuel_again n sym original st b st' :
  isInPackage_fuel gs pkg pkgNamespaces n sym original st = Ok (b, st') ->
  isInPackage_fuel gs pkg pkgNamespaces n sym original st' = Ok (b, st').
Proof.
  intros Hrun.
  pose proof (isInPackage_fuel_cases gs pkg pkgNamespaces n sym original st) as Hcases.
  rewrite Hrun in Hcases. destruct b.
  - destruct Hcases as [-> _]. exact Hrun.
  - destruct Hcases as [(j & package & Hj & (Hpass & Hanc & Hin & Hroot & Hown) & ->)
                       | (j & Hj & (Hpass & Hroot) & ->)].
    + destruct (le_split j n Hj) as [m ->].
      rewrite (isInPackage_fuel_climb gs pkg pkgNamespaces j m sym original _ Hpass), Hanc.
      rewrite isInPackage_fuel_foreign; [| exact Hroot | exact Hown |].
      * simpl. rewrite insert_insert_eq. reflexivity.
      * unfold isPackageNamespace. simpl. apply bool_decide_eq_true_2, Hin.
    + destruct (le_split j n Hj) as [m ->].
      rewrite (isInPackage_fuel_climb gs pkg pkgNamespaces j m sym original _ Hpass).
      rewrite isInPackage_fuel_root by exact Hroot. simpl.
      destruct (definedInLegacyRBI gs original); [| reflexivity].
      rewrite (assoc_L (∪)), union_idemp_L. reflexivity.
Qed.

End Walks.

(** X1: The ownership walk accepts only the package's own symbols, and it
    never raises. When it answers yes, the owner chain of the symbol has
    reached the production or the test namespace of the package before any
    root and before the namespace of any other package, and the state is as
    it was; when it answers no, it has met the namespace of another package
    and recorded it with the symbol as its blame, or a root, and recorded
    the RBI file of the symbol if it has one; nothing else changes. With
    fuel for the owner chain the walk returns. *)
Theorem walk_accepts_only_own_symbols gs pkg pkgNamespaces fuel symbol st :
  (forall msg, isInPackage gs pkg pkgNamespaces fuel symbol symbol st <> Raise msg)
  /\ (walkEnds gs pkg pkgNamespaces fuel symbol = true ->
      exists b st', isInPackage gs pkg pkgNamespaces fuel symbol symbol st = Ok (b, st'))
  /\ (forall b st',
        isInPackage gs pkg pkgNamespaces fuel symbol symbol st = Ok (b, st') ->
        (b = true /\ st' = st /\ accepted gs pkg pkgNamespaces fuel symbol)
        \/ (b = false
            /\ exists j package,
                 (j <= fuel)%nat
                 /\ reachesForeignPackage gs pkg pkgNamespaces symbol j package
                 /\ st' = mkExporter (emittedSymbols st)
                                     (<[package := symbol]> (referencedPackages st))
                                     (referencedRBIs st) (toEmit st) (out st))
        \/ (b = false
            /\ exists j,
                 (j <= fuel)%nat /\ reachesGlobalRoot gs pkg pkgNamespaces symbol j
                 /\ st' = mkExporter (emittedSymbols st) (referencedPackages st)
                                     (if definedInLegacyRBI gs symbol
                                      then {[loc_file (SymbolRef_loc gs symbol)]}
                                           ∪ referencedRBIs st
                                      else referencedRBIs st)
                                     (toEmit st) (out st))).
Proof.
  pose proof (isInPackage_fuel_cases gs pkg pkgNamespaces fuel symbol symbol st) as Hcases.
  fold (isInPackage gs pkg pkgNamespaces fuel symbol symbol st) in Hcases.
  split; [| split].
  - intros msg Hrun. rewrite Hrun in Hcases. exact Hcases.
  - intros Hends.
    destruct (isInPackage_fuel_ends gs pkg pkgNamespaces fuel symbol symbol st Hends)
      as (b & st' & Hrun & _).
    exists b, st'. exact Hrun.
  - intros b st' Hrun. rewrite Hrun in Hcases. destruct b.
    + left. destruct Hcases as [-> Hacc]. repeat split. exact Hacc.
    + right. destruct Hcases as [H | H]; [left | right]; split; try reflexivity; exact H.
Qed.

(** [P::A] is accepted while package [P] is generated. *)
Lemma walk_accepts_only_own_symbols_witness :
  accepted World.gs World.pkgP World.namespaces World.fuel (classSym 5).
Proof.
  destruct (proj2 (proj2 (walk_accepts_only_own_symbols World.gs World.pkgP World.namespaces
                            World.fuel (classSym 5) initialExporter))
              true initialExporter ltac:(vm_compute; reflexivity))
    as [(_ & _ & Hacc) | [(H & _) | (H & _)]];
    [exact Hacc | discriminate H | discriminate H].
Defined.

(** X2: A symbol that the walk for the test namespace files under [Test::] is
    accepted by the ownership walk, which changes nothing then; and whenever
    the former walk ends within the budget, so does the latter. *)
Theorem test_symbols_are_in_package gs pkg pkgNamespaces fuel sym original st b :
  isInTestPackage gs pkg pkgNamespaces fuel sym = Ok b ->
  exists b' st',
    isInPackage gs pkg pkgNamespaces fuel sym original st = Ok (b', st')
    /\ (b = true -> b' = true /\ st' = st).
Proof.
  unfold isInTestPackage, isInPackage. revert sym.
  induction fuel as [|n IH]; intros sym Htest; simpl in Htest.
  all: destruct (isRootOrRegistry gs sym) eqn:Hroot;
    [ inversion Htest; subst b; rewrite isInPackage_fuel_root by exact Hroot;
      eexists _, _; split; [reflexivity | discriminate] |].
  all: destruct (bool_decide (sym = classSym (pkgNamespace gs pkg))) eqn:Hprod;
    [ inversion Htest; subst b;
      rewrite isInPackage_fuel_own
        by (try exact Hroot; unfold isOwnNamespace; rewrite Hprod; reflexivity);
      eexists _, _; split; [reflexivity | discriminate] |].
  all: destruct (bool_decide (sym = classSym (pkgTestNamespace gs pkg))) eqn:Htestns;
    [ inversion Htest; subst b;
      rewrite isInPackage_fuel_own
        by (try exact Hroot; unfold isOwnNamespace; rewrite Hprod, Htestns; reflexivity);
      eexists _, _; split; [reflexivity | intros _; split; reflexivity] |].
  all: destruct (isPackageNamespace pkgNamespaces sym) eqn:Hns;
    [ inversion Htest; subst b;
      rewrite isInPackage_fuel_foreign
        by (try assumption; unfold isOwnNamespace; rewrite Hprod, Htestns; reflexivity);
      eexists _, _; split; [reflexivity | discriminate] |].
  - discriminate Htest.
  - simpl. rewrite Hroot, Hprod, Htestns, Hns. simpl. apply IH, Htest.
Qed.

(** [Test::P::T], a symbol of the test namespace of package [P]. *)
Lemma test_symbols_are_in_package_witness :
  isInPackage World.gs World.pkgP World.namespaces World.fuel (classSym 6) (classSym 6)
              initialExporter
  = Ok (true, initialExporter).
Proof.
  destruct (test_symbols_are_in_package World.gs World.pkgP World.namespaces World.fuel
              (classSym 6) (classSym 6) initialExporter true ltac:(vm_compute; reflexivity))
    as (b' & st' & Hrun & Htrue).
  destruct (Htrue eq_refl) as [Hb Hst]. rewrite Hb, Hst in Hrun. exact Hrun.
Defined.

(** X3: Feeding a symbol to the closure builder twice is feeding it once: the
    second call finds the symbol marked, or walks to the same verdict and
    records what is recorded already. *)
Theorem maybeEmit_twice_is_once gs pkg pkgNamespaces fuel symbol st :
  (maybeEmit gs pkg pkgNamespaces fuel symbol >> maybeEmit gs pkg pkgNamespaces fuel symbol) st
  = maybeEmit gs pkg pkgNamespaces fuel symbol st.
Proof.
  unfold bind.
  destruct (maybeEmit gs pkg pkgNamespaces fuel symbol st) as [[[] st1]| |] eqn:Hfirst;
    [| reflexivity | reflexivity].
  destruct (attachedTarget gs fuel symbol) as [target|] eqn:Htarget.
  - destruct (decide (target ∈ emittedSymbols st)) as [Hin | Hfresh].
    + rewrite (maybeEmit_visited gs pkg pkgNamespaces fuel symbol target st Htarget Hin)
        in Hfirst.
      inversion Hfirst; subst st1. apply (maybeEmit_visited _ _ _ _ _ target); assumption.
    + rewrite (maybeEmit_unvisited gs pkg pkgNamespaces fuel symbol target st Htarget Hfresh)
        in Hfirst.
      unfold isInPackage in Hfirst.
      destruct (isInPackage_fuel gs pkg pkgNamespaces fuel target target st)
        as [[[] s']| |] eqn:Hwalk; try discriminate Hfirst; inversion Hfirst; subst st1.
      * apply (maybeEmit_visited _ _ _ _ _ target); [exact Htarget |]. simpl.
        apply elem_of_union_l, elem_of_singleton. reflexivity.
      * pose proof (isInPackage_fuel_keeps _ _ _ _ _ _ _ _ _ Hwalk) as (Hkeep & _ & _).
        rewrite (maybeEmit_unvisited gs pkg pkgNamespaces fuel symbol target s' Htarget)
          by (rewrite Hkeep; exact Hfresh).
        unfold isInPackage. rewrite (isInPackage_fuel_again _ _ _ _ _ _ _ _ _ Hwalk).
        reflexivity.
  - unfold maybeEmit in Hfirst. rewrite maybeEmit_fuel_no_target in Hfirst by exact Htarget.
    discriminate Hfirst.
Qed.

(** X4: A symbol of the package that is not marked yet is marked and put on top
    of the worklist, and nothing else changes; a singleton class stands for
    its attached class. *)
Theorem own_symbol_marked_and_enqueued gs pkg pkgNamespaces fuel symbol target k st :
  attachedTarget gs fuel symbol = Some target ->
  target ∉ emittedSymbols st ->
  reachesOwnNamespace gs pkg pkgNamespaces target k ->
  (k <= fuel)%nat ->
  maybeEmit gs pkg pkgNamespaces fuel symbol st
  = Ok (tt, mkExporter ({[target]} ∪ emittedSymbols st) (referencedPackages st)
                       (referencedRBIs st) (toEmit st ++ [target]) (out st)).
Proof.
  intros Htarget Hfresh (Hpass & Hroot & Hown) Hk.
  rewrite (maybeEmit_unvisited gs pkg pkgNamespaces fuel symbol target st Htarget Hfresh).
  unfold isInPackage. destruct (le_split k fuel Hk) as [n ->].
  rewrite (isInPackage_fuel_climb gs pkg pkgNamespaces k n target target st Hpass).
  rewrite isInPackage_fuel_own by assumption. reflexivity.
Qed.

(** The singleton class of [P::Sub], fed to the closure builder of the
    package [P::Sub]: [P::Sub] itself is marked and enqueued. *)
Lemma own_symbol_marked_and_enqueued_witness :
  maybeEmit World.gs World.pkgSub World.namespaces World.fuel (classSym 10) initialExporter
  = Ok (tt, mkExporter ({[classSym 9]} ∪ ∅) ∅ ∅ [classSym 9] initialOutput).
Proof.
  apply (own_symbol_marked_and_enqueued World.gs World.pkgSub World.namespaces World.fuel
           (classSym 10) (classSym 9) 0 initialExporter).
  - vm_compute. reflexivity.
  - apply not_elem_of_empty.
  - split; [reflexivity |]. split; vm_compute; reflexivity.
  - lia.
Defined.

(** ** Every reference is accounted for *)

Section AccountedFor.

Context (gs : GlobalState) (pkg : PackageInfo).
Context (pkgNamespaces : gset ClassOrModuleRef) (fuel : nat).

Lemma accountedFor_grows s st st' :
  emittedSymbols st ⊆ emittedSymbols st' ->
  (forall package, is_Some (referencedPackages st !! package) ->
                   is_Some (referencedPackages st' !! package)) ->
  referencedRBIs st ⊆ referencedRBIs st' ->
  accountedFor gs pkg pkgNamespaces s st -> accountedFor gs pkg pkgNamespaces s st'.
Proof.
  intros Hmarks Hpackages Hrbis [Hin | [(j & package & Hreach & Hsome) | (j & Hreach & Hfile)]].
  - left. apply Hmarks, Hin.
  - right. left. exists j, package. split; [exact Hreach | apply Hpackages, Hsome].
  - right. right. exists j. split; [exact Hreach |]. intros Hrbi. apply Hrbis, Hfile, Hrbi.
Qed.

Lemma is_Some_insert (m : gmap ClassOrModuleRef SymbolRef) package blame k :
  is_Some (m !! k) -> is_Some (<[package := blame]> m !! k).
Proof.
  intros Hk. destruct (decide (package = k)) as [-> | Hne].
  - rewrite lookup_insert_eq. eauto.
  - rewrite lookup_insert_ne by exact Hne. exact Hk.
Qed.

Lemma maybeEmit_accounts symbol target st st' :
  attachedTarget gs fuel symbol = Some target ->
  maybeEmit gs pkg pkgNamespaces fuel symbol st = Ok (tt, st') ->
  accountedFor gs pkg pkgNamespaces target st'.
Proof.
  intros Htarget Hrun.
  destruct (decide (target ∈ emittedSymbols st)) as [Hin | Hfresh].
  - rewrite (maybeEmit_visited gs pkg pkgNamespaces fuel symbol target st Htarget Hin) in Hrun.
    inversion Hrun; subst st'. left. exact Hin.
  - rewrite (maybeEmit_unvisited gs pkg pkgNamespaces fuel symbol target st Htarget Hfresh)
      in Hrun.
    unfold isInPackage in Hrun.
    pose proof (isInPackage_fuel_cases gs pkg pkgNamespaces fuel target target st) as Hcases.
    destruct (isInPackage_fuel gs pkg pkgNamespaces fuel target target st)
      as [[[] s1]| |]; try discriminate Hrun; inversion Hrun; subst st'.
    + left. simpl. apply elem_of_union_l, elem_of_singleton. reflexivity.
    + destruct Hcases as [(j & package & _ & Hreach & ->) | (j & _ & Hreach & ->)].
      * right. left. exists j, package. split; [exact Hreach |]. simpl.
        rewrite lookup_insert_eq. eauto.
      * right. right. exists j. split; [exact Hreach |]. intros Hrbi. simpl.
        rewrite Hrbi. apply elem_of_union_l, elem_of_singleton. reflexivity.
Qed.

Lemma emitLoop_accountedFor s :
  Preserves (accountedFor gs pkg pkgNamespaces s) (emitLoop gs pkg pkgNamespaces fuel).
Proof.
  apply emitLoop_preserves; intros st; intros;
    (eapply accountedFor_grows; [| | | eassumption]); simpl;
    try (intros ? ?; assumption); try reflexivity; try set_solver.
  intros k Hk. apply is_Some_insert, Hk.
Qed.

Lemma maybeEmit_accountedFor s symbol :
  Preserves (accountedFor gs pkg pkgNamespaces s) (maybeEmit gs pkg pkgNamespaces fuel symbol).
Proof.
  apply maybeEmit_preserves; intros st; intros;
    (eapply accountedFor_grows; [| | | eassumption]); simpl;
    try (intros ? ?; assumption); try reflexivity; try set_solver.
  intros k Hk. apply is_Some_insert, Hk.
Qed.

End AccountedFor.

(** X5: Every reference is accounted for. A symbol fed to the closure builder --
    every symbol of a type that is shown, every superclass, mixin and member
    -- is afterwards marked for a stub of this package, or has its owning
    package among the referenced packages, or belongs to no package and has
    its RBI file, if it is defined in one, among the referenced RBIs; and
    what is accounted for stays so, whatever is fed to the closure builder
    or rendered from the worklist later. *)
Theorem every_reference_accounted_for gs pkg pkgNamespaces fuel symbol target st st' :
  attachedTarget gs fuel symbol = Some target ->
  maybeEmit gs pkg pkgNamespaces fuel symbol st = Ok (tt, st') ->
  accountedFor gs pkg pkgNamespaces target st'
  /\ (forall later,
        Preserves (accountedFor gs pkg pkgNamespaces target)
                  (maybeEmit gs pkg pkgNamespaces fuel later))
  /\ Preserves (accountedFor gs pkg pkgNamespaces target) (emitLoop gs pkg pkgNamespaces fuel).
Proof.
  intros Htarget Hrun. split; [eapply maybeEmit_accounts; eassumption |].
  split; [intros later; apply maybeEmit_accountedFor | apply emitLoop_accountedFor].
Qed.

(** [Q::B], met while package [P] is generated: package [Q] is recorded. *)
Lemma every_reference_accounted_for_witness :
  exists st',
    maybeEmit World.gs World.pkgP World.namespaces World.fuel (classSym 8) initialExporter
    = Ok (tt, st')
    /\ accountedFor World.gs World.pkgP World.namespaces (classSym 8) st'.
Proof.
  destruct (maybeEmit World.gs World.pkgP World.namespaces World.fuel (classSym 8)
                      initialExporter)
    as [[[] st']| |] eqn:Hrun; try (vm_compute in Hrun; discriminate Hrun).
  exists st'. split; [reflexivity |].
  apply (proj1 (every_reference_accounted_for World.gs World.pkgP World.namespaces World.fuel
                  (classSym 8) (classSym 8) initialExporter st'
                  ltac:(vm_compute; reflexivity) Hrun)).
Defined.

Lemma last_elem {A} (l : list A) (x : A) : last l = Some x -> x ∈ l.
Proof.
  intros H. apply last_Some in H as [l' ->]. apply elem_of_app. right.
  apply list_elem_of_singleton. reflexivity.
Qed.

Section WorklistAccepted.

Context (gs : GlobalState) (pkg : PackageInfo).
Context (pkgNamespaces : gset ClassOrModuleRef) (fuel : nat).

Lemma emit_worklistAccepted :
  Holds (worklistAccepted gs pkg pkgNamespaces fuel) (fun msg => msg <> "Invalid klass")
        (emit gs pkg pkgNamespaces fuel).
Proof.
  apply (emit_holds gs pkg pkgNamespaces fuel
           (fun _ => worklistAccepted gs pkg pkgNamespaces fuel)
           (fun msg => msg <> "Invalid klass")); try (intros; assumption);
    try discriminate; unfold worklistAccepted; simpl.
  - intros _ st s Hfresh _ Hacc Hinv x Hx.
    apply elem_of_app in Hx as [Hx | Hx].
    + destruct (Hinv x Hx) as [Hin Hk]. split; [apply elem_of_union_r, Hin | exact Hk].
    + apply list_elem_of_singleton in Hx. subst x.
      split; [apply elem_of_union_l, elem_of_singleton; reflexivity | intros _; exact Hacc].
  - intros _ st s _ _ Hinv x Hx. destruct (Hinv x Hx) as [Hin Hk].
    split; [apply elem_of_union_r, Hin | exact Hk].
  - intros _ st Hinv x Hx. apply Hinv, removelast_elem, Hx.
  - intros _ st s Hinv Hlast Hkind. right. apply last_elem in Hlast.
    destruct (Hinv s Hlast) as [Hin Hk]. split; [exact Hin | apply Hk, Hkind].
  - exact 0.
Qed.

End WorklistAccepted.

(** X6: The fatal error ["Invalid klass"] is out of reach of a run: the worklist
    only ever holds symbols that are marked, and classes that the ownership
    walk accepted, so the check at the head of [emit(ClassOrModuleRef)]
    never fails on a symbol taken off the worklist. *)
Theorem invalid_klass_never_raised gs pkg pkgNamespaces fuel :
  runOnce gs pkg pkgNamespaces fuel <> Raise "Invalid klass".
Proof.
  unfold runOnce.
  pose proof (emit_worklistAccepted gs pkg pkgNamespaces fuel initialExporter) as Hrun.
  destruct (emit gs pkg pkgNamespaces fuel initialExporter) as [[output st']| |];
    try discriminate.
  intros Hmsg. inversion Hmsg; subst msg. apply Hrun; [| reflexivity].
  intros s Hs. inversion Hs.
Qed.

(** ** Indentation *)

Section Indentation.

Context (gs : GlobalState) (pkg : PackageInfo).
Context (pkgNamespaces : gset ClassOrModuleRef) (fuel : nat).

Lemma indentedAt_tab i st :
  indentedAt i st -> indentedAt (i + 1) (set_out (Output_tab (out st)) st).
Proof. intros [Hi Ht]. unfold indentedAt. simpl. rewrite Hi. split; reflexivity. Qed.

Lemma indentedAt_untab i st :
  indentedAt (i + 1) st -> indentedAt i (set_out (Output_untab (out st)) st).
Proof.
  intros [Hi Ht]. unfold indentedAt. simpl. rewrite Hi.
  replace (i + 1 - 1) with i by lia. split; reflexivity.
Qed.

Lemma emitLoop_indentedAt i :
  Holds (indentedAt i) (fun _ => True) (emitLoop gs pkg pkgNamespaces fuel).
Proof.
  apply (emitLoop_holds gs pkg pkgNamespaces fuel indentedAt (fun _ => True));
    try (intros; assumption); try exact I.
  - apply indentedAt_tab.
  - apply indentedAt_untab.
  - intros. left. exact I.
Qed.

Lemma emit_klass_indentedAt i klass :
  Holds (indentedAt i) (fun _ => True) (emit_klass gs pkg pkgNamespaces fuel klass).
Proof.
  intros st Hst.
  apply (emit_klass_holds gs pkg pkgNamespaces fuel indentedAt (fun _ => True));
    try (intros; assumption); try exact I.
  - apply indentedAt_tab.
  - apply indentedAt_untab.
  - left. exact I.
Qed.

Lemma emit_method_indentedAt i method fields :
  Holds (indentedAt i) (fun _ => True) (emit_method gs pkg pkgNamespaces fuel method fields).
Proof.
  apply (emit_method_holds gs pkg pkgNamespaces fuel indentedAt (fun _ => True));
    try (intros; assumption); try exact I.
  - apply indentedAt_tab.
  - apply indentedAt_untab.
Qed.

End Indentation.

(** X7: The indentation is balanced: whatever a class, a method or the whole
    worklist renders, and however deep the blocks inside go, a run that
    returns leaves the indentation level and the tab string as they were. *)
Theorem indentation_restored gs pkg pkgNamespaces fuel i st :
  indentedAt i st ->
  (forall klass st',
      emit_klass gs pkg pkgNamespaces fuel klass st = Ok (tt, st') -> indentedAt i st')
  /\ (forall method fields fields' st',
        emit_method gs pkg pkgNamespaces fuel method fields st = Ok (fields', st') ->
        indentedAt i st')
  /\ (forall st', emitLoop gs pkg pkgNamespaces fuel st = Ok (tt, st') -> indentedAt i st').
Proof.
  intros Hst. split; [| split].
  - intros klass st' Hrun.
    exact (holds_ok _ _ _ _ _ _ (emit_klass_indentedAt gs pkg pkgNamespaces fuel i klass)
                    Hst Hrun).
  - intros method fields fields' st' Hrun.
    exact (holds_ok _ _ _ _ _ _
             (emit_method_indentedAt gs pkg pkgNamespaces fuel i method fields) Hst Hrun).
  - intros st' Hrun.
    exact (holds_ok _ _ _ _ _ _ (emitLoop_indentedAt gs pkg pkgNamespaces fuel i) Hst Hrun).
Qed.

(** [P::Point], marked and rendered on an output that is not indented. *)
Lemma indentation_restored_witness :
  exists st',
    emit_klass World.gs World.pkgP World.namespaces World.fuel 11
               (mkExporter {[classSym 11]} ∅ ∅ [] initialOutput) = Ok (tt, st')
    /\ indentedAt 0 st'.
Proof.
  destruct (emit_klass World.gs World.pkgP World.namespaces World.fuel 11
                       (mkExporter {[classSym 11]} ∅ ∅ [] initialOutput))
    as [[[] st']| |] eqn:Hrun; try (vm_compute in Hrun; discriminate Hrun).
  exists st'. split; [reflexivity |].
  apply (proj1 (indentation_restored World.gs World.pkgP World.namespaces World.fuel 0
                  (mkExporter {[classSym 11]} ∅ ∅ [] initialOutput)
                  ltac:(split; reflexivity)) 11%N st' Hrun).
Defined.

(** ** The buffer *)

Lemma completeLines_line (text line : string) :
  completeLines (text +:+ line +:+ newline).
Proof. right. exists (text +:+ line). rewrite append_assoc. reflexivity. Qed.

Lemma appended_refl st : appended (out_buf (out st)) st.
Proof. exists EmptyString. split; [rewrite append_nil_r; reflexivity | left; reflexivity]. Qed.

Lemma appended_line base st line :
  appended base st -> appended base (set_out (Output_append (line +:+ newline) (out st)) st).
Proof.
  intros (text & Hbuf & _). exists (text +:+ line +:+ newline). simpl.
  split; [rewrite Hbuf, append_assoc; reflexivity | apply completeLines_line].
Qed.

Lemma appended_printlnf base st line :
  appended base st -> appended base (set_out (Output_printlnf line (out st)) st).
Proof.
  intros H. unfold Output_printlnf. rewrite <- append_assoc. apply appended_line, H.
Qed.

Lemma appended_println base st arg :
  appended base st -> appended base (set_out (Output_println arg (out st)) st).
Proof.
  intros H. unfold Output_println. rewrite <- append_assoc. apply appended_line, H.
Qed.

Section Passes.

Context (gs : GlobalState) (pkg : PackageInfo).
Context (pkgNamespaces : gset ClassOrModuleRef) (fuel : nat).

Lemma productionPass_runs roots st stub deps st1 :
  productionPass gs pkg pkgNamespaces fuel roots st = Ok ((stub, deps), st1) ->
  (roots = [] /\ stub = EmptyString /\ deps = EmptyString /\ st1 = st)
  \/ (roots <> []
      /\ exists sa sb,
           forEach roots (maybeEmit gs pkg pkgNamespaces fuel) st = Ok (tt, sa)
           /\ emitLoop gs pkg pkgNamespaces fuel sa = Ok (tt, sb)
           /\ stub = typedHeader +:+ out_buf (out sb)
           /\ st1 = handedOver sb
           /\ deps = dependenciesText gs st1).
Proof.
  unfold productionPass. intros H.
  destruct (bool_decide (roots = [])) eqn:Hroots; simpl in H.
  - apply bool_decide_eq_true in Hroots. inversion H; subst. left. repeat split.
  - apply bool_decide_eq_false in Hroots. right. split; [exact Hroots |].
    apply bind_inv in H as ([] & sa & Ha & H). apply bind_inv in H as ([] & sb & Hb & H).
    apply bind_inv in H as (text & sc & Hc & H). inversion Hc; subst text sc.
    unfold dependencies in H. inversion H; subst.
    exists sa, sb. repeat split; assumption.
Qed.

Lemma testPass_runs testRoots st stub deps st2 :
  testPass gs pkg pkgNamespaces fuel testRoots st = Ok ((stub, deps), st2) ->
  (testRoots = [] /\ stub = EmptyString /\ deps = EmptyString /\ st2 = st)
  \/ (testRoots <> []
      /\ exists sa sb,
           forEach testRoots (maybeEmit gs pkg pkgNamespaces fuel) st = Ok (tt, sa)
           /\ emitLoop gs pkg pkgNamespaces fuel sa = Ok (tt, sb)
           /\ st2 = handedOver sb
           /\ ((out_buf (out sb) = EmptyString /\ stub = EmptyString /\ deps = EmptyString)
               \/ (out_buf (out sb) <> EmptyString
                   /\ stub = typedHeader +:+ out_buf (out sb)
                   /\ deps = dependenciesText gs st2))).
Proof.
  unfold testPass. intros H.
  destruct (bool_decide (testRoots = [])) eqn:Hroots; simpl in H.
  - apply bool_decide_eq_true in Hroots. inversion H; subst. left. repeat split.
  - apply bool_decide_eq_false in Hroots. right. split; [exact Hroots |].
    apply bind_inv in H as ([] & sa & Ha & H). apply bind_inv in H as ([] & sb & Hb & H).
    apply bind_inv in H as (text & sc & Hc & H). inversion Hc; subst text sc.
    exists sa, sb. split; [exact Ha |]. split; [exact Hb |].
    destruct (out_buf (out sb)) as [|c rest] eqn:Hbuf; simpl in H.
    + inversion H; subst. split; [reflexivity |]. left. repeat split.
    + unfold dependencies in H. inversion H; subst. split; [reflexivity |].
      right. repeat split. discriminate.
Qed.

Lemma emitLoop_appended base :
  Holds (appended base) (fun _ => True) (emitLoop gs pkg pkgNamespaces fuel).
Proof.
  apply (emitLoop_holds gs pkg pkgNamespaces fuel (fun _ => appended base) (fun _ => True));
    try (intros; assumption); try exact I.
  - intros. apply appended_printlnf. assumption.
  - intros. apply appended_println. assumption.
  - intros. left. exact I.
  - exact 0.
Qed.

Lemma maybeEmit_appended base symbol :
  Holds (appended base) (fun _ => True) (maybeEmit gs pkg pkgNamespaces fuel symbol).
Proof.
  apply (maybeEmit_holds gs pkg pkgNamespaces fuel (fun _ => appended base) (fun _ => True));
    try (intros; assumption). exact 0.
Qed.

(** The text a pass renders, from a buffer that holds [base]. *)
Lemma pass_appended base roots st sa sb :
  appended base st ->
  forEach roots (maybeEmit gs pkg pkgNamespaces fuel) st = Ok (tt, sa) ->
  emitLoop gs pkg pkgNamespaces fuel sa = Ok (tt, sb) ->
  appended base sb.
Proof.
  intros Hst Ha Hb.
  eapply holds_ok; [apply emitLoop_appended | | exact Hb].
  eapply holds_ok; [| exact Hst | exact Ha].
  apply holds_forEach. intros s. apply maybeEmit_appended.
Qed.

End Passes.

Lemma completeLines_stub (text : string) :
  completeLines text -> completeLines (typedHeader +:+ text).
Proof.
  intros [-> | [t ->]].
  - right. exists ("# typed: true" +:+ newline). reflexivity.
  - right. exists (typedHeader +:+ t). rewrite append_assoc. reflexivity.
Qed.

(** X8: Every stub is made of complete lines: [emitLoop] only ever appends
    complete lines to the buffer, never touching what the buffer holds, and
    a stub is the header and the lines of one pass. *)
Theorem stubs_are_complete_lines gs pkg pkgNamespaces fuel :
  (forall st st',
      emitLoop gs pkg pkgNamespaces fuel st = Ok (tt, st') ->
      exists text, out_buf (out st') = out_buf (out st) +:+ text /\ completeLines text)
  /\ (forall output,
        runOnce gs pkg pkgNamespaces fuel = Ok output ->
        completeLines (rbi output) /\ completeLines (testRBI output)).
Proof.
  split.
  - intros st st' Hrun.
    exact (holds_ok _ _ _ _ _ _ (emitLoop_appended gs pkg pkgNamespaces fuel _)
                    (appended_refl st) Hrun).
  - intros output Hrun. unfold runOnce in Hrun.
    destruct (emit gs pkg pkgNamespaces fuel initialExporter) as [[out0 st']| |] eqn:Hemit;
      try discriminate Hrun.
    inversion Hrun; subst out0. clear Hrun.
    apply emit_inv in Hemit
      as (roots & testRoots & stub & deps & st1 & testStub & testDeps
          & Hsplit & Hprod & Htest & ->).
    simpl.
    apply productionPass_runs in Hprod
      as [(_ & -> & _ & ->) | (_ & sa & sb & Ha & Hb & -> & -> & _)].
    + split; [left; reflexivity |].
      apply testPass_runs in Htest
        as [(_ & -> & _) | (_ & ta & tb & Ha & Hb & _ & [(_ & -> & _) | (_ & -> & _)])];
        try (left; reflexivity).
      apply completeLines_stub.
      destruct (pass_appended gs pkg pkgNamespaces fuel _ _ _ _ _
                  (appended_refl initialExporter) Ha Hb) as (text & -> & Hlines).
      exact Hlines.
    + destruct (pass_appended gs pkg pkgNamespaces fuel _ _ _ _ _
                  (appended_refl initialExporter) Ha Hb) as (text & Hbuf & Hlines).
      split; [apply completeLines_stub; rewrite Hbuf; exact Hlines |].
      apply testPass_runs in Htest
        as [(_ & -> & _) | (_ & ta & tb & Hta & Htb & _ & [(_ & -> & _) | (_ & -> & _)])];
        try (left; reflexivity).
      apply completeLines_stub.
      destruct (pass_appended gs pkg pkgNamespaces fuel _ _ _ _ _
                  (appended_refl (handedOver sb)) Hta Htb) as (text' & -> & Hlines').
      exact Hlines'.
Qed.

(** ** The block of a class *)

Section ClassBlock.

Context (gs : GlobalState) (pkg : PackageInfo).
Context (pkgNamespaces : gset ClassOrModuleRef) (fuel : nat).

Lemma emit_klass_body_rendering base i klass isEnum isStruct isFlatFile :
  Holds (rendering base i) (fun _ => True)
        (emit_klass_body gs pkg pkgNamespaces fuel klass isEnum isStruct isFlatFile).
Proof.
  apply (emit_klass_body_holds gs pkg pkgNamespaces fuel (rendering base) (fun _ => True));
    try (intros; assumption); try exact I; unfold rendering.
  - intros j st line [Hi Ha]. split; [exact Hi | apply appended_printlnf, Ha].
  - intros j st arg [Hi Ha]. split; [exact Hi | apply appended_println, Ha].
  - intros j st [Hi Ha]. split; [apply indentedAt_tab, Hi | exact Ha].
  - intros j st [Hi Ha]. split; [apply indentedAt_untab, Hi | exact Ha].
Qed.

Lemma maybeEmit_keeps_out symbol st st' :
  maybeEmit gs pkg pkgNamespaces fuel symbol st = Ok (tt, st') -> out st' = out st.
Proof.
  intros Hrun.
  refine (holds_ok (fun s => out s = out st) (fun _ => True) _ _ _ _ _ eq_refl Hrun).
  apply (maybeEmit_holds gs pkg pkgNamespaces fuel (fun _ s => out s = out st) (fun _ => True));
    try (intros; assumption). exact 0.
Qed.

(** A run of [emit(ClassOrModuleRef)] that returns for a class that it
    renders has printed the class definition line on the output it started
    with, run the body one level deeper, and printed [end]. *)
Lemma emit_klass_rendered klass st st' :
  rendersClass gs klass = true ->
  emit_klass gs pkg pkgNamespaces fuel klass st = Ok (tt, st') ->
  exists isFlatFile s2 s4,
    withIndent (emit_klass_body gs pkg pkgNamespaces fuel klass
                  (N.eqb (co_superClass (classOrModuleData gs klass)) (Symbols_T_Enum gs))
                  (N.eqb (co_superClass (classOrModuleData gs klass)) (Symbols_T_Struct gs))
                  isFlatFile)
               (set_out (Output_printlnf (classHeader gs klass) (out st)) s2)
    = Ok (tt, s4)
    /\ println "end" s4 = Ok (tt, st').
Proof.
  intros Hrenders Hrun. unfold emit_klass in Hrun.
  apply andb_prop in Hrenders as [Henum Hinternal].
  apply negb_true_iff in Henum. apply negb_true_iff in Hinternal.
  apply bind_inv in Hrun as (inPackage & s0 & Hwalk & Hrun).
  apply isInPackage_fuel_keeps in Hwalk as (_ & _ & Hout0).
  apply bind_inv in Hrun as (emitted & s0' & Hgets & Hrun). inversion Hgets; subst emitted s0'.
  destruct (negb inPackage || negb (bool_decide (classSym klass ∈ emittedSymbols s0)));
    [discriminate Hrun |].
  rewrite Henum, Hinternal in Hrun.
  apply bind_inv in Hrun as (isFlatFile & s1 & Hflat & Hrun).
  assert (s1 = s0) as ->.
  { unfold isFlatfile, liftResult in Hflat.
    destruct (isFlatfile_fuel gs fuel klass); inversion Hflat; reflexivity. }
  apply bind_inv in Hrun as (superClassString & s2 & Hsuper & Hrun).
  assert (Hs2 : out s2 = out st
                /\ (if co_isClassOrModuleClass (classOrModuleData gs klass)
                    then "class" else "module")
                   +:+ " " +:+ co_show (classOrModuleData gs klass) +:+ superClassString
                   = classHeader gs klass).
  { unfold classHeader.
    destruct (ref_exists (co_superClass (classOrModuleData gs klass))
              && negb (N.eqb (co_superClass (classOrModuleData gs klass))
                             (Symbols_Sorbet_Private_Static_ImplicitModuleSuperClass gs))).
    - apply bind_inv in Hsuper as ([] & s' & Hmaybe & Hret). inversion Hret; subst.
      apply maybeEmit_keeps_out in Hmaybe. split; [congruence | reflexivity].
    - inversion Hsuper; subst. split; [exact Hout0 | reflexivity]. }
  destruct Hs2 as [Hout2 Hheader].
  apply bind_inv in Hrun as ([] & s3 & Hline & Hrun).
  unfold printlnf, modify in Hline. inversion Hline as [Hs3]. clear Hline.
  rewrite Hheader, Hout2 in Hs3.
  subst s3. apply bind_inv in Hrun as ([] & s4 & Hbody & Hrun).
  exists isFlatFile, s2, s4. split; [exact Hbody | exact Hrun].
Qed.

End ClassBlock.

(** X9: A class is rendered as a block: the class definition line at the
    indentation of the output, then complete lines, then [end] at the same
    indentation. *)
Theorem class_rendered_as_block gs pkg pkgNamespaces fuel klass i st st' :
  indentedAt i st ->
  rendersClass gs klass = true ->
  emit_klass gs pkg pkgNamespaces fuel klass st = Ok (tt, st') ->
  exists body,
    completeLines body
    /\ out_buf (out st')
       = out_buf (out st)
         +:+ (spaces (Z.to_nat (i * 2)) +:+ classHeader gs klass +:+ newline)
         +:+ body
         +:+ (spaces (Z.to_nat (i * 2)) +:+ "end" +:+ newline).
Proof.
  intros Hindent Hrenders Hrun.
  apply emit_klass_rendered in Hrun as (isFlatFile & s2 & s4 & Hbody & Hrun);
    [| exact Hrenders].
  remember (set_out (Output_printlnf (classHeader gs klass) (out st)) s2) as s3 eqn:Hs3.
  symmetry in Hs3.
  destruct Hindent as [Hi Htab].
  assert (Hs3r : rendering (out_buf (out s3)) i s3).
  { split; [| apply appended_refl]. rewrite <- Hs3. split; simpl; assumption. }
  assert (Hs4 : rendering (out_buf (out s3)) i s4).
  { refine (holds_ok _ (fun _ => True) _ _ _ _ _ Hs3r Hbody).
    apply (withIndent_holds (rendering (out_buf (out s3))) (fun _ => True)).
    - intros j s [Hj Ha]. split; [apply indentedAt_tab, Hj | exact Ha].
    - intros j s [Hj Ha]. split; [apply indentedAt_untab, Hj | exact Ha].
    - intros j. apply emit_klass_body_rendering. }
  destruct Hs4 as [[Hi4 Htab4] (body & Hbuf4 & Hlines)].
  unfold println, modify in Hrun. inversion Hrun as [Hst']. clear Hrun.
  exists body. split; [exact Hlines |]. simpl.
  rewrite Hbuf4, Htab4, <- Hs3. simpl. rewrite Htab.
  rewrite !append_assoc. reflexivity.
Qed.

(** The block of [P::Point]. *)
Lemma class_rendered_as_block_witness :
  exists st' body,
    emit_klass World.gs World.pkgP World.namespaces World.fuel 11
               (mkExporter {[classSym 11]} ∅ ∅ [] initialOutput) = Ok (tt, st')
    /\ completeLines body
    /\ out_buf (out st')
       = ("class P::Point < T::Struct" +:+ newline) +:+ body +:+ ("end" +:+ newline).
Proof.
  destruct (emit_klass World.gs World.pkgP World.namespaces World.fuel 11
                       (mkExporter {[classSym 11]} ∅ ∅ [] initialOutput))
    as [[[] st']| |] eqn:Hrun; try (vm_compute in Hrun; discriminate Hrun).
  destruct (class_rendered_as_block World.gs World.pkgP World.namespaces World.fuel 11 0
              (mkExporter {[classSym 11]} ∅ ∅ [] initialOutput) st'
              ltac:(split; reflexivity) ltac:(vm_compute; reflexivity) Hrun)
    as (body & Hlines & Hbuf).
  exists st', body. split; [reflexivity |]. split; [exact Hlines | exact Hbuf].
Defined.

(** ** What the accumulators hold *)

Section ManifestSound.

Context (gs : GlobalState) (pkg : PackageInfo).
Context (pkgNamespaces : gset ClassOrModuleRef) (fuel : nat).

Lemma manifestSound_package st package blame j :
  (j <= fuel)%nat ->
  reachesForeignPackage gs pkg pkgNamespaces blame j package ->
  manifestSound gs pkg pkgNamespaces fuel st ->
  manifestSound gs pkg pkgNamespaces fuel
    (mkExporter (emittedSymbols st) (<[package := blame]> (referencedPackages st))
                (referencedRBIs st) (toEmit st) (out st)).
Proof.
  intros Hj Hreach [Hp Hr]. split; [| exact Hr]. simpl. intros k b Hk.
  destruct (decide (package = k)) as [<- | Hne].
  - rewrite lookup_insert_eq in Hk. inversion Hk; subst b. exists j. split; assumption.
  - rewrite lookup_insert_ne in Hk by exact Hne. apply (Hp k b Hk).
Qed.

Lemma manifestSound_rbi st original j :
  (j <= fuel)%nat ->
  reachesGlobalRoot gs pkg pkgNamespaces original j ->
  definedInLegacyRBI gs original = true ->
  manifestSound gs pkg pkgNamespaces fuel st ->
  manifestSound gs pkg pkgNamespaces fuel
    (mkExporter (emittedSymbols st) (referencedPackages st)
                ({[loc_file (SymbolRef_loc gs original)]} ∪ referencedRBIs st)
                (toEmit st) (out st)).
Proof.
  intros Hj Hreach Hrbi [Hp Hr]. split; [exact Hp |]. simpl. intros file Hfile.
  apply elem_of_union in Hfile as [Hfile | Hfile]; [| apply Hr, Hfile].
  apply elem_of_singleton in Hfile. subst file. exists original, j.
  split; [exact Hj |]. split; [exact Hreach |]. split; [exact Hrbi | reflexivity].
Qed.

Lemma productionPass_manifestSound roots :
  Holds (manifestSound gs pkg pkgNamespaces fuel) (fun _ => True)
        (productionPass gs pkg pkgNamespaces fuel roots).
Proof.
  apply (productionPass_holds gs pkg pkgNamespaces fuel
           (fun _ => manifestSound gs pkg pkgNamespaces fuel) (fun _ => True));
    try (intros; assumption); try exact I.
  - intros _ st package blame j. apply manifestSound_package.
  - intros _ st original j. apply manifestSound_rbi.
  - intros. left. exact I.
  - exact 0.
Qed.

Lemma testPass_manifestSound testRoots :
  Holds (manifestSound gs pkg pkgNamespaces fuel) (fun _ => True)
        (testPass gs pkg pkgNamespaces fuel testRoots).
Proof.
  apply (testPass_holds gs pkg pkgNamespaces fuel
           (fun _ => manifestSound gs pkg pkgNamespaces fuel) (fun _ => True));
    try (intros; assumption); try exact I.
  - intros _ st package blame j. apply manifestSound_package.
  - intros _ st original j. apply manifestSound_rbi.
  - intros. left. exact I.
  - exact 0.
Qed.

End ManifestSound.

(** X10: The manifests only name what was referenced: a package is in a manifest
    only if it is the namespace of another known package -- never the
    package's own production or test namespace, never a root -- and the
    owner chain of the symbol blamed for it reaches that namespace; a file
    is in a manifest only if it is an RBI file outside the payload in which
    a symbol that belongs to no package is defined. *)
Theorem manifests_name_only_what_was_referenced gs pkg pkgNamespaces fuel output :
  runOnce gs pkg pkgNamespaces fuel = Ok output ->
  (rbi output <> EmptyString ->
   exists st1,
     rbiPackageDependencies output = dependenciesText gs st1
     /\ manifestSound gs pkg pkgNamespaces fuel st1)
  /\ (testRBI output <> EmptyString ->
      exists st2,
        testRBIPackageDependencies output = dependenciesText gs st2
        /\ manifestSound gs pkg pkgNamespaces fuel st2).
Proof.
  intros Hrun. unfold runOnce in Hrun.
  destruct (emit gs pkg pkgNamespaces fuel initialExporter) as [[out0 st']| |] eqn:Hemit;
    try discriminate Hrun.
  inversion Hrun; subst out0. clear Hrun.
  apply emit_inv in Hemit
    as (roots & testRoots & stub & deps & st1 & testStub & testDeps
        & Hsplit & Hprod & Htest & ->).
  simpl.
  assert (Hinit : manifestSound gs pkg pkgNamespaces fuel initialExporter).
  { split; simpl.
    - intros package blame H. rewrite lookup_empty in H. discriminate H.
    - intros file H. apply not_elem_of_empty in H. contradiction. }
  assert (Hst1 : manifestSound gs pkg pkgNamespaces fuel st1)
    by exact (holds_ok _ _ _ _ _ _ (productionPass_manifestSound gs pkg pkgNamespaces fuel roots)
                       Hinit Hprod).
  assert (Hst' : manifestSound gs pkg pkgNamespaces fuel st')
    by exact (holds_ok _ _ _ _ _ _ (testPass_manifestSound gs pkg pkgNamespaces fuel _)
                       Hst1 Htest).
  split; intros Hstub.
  - exists st1. split; [eapply productionPass_inv; eassumption | exact Hst1].
  - exists st'. split; [eapply testPass_inv; eassumption | exact Hst'].
Qed.

(** Package [P] exporting [P::A], and [P::Point] to its tests. *)
Lemma manifests_name_only_what_was_referenced_witness :
  exists output st1,
    runOnce World.gs World.pkgP_point World.namespaces World.fuel = Ok output
    /\ rbiPackageDependencies output = dependenciesText World.gs st1
    /\ manifestSound World.gs World.pkgP_point World.namespaces World.fuel st1.
Proof.
  eexists.
  destruct (proj1 (manifests_name_only_what_was_referenced World.gs World.pkgP_point
                     World.namespaces World.fuel _ ltac:(vm_compute; reflexivity)))
    as (st1 & Hdeps & Hsound).
  - vm_compute. discriminate.
  - exists st1. split; [vm_compute; reflexivity |]. split; [exact Hdeps | exact Hsound].
Defined.

(** ** What the visited set holds *)

Section VisitedOwn.

Context (gs : GlobalState) (pkg : PackageInfo).
Context (pkgNamespaces : gset ClassOrModuleRef) (fuel : nat).

Lemma emit_visitedOwn :
  Holds (visitedOwn gs pkg pkgNamespaces fuel) (fun _ => True) (emit gs pkg pkgNamespaces fuel).
Proof.
  apply (emit_holds gs pkg pkgNamespaces fuel
           (fun _ => visitedOwn gs pkg pkgNamespaces fuel) (fun _ => True));
    try (intros; assumption); try exact I; unfold visitedOwn; simpl.
  - intros _ st s _ Hsingleton Hacc Hinv x Hx.
    apply elem_of_union in Hx as [Hx | Hx]; [| apply Hinv, Hx].
    apply elem_of_singleton in Hx. subst x. split; [exact Hsingleton | intros _ _; exact Hacc].
  - intros _ st s _ Hkind Hinv x Hx.
    apply elem_of_union in Hx as [Hx | Hx]; [| apply Hinv, Hx].
    apply elem_of_singleton in Hx. subst x. split.
    + unfold isSingletonClassSymbol, isClassOrModule. destruct Hkind as [-> | ->]; reflexivity.
    + intros Hm Ht. destruct Hkind; contradiction.
  - intros. left. exact I.
  - exact 0.
Qed.

End VisitedOwn.

(** X11: What a run marks visited is the package's own: no symbol of the visited
    set is a singleton class -- a singleton class stands for its attached
    class -- and every class, module and static field of it is a symbol that
    the ownership walk accepts. Only methods and type members are marked on
    the say-so of the class that holds them. *)
Theorem visited_symbols_are_own gs pkg pkgNamespaces fuel output st' :
  emit gs pkg pkgNamespaces fuel initialExporter = Ok (output, st') ->
  forall s, s ∈ emittedSymbols st' ->
    isSingletonClassSymbol gs s = false
    /\ (kind s <> Method -> kind s <> TypeMember -> accepted gs pkg pkgNamespaces fuel s).
Proof.
  intros Hrun.
  refine (holds_ok _ _ _ _ _ _ (emit_visitedOwn gs pkg pkgNamespaces fuel) _ Hrun).
  intros s Hs. apply not_elem_of_empty in Hs. contradiction.
Qed.

(** Package [P] exporting [P::A], and [P::Point] to its tests. *)
Lemma visited_symbols_are_own_witness :
  exists output st',
    emit World.gs World.pkgP_point World.namespaces World.fuel initialExporter
    = Ok (output, st')
    /\ forall s, s ∈ emittedSymbols st' ->
         isSingletonClassSymbol World.gs s = false
         /\ (kind s <> Method -> kind s <> TypeMember ->
             accepted World.gs World.pkgP_point World.namespaces World.fuel s).
Proof.
  destruct (emit World.gs World.pkgP_point World.namespaces World.fuel initialExporter)
    as [[output st']| |] eqn:Hrun; try (vm_compute in Hrun; discriminate Hrun).
  exists output, st'. split; [reflexivity |].
  apply (visited_symbols_are_own World.gs World.pkgP_point World.namespaces World.fuel
           output st' Hrun).
Defined.

(** ** What the worklist renders *)

Lemma last_snoc {A} (l : list A) (x : A) : last (l ++ [x]) = Some x.
Proof. induction l as [|y l IH]; [reflexivity |]. simpl. destruct (l ++ [x])%list eqn:E.
  - destruct l; discriminate E.
  - exact IH.
Qed.

Lemma removelast_snoc {A} (l : list A) (x : A) : removelast (l ++ [x]) = l.
Proof. apply removelast_last. Qed.

(** X12: [emitLoop] renders classes, modules and static fields only: a method, a
    type member or a type argument that it takes off the worklist is
    dropped, since the closure builder marked it before it enqueued it, and
    [emit(MethodRef)] passes over a marked method. *)
Theorem worklist_renders_no_method gs pkg pkgNamespaces fuel n st front s :
  toEmit st = (front ++ [s])%list ->
  s ∈ emittedSymbols st ->
  kind s = Method \/ kind s = TypeMember \/ kind s = TypeArgument ->
  emitLoop_fuel gs pkg pkgNamespaces fuel (S n) st
  = emitLoop_fuel gs pkg pkgNamespaces fuel n (withWorklist front st).
Proof.
  intros Hqueue Hmarked Hkind.
  cbn [emitLoop_fuel]. erewrite bind_ok by reflexivity.
  rewrite Hqueue, last_snoc. unfold bind at 1. unfold popToEmit, modify.
  rewrite Hqueue, removelast_snoc. fold (withWorklist front st).
  destruct s as [k ix]. simpl in Hkind.
  destruct Hkind as [-> | [-> | ->]]; cbn [kind idx]; try reflexivity.
  unfold bind at 1. unfold bind at 1. unfold emit_method.
  erewrite bind_ok by reflexivity.
  rewrite bool_decide_eq_true_2 by exact Hmarked. reflexivity.
Qed.

(** [P::Fwd#show] on the worklist, as the closure builder leaves a method
    that a type names: marked and enqueued. *)
Lemma worklist_renders_no_method_witness :
  emitLoop_fuel World.gs World.pkgP World.namespaces World.fuel 1
                (mkExporter {[methodSym 9]} ∅ ∅ [methodSym 9] initialOutput)
  = emitLoop_fuel World.gs World.pkgP World.namespaces World.fuel 0
                  (withWorklist [] (mkExporter {[methodSym 9]} ∅ ∅ [methodSym 9] initialOutput)).
Proof.
  apply (worklist_renders_no_method World.gs World.pkgP World.namespaces World.fuel 0
           (mkExporter {[methodSym 9]} ∅ ∅ [methodSym 9] initialOutput) [] (methodSym 9)).
  - reflexivity.
  - cbn [emittedSymbols]. apply elem_of_singleton. reflexivity.
  - left. reflexivity.
Defined.

Section TestPass.

Context (gs : GlobalState) (pkg : PackageInfo).
Context (pkgNamespaces : gset ClassOrModuleRef) (fuel : nat).

Lemma forEach_maybeEmit_visited (roots : list SymbolRef) st :
  Forall (fun s => exists target,
                     attachedTarget gs fuel s = Some target /\ target ∈ emittedSymbols st) roots ->
  forEach roots (maybeEmit gs pkg pkgNamespaces fuel) st = Ok (tt, st).
Proof.
  induction 1 as [|s roots (target & Htarget & Hin) _ IH]; [reflexivity |].
  cbn [forEach]. unfold bind.
  rewrite (maybeEmit_visited gs pkg pkgNamespaces fuel s target st Htarget Hin). exact IH.
Qed.

Lemma emitLoop_idle st :
  toEmit st = [] -> emitLoop gs pkg pkgNamespaces fuel st = Ok (tt, st).
Proof.
  intros Hqueue. unfold emitLoop.
  destruct fuel; cbn [emitLoop_fuel]; erewrite bind_ok by reflexivity;
    rewrite Hqueue; reflexivity.
Qed.

End TestPass.

(** X13: A test pass whose exports are all marked already -- symbols that the
    production pass has rendered, such as a symbol exported and exported for
    tests as well -- renders nothing: there is no test stub and no test
    manifest, and the visited set and the accumulators are as the
    production pass left them. *)
Theorem test_pass_of_visited_exports_is_empty gs pkg pkgNamespaces fuel testRoots st :
  Forall (fun s => exists target,
                     attachedTarget gs fuel s = Some target /\ target ∈ emittedSymbols st)
         testRoots ->
  toEmit st = [] ->
  out_buf (out st) = EmptyString ->
  exists st',
    testPass gs pkg pkgNamespaces fuel testRoots st = Ok ((EmptyString, EmptyString), st')
    /\ emittedSymbols st' = emittedSymbols st
    /\ referencedPackages st' = referencedPackages st
    /\ referencedRBIs st' = referencedRBIs st.
Proof.
  intros Hvisited Hqueue Hbuf. unfold testPass.
  destruct (bool_decide (testRoots = [])); cbn [negb].
  - exists st. repeat split.
  - unfold bind at 1. rewrite (forEach_maybeEmit_visited _ _ _ _ _ _ Hvisited).
    unfold bind at 1. rewrite (emitLoop_idle _ _ _ _ _ Hqueue).
    unfold bind at 1. unfold Output_toString at 1. unfold bind, gets, modify. cbn.
    rewrite Hbuf. cbn. eexists. split; [reflexivity |]. repeat split.
Qed.

(** [P::A], rendered by the production pass and exported for tests too. *)
Lemma test_pass_of_visited_exports_is_empty_witness :
  exists st',
    testPass World.gs World.pkgP_forTest World.namespaces World.fuel [classSym 5]
             (mkExporter {[classSym 5]} ∅ ∅ [] initialOutput)
    = Ok ((EmptyString, EmptyString), st')
    /\ emittedSymbols st' = {[classSym 5]}.
Proof.
  destruct (test_pass_of_visited_exports_is_empty World.gs World.pkgP_forTest World.namespaces
              World.fuel [classSym 5] (mkExporter {[classSym 5]} ∅ ∅ [] initialOutput))
    as (st' & Hrun & Hmarks & _).
  - constructor; [| constructor]. exists (classSym 5).
    split; [reflexivity | cbn [emittedSymbols]; apply elem_of_singleton; reflexivity].
  - reflexivity.
  - reflexivity.
  - exists st'. split; [exact Hrun | exact Hmarks].
Defined.

(** ** Types *)

Section ShownTypes.

Context (gs : GlobalState) (pkg : PackageInfo).
Context (pkgNamespaces : gset ClassOrModuleRef) (fuel : nat).

Lemma forEach_maybeEmit_accounts (symbols : list SymbolRef) st st' :
  forEach symbols (maybeEmit gs pkg pkgNamespaces fuel) st = Ok (tt, st') ->
  forall s target,
    s ∈ symbols ->
    attachedTarget gs fuel s = Some target ->
    accountedFor gs pkg pkgNamespaces target st'.
Proof.
  revert st. induction symbols as [|x symbols IH]; intros st Hrun s target Hin Htarget.
  - inversion Hin.
  - cbn [forEach] in Hrun. apply bind_inv in Hrun as ([] & s1 & Hfirst & Hrest).
    apply elem_of_cons in Hin as [-> | Hin].
    + pose proof (maybeEmit_accounts gs pkg pkgNamespaces fuel x target st s1 Htarget Hfirst)
        as Hacc.
      revert Hacc. apply (preserves_forEach _ symbols _
                            (fun later => maybeEmit_accountedFor gs pkg pkgNamespaces fuel
                                            target later) s1 tt st' Hrest).
    + exact (IH s1 Hrest s target Hin Htarget).
Qed.

End ShownTypes.

(** X14: Every symbol of a type that is shown is accounted for: when [showType]
    returns the text of a type, every class, alias and type parameter that
    the type embeds (a singleton class through its attached class) is marked
    for a stub of this package, or has its package among the referenced
    packages, or belongs to no package and has its RBI file, if any, among
    the referenced RBIs. The bounds of a [LambdaParam] are not looked at. *)
Theorem shown_types_are_accounted_for gs pkg pkgNamespaces fuel type st shown st' :
  showType gs pkg pkgNamespaces fuel type st = Ok (shown, st') ->
  forall s target,
    s ∈ symbolsInType type ->
    attachedTarget gs fuel s = Some target ->
    accountedFor gs pkg pkgNamespaces target st'.
Proof.
  intros Hrun s target Hin Htarget. unfold showType in Hrun.
  destruct (is_nullptr type) eqn:Hnull.
  - destruct type; try discriminate Hnull. inversion Hin.
  - apply bind_inv in Hrun as ([] & s1 & Henqueue & Hret). inversion Hret; subst.
    rewrite enqueueSymbolsInType_forEach in Henqueue.
    exact (forEach_maybeEmit_accounts gs pkg pkgNamespaces fuel _ _ _ Henqueue s target
             Hin Htarget).
Qed.

(** The type [Q::B], shown while package [P] is generated. *)
Lemma shown_types_are_accounted_for_witness :
  exists st',
    showType World.gs World.pkgP World.namespaces World.fuel (ClassType 8) initialExporter
    = Ok ("Q::B", st')
    /\ accountedFor World.gs World.pkgP World.namespaces (classSym 8) st'.
Proof.
  destruct (showType World.gs World.pkgP World.namespaces World.fuel (ClassType 8)
                     initialExporter)
    as [[shown st']| |] eqn:Hrun; try (vm_compute in Hrun; discriminate Hrun).
  assert (Hshown : shown = "Q::B") by (vm_compute in Hrun; inversion Hrun; reflexivity).
  subst shown. exists st'. split; [reflexivity |].
  apply (shown_types_are_accounted_for World.gs World.pkgP World.namespaces World.fuel
           (ClassType 8) initialExporter "Q::B" st' Hrun (classSym 8) (classSym 8)).
  - left.
  - reflexivity.
Defined.

(** ** Every class on the worklist is rendered *)

Lemma completeLines_app (a b : string) :
  completeLines a -> completeLines b -> completeLines (a +:+ b).
Proof.
  intros Ha [-> | [t ->]].
  - rewrite append_nil_r. exact Ha.
  - right. exists (a +:+ t). rewrite append_assoc. reflexivity.
Qed.

Lemma last_is_Some {A} (l1 l2 : list A) (x : A) : exists y, last (l1 ++ x :: l2) = Some y.
Proof.
  destruct (last (l1 ++ x :: l2)) as [y|] eqn:Hlast; [exists y; reflexivity |].
  apply last_None in Hlast. destruct l1; discriminate Hlast.
Qed.

Section WorklistRendered.

Context (gs : GlobalState) (pkg : PackageInfo).
Context (pkgNamespaces : gset ClassOrModuleRef) (fuel : nat).
Context (front : list SymbolRef) (base : string).

Lemma stepInv_package i st package blame j :
  (j <= fuel)%nat ->
  reachesForeignPackage gs pkg pkgNamespaces blame j package ->
  stepInv front base i st ->
  stepInv front base i
    (mkExporter (emittedSymbols st) (<[package := blame]> (referencedPackages st))
                (referencedRBIs st) (toEmit st) (out st)).
Proof. intros _ _ H. exact H. Qed.

Lemma stepInv_rbi i st original j :
  (j <= fuel)%nat ->
  reachesGlobalRoot gs pkg pkgNamespaces original j ->
  definedInLegacyRBI gs original = true ->
  stepInv front base i st ->
  stepInv front base i
    (mkExporter (emittedSymbols st) (referencedPackages st)
                ({[loc_file (SymbolRef_loc gs original)]} ∪ referencedRBIs st)
                (toEmit st) (out st)).
Proof. intros _ _ _ H. exact H. Qed.

Lemma stepInv_enqueue i st s :
  s ∉ emittedSymbols st ->
  isSingletonClassSymbol gs s = false ->
  accepted gs pkg pkgNamespaces fuel s ->
  stepInv front base i st ->
  stepInv front base i
    (mkExporter ({[s]} ∪ emittedSymbols st) (referencedPackages st) (referencedRBIs st)
                (toEmit st ++ [s]) (out st)).
Proof.
  intros _ _ _ ((more & Hqueue) & Hi & Ha). split; [| split; assumption].
  exists (more ++ [s])%list. simpl. rewrite Hqueue, app_assoc. reflexivity.
Qed.

Lemma stepInv_mark i st s :
  s ∉ emittedSymbols st ->
  kind s = Method \/ kind s = TypeMember ->
  stepInv front base i st ->
  stepInv front base i
    (mkExporter ({[s]} ∪ emittedSymbols st) (referencedPackages st) (referencedRBIs st)
                (toEmit st) (out st)).
Proof. intros _ _ H. exact H. Qed.

Lemma stepInv_printlnf i st line :
  stepInv front base i st -> stepInv front base i (set_out (Output_printlnf line (out st)) st).
Proof.
  intros (Hq & Hi & Ha). split; [exact Hq |]. split; [exact Hi | apply appended_printlnf, Ha].
Qed.

Lemma stepInv_println i st arg :
  stepInv front base i st -> stepInv front base i (set_out (Output_println arg (out st)) st).
Proof.
  intros (Hq & Hi & Ha). split; [exact Hq |]. split; [exact Hi | apply appended_println, Ha].
Qed.

Lemma stepInv_tab i st :
  stepInv front base i st -> stepInv front base (i + 1) (set_out (Output_tab (out st)) st).
Proof.
  intros (Hq & Hi & Ha). split; [exact Hq |]. split; [apply indentedAt_tab, Hi | exact Ha].
Qed.

Lemma stepInv_untab i st :
  stepInv front base (i + 1) st -> stepInv front base i (set_out (Output_untab (out st)) st).
Proof.
  intros (Hq & Hi & Ha). split; [exact Hq |]. split; [apply indentedAt_untab, Hi | exact Ha].
Qed.

(** Rendering the symbol taken off the worklist. *)
Lemma dispatch_stepInv i symbol st st1 :
  stepInv front base i st ->
  match kind symbol with
  | ClassOrModule => emit_klass gs pkg pkgNamespaces fuel (asClassOrModuleRef symbol)
  | Method => emit_method gs pkg pkgNamespaces fuel (idx symbol) [] >> ret tt
  | FieldOrStaticField => emit_field gs pkg pkgNamespaces fuel (idx symbol) false
  | TypeMember => ret tt
  | TypeArgument => ret tt
  end st = Ok (tt, st1) ->
  stepInv front base i st1.
Proof.
  intros Hst Hrun. destruct (kind symbol).
  - pose proof (emit_klass_holds gs pkg pkgNamespaces fuel (stepInv front base) (fun _ => True)
                  stepInv_package stepInv_rbi stepInv_enqueue stepInv_mark stepInv_printlnf
                  stepInv_println stepInv_tab stepInv_untab I I i (asClassOrModuleRef symbol)
                  st Hst (or_introl I)) as H.
    rewrite Hrun in H. exact H.
  - apply bind_inv in Hrun as (fields & s' & Hrun & Hret). inversion Hret; subst.
    exact (holds_ok _ _ _ _ _ _
             (emit_method_holds gs pkg pkgNamespaces fuel (stepInv front base) (fun _ => True)
                stepInv_package stepInv_rbi stepInv_enqueue stepInv_mark stepInv_printlnf
                stepInv_println stepInv_tab stepInv_untab I I i (idx symbol) [])
             Hst Hrun).
  - exact (holds_ok _ _ _ _ _ _
             (emit_field_holds gs pkg pkgNamespaces fuel (stepInv front base) (fun _ => True)
                stepInv_package stepInv_rbi stepInv_enqueue stepInv_printlnf i (idx symbol)
                false)
             Hst Hrun).
  - inversion Hrun; subst. exact Hst.
  - inversion Hrun; subst. exact Hst.
Qed.

End WorklistRendered.

Section WorklistRenderedLoop.

Context (gs : GlobalState) (pkg : PackageInfo).
Context (pkgNamespaces : gset ClassOrModuleRef) (fuel : nat).

Lemma emitLoop_fuel_renders klass i n st st' front back :
  rendersClass gs klass = true ->
  toEmit st = (front ++ classSym klass :: back)%list ->
  indentedAt i st ->
  emitLoop_fuel gs pkg pkgNamespaces fuel n st = Ok (tt, st') ->
  exists before after,
    completeLines before
    /\ out_buf (out st')
       = out_buf (out st) +:+ before
         +:+ (spaces (Z.to_nat (i * 2)) +:+ classHeader gs klass +:+ newline) +:+ after.
Proof.
  intros Hrenders. revert st back.
  induction n as [|n IH]; intros st back Hqueue Hindent Hrun; cbn [emitLoop_fuel] in Hrun.
  all: apply bind_inv in Hrun as (queue & s0 & Hgets & Hrun); inversion Hgets; subst queue s0.
  all: destruct (last_is_Some front back (classSym klass)) as [symbol Hlast].
  all: rewrite Hqueue, Hlast in Hrun.
  { discriminate Hrun. }
  apply bind_inv in Hrun as ([] & spop & Hpop & Hrun).
  unfold popToEmit, modify in Hpop. inversion Hpop as [Hspop]. clear Hpop.
  apply bind_inv in Hrun as ([] & s1 & Hstep & Hrest).
  destruct (decide (back = [])) as [-> | Hback].
  - (* the class is on top of the worklist *)
    rewrite last_snoc in Hlast. inversion Hlast; subst symbol. cbn [kind classSym] in Hstep.
    assert (Hpopped : indentedAt i spop) by (rewrite <- Hspop; exact Hindent).
    destruct (emit_klass_rendered gs pkg pkgNamespaces fuel klass spop s1 Hrenders Hstep)
      as (isFlatFile & s2 & s4 & Hbody & Hend).
    remember (set_out (Output_printlnf (classHeader gs klass) (out spop)) s2) as s3 eqn:Hs3.
    assert (Hs4 : rendering (out_buf (out s3)) i s4).
    { refine (holds_ok _ (fun _ => True) _ _ _ _ _ _ Hbody).
      - apply (withIndent_holds (rendering (out_buf (out s3))) (fun _ => True)).
        + intros j s [Hj Ha]. split; [apply indentedAt_tab, Hj | exact Ha].
        + intros j s [Hj Ha]. split; [apply indentedAt_untab, Hj | exact Ha].
        + intros j. apply emit_klass_body_rendering.
      - split; [| apply appended_refl]. subst s3. destruct Hpopped as [Hi Htab].
        split; simpl; assumption. }
    destruct Hs4 as [_ (body & Hbuf4 & _)].
    unfold println, modify in Hend. inversion Hend as [Hs1]. clear Hend.
    assert (Hbuf : exists rest,
               out_buf (out s1)
               = out_buf (out spop)
                 +:+ (spaces (Z.to_nat (i * 2)) +:+ classHeader gs klass +:+ newline)
                 +:+ rest).
    { eexists. rewrite <- Hs1. cbn [out set_out Output_println Output_append out_buf].
      rewrite Hbuf4.
      subst s3. cbn [out set_out Output_printlnf Output_append out_buf].
      rewrite (proj2 Hpopped). rewrite !append_assoc. reflexivity. }
    destruct Hbuf as [rest Hbuf].
    destruct (holds_ok _ _ _ _ _ _ (emitLoop_fuel_holds gs pkg pkgNamespaces fuel
                 (fun _ => appended (out_buf (out s1))) (fun _ => True)
                 ltac:(intros; assumption) ltac:(intros; assumption)
                 ltac:(intros; assumption) ltac:(intros; assumption)
                 ltac:(intros; apply appended_printlnf; assumption)
                 ltac:(intros; apply appended_println; assumption)
                 ltac:(intros; assumption) ltac:(intros; assumption)
                 ltac:(intros; assumption) I I ltac:(intros; left; exact I) 0 n)
                (appended_refl s1) Hrest) as (text & Htext & _).
    exists EmptyString, (rest +:+ text).
    split; [left; reflexivity |].
    rewrite Htext, Hbuf. rewrite <- Hspop. cbn [out]. rewrite append_nil_l.
    rewrite !append_assoc. reflexivity.
  - (* another symbol is on top *)
    destruct (exists_last Hback) as (back' & top & ->).
    rewrite app_comm_cons, app_assoc, last_snoc in Hlast. inversion Hlast; subst symbol.
    assert (Hpopped : stepInv (front ++ classSym klass :: back') (out_buf (out st)) i spop).
    { rewrite <- Hspop. split; [| split; [exact Hindent |]].
      2: { exists EmptyString. cbn [out]. rewrite append_nil_r.
           split; [reflexivity | left; reflexivity]. }
      exists []. cbn [toEmit]. rewrite Hqueue, app_comm_cons, app_assoc, removelast_snoc.
      rewrite app_nil_r. reflexivity. }
    destruct (dispatch_stepInv gs pkg pkgNamespaces fuel _ _ i top spop s1 Hpopped Hstep)
      as ((more & Hqueue1) & Hindent1 & (text1 & Hbuf1 & Hlines1)).
    rewrite <- app_assoc in Hqueue1. cbn [app] in Hqueue1.
    destruct (IH s1 (back' ++ more)%list Hqueue1 Hindent1 Hrest)
      as (before & after & Hbefore & Hbuf).
    exists (text1 +:+ before), after. split; [apply completeLines_app; assumption |].
    rewrite Hbuf, Hbuf1. rewrite !append_assoc. reflexivity.
Qed.

End WorklistRenderedLoop.

(** X15: Every class on the worklist is rendered: when [emitLoop] returns, the
    text it has appended to the buffer holds, for every class or module
    that was on the worklist and that is neither a value class of an enum
    nor internal to Sorbet, the class definition line of that class, at the
    indentation the loop started with. *)
Theorem worklist_classes_are_rendered gs pkg pkgNamespaces fuel klass i st st' :
  classSym klass ∈ toEmit st ->
  rendersClass gs klass = true ->
  indentedAt i st ->
  emitLoop gs pkg pkgNamespaces fuel st = Ok (tt, st') ->
  exists before after,
    completeLines before
    /\ out_buf (out st')
       = out_buf (out st) +:+ before
         +:+ (spaces (Z.to_nat (i * 2)) +:+ classHeader gs klass +:+ newline) +:+ after.
Proof.
  intros Hin Hrenders Hindent Hrun.
  apply list_elem_of_split in Hin as (front & back & Hqueue).
  exact (emitLoop_fuel_renders gs pkg pkgNamespaces fuel klass i fuel st st' front back
           Hrenders Hqueue Hindent Hrun).
Qed.

(** [P::A] on the worklist, as the closure builder leaves an export. *)
Lemma worklist_classes_are_rendered_witness :
  exists st' before after,
    emitLoop World.gs World.pkgP World.namespaces World.fuel
             (mkExporter {[classSym 5]} ∅ ∅ [classSym 5] initialOutput) = Ok (tt, st')
    /\ completeLines before
    /\ out_buf (out st') = before +:+ ("class P::A < Test::P::T" +:+ newline) +:+ after.
Proof.
  destruct (emitLoop World.gs World.pkgP World.namespaces World.fuel
                     (mkExporter {[classSym 5]} ∅ ∅ [classSym 5] initialOutput))
    as [[[] st']| |] eqn:Hrun; try (vm_compute in Hrun; discriminate Hrun).
  destruct (worklist_classes_are_rendered World.gs World.pkgP World.namespaces World.fuel 5 0
              (mkExporter {[classSym 5]} ∅ ∅ [classSym 5] initialOutput) st')
    as (before & after & Hlines & Hbuf).
  - left.
  - vm_compute. reflexivity.
  - split; reflexivity.
  - exact Hrun.
  - exists st', before, after. split; [reflexivity |]. split; [exact Hlines | exact Hbuf].
Defined.

(** ** [Output::println] *)

Lemma indentNewlines_app (tabStr a b : string) :
  indentNewlines tabStr (a +:+ b) = indentNewlines tabStr a +:+ indentNewlines tabStr b.
Proof.
  induction a as [|c a IH]; [reflexivity |].
  rewrite append_cons. cbn [indentNewlines]. rewrite IH.
  destruct (Ascii.eqb c newline_char); rewrite append_cons; [rewrite append_assoc |];
    reflexivity.
Qed.

Lemma indentNewlines_noNewline (tabStr a : string) :
  noNewline a = true -> indentNewlines tabStr a = a.
Proof.
  unfold noNewline. induction a as [|c a IH]; [reflexivity |]. cbn [string_forallb indentNewlines].
  intros H. apply andb_prop in H as [Hc Ha]. apply negb_true_iff in Hc. rewrite Hc, (IH Ha).
  reflexivity.
Qed.

(** X16: [println] of a text prints its lines one by one, each at the
    indentation of the output: a text of two parts with a line break
    between them is printed as the first part and then the second, and a
    text without line break is printed as the formatting [println] prints
    it. *)
Theorem println_prints_line_by_line (a b : string) (o : Output) :
  Output_println (a +:+ newline +:+ b) o = Output_println b (Output_println a o)
  /\ (noNewline a = true -> Output_println a o = Output_printlnf a o).
Proof.
  split.
  - unfold Output_println, Output_append. cbn [out_buf out_indent out_tabStr].
    f_equal. rewrite indentNewlines_app. unfold newline at 1.
    rewrite append_cons, append_nil_l. cbn [indentNewlines].
    rewrite Ascii.eqb_refl. rewrite !append_assoc. unfold newline.
    rewrite !append_cons, !append_nil_l, !append_assoc. reflexivity.
  - intros Ha. unfold Output_println, Output_printlnf.
    rewrite (indentNewlines_noNewline _ _ Ha). reflexivity.
Qed.

(** ** The parameter list of a definition *)



(** ** Flatfiles *)



(** ** Props of classes that are no structs *)

Section PropsPhase.

Context (gs : GlobalState) (pkg : PackageInfo).
Context (pkgNamespaces : gset ClassOrModuleRef) (fuel : nat).


End PropsPhase.

Section PropLines.

Context (gs : GlobalState) (pkg : PackageInfo).
Context (pkgNamespaces : gset ClassOrModuleRef) (fuel : nat).

Lemma showType_shown type st shown st' :
  showType gs pkg pkgNamespaces fuel type st = Ok (shown, st') -> shown = shownType gs type.
Proof.
  unfold showType, shownType. destruct (is_nullptr type).
  - intros H. inversion H. reflexivity.
  - intros H. apply bind_inv in H as ([] & s1 & _ & H). inversion H. reflexivity.
Qed.

(** Whenever [emitProp] returns it has printed the one line of the
    property, and nothing else. *)
Lemma emitProp_printed name type isConst hasDefault st st' :
  emitProp gs pkg pkgNamespaces fuel name type isConst hasDefault st = Ok (tt, st') ->
  out st' = Output_printlnf (propLine gs name (shownType gs type) isConst hasDefault) (out st).
Proof.
  intros Hrun. unfold emitProp in Hrun.
  apply bind_inv in Hrun as (shown & s1 & Hshow & Hrun).
  pose proof (showType_keeps_out _ _ _ _ _ _ _ _ Hshow) as Hout1.
  apply showType_shown in Hshow. subst shown.
  apply bind_inv in Hrun as (default & s2 & Hdefault & Hrun).
  unfold printlnf, modify in Hrun. inversion Hrun. subst st'. clear Hrun.
  cbn [out set_out]. unfold propLine. destruct hasDefault.
  - apply bind_inv in Hdefault as (again & s3 & Hagain & Hret). inversion Hret; subst.
    pose proof (showType_keeps_out _ _ _ _ _ _ _ _ Hagain) as Hout2.
    apply showType_shown in Hagain. subst again. rewrite Hout2, Hout1. reflexivity.
  - inversion Hdefault; subst. rewrite Hout1. reflexivity.
Qed.



End PropLines.



(** ** The flatfile block *)

Section FlatfileBlock.

Context (gs : GlobalState).


Lemma Output_append_append (a b : string) (o : Output) :
  Output_append b (Output_append a o) = Output_append (a +:+ b) o.
Proof. unfold Output_append. simpl. rewrite append_assoc. reflexivity. Qed.



End FlatfileBlock.



(** ** The passes of a run *)

Section Run.

Context (gs : GlobalState) (pkg : PackageInfo).
Context (pkgNamespaces : gset ClassOrModuleRef) (fuel : nat).

Lemma emitLoop_fuel_drains n st st' :
  emitLoop_fuel gs pkg pkgNamespaces fuel n st = Ok (tt, st') -> toEmit st' = [].
Proof.
  revert st. induction n as [|n IH]; intros st Hrun; simpl in Hrun.
  all: apply bind_inv in Hrun as (queue & s0 & Hgets & Hrun); inversion Hgets; subst queue s0.
  all: destruct (last (toEmit st)) as [symbol|] eqn:Hlast;
    [| inversion Hrun; subst; apply last_None; exact Hlast].
  - discriminate Hrun.
  - apply bind_inv in Hrun as ([] & s1 & _ & Hrun).
    apply bind_inv in Hrun as ([] & s2 & _ & Hrun). apply (IH s2 Hrun).
Qed.

Lemma forEach_maybeEmit_keeps_out (roots : list SymbolRef) st st' :
  forEach roots (maybeEmit gs pkg pkgNamespaces fuel) st = Ok (tt, st') -> out st' = out st.
Proof.
  revert st. induction roots as [|s roots IH]; intros st Hrun; simpl in Hrun.
  - inversion Hrun; reflexivity.
  - apply bind_inv in Hrun as ([] & s1 & Hfirst & Hrest).
    apply maybeEmit_keeps_out in Hfirst. rewrite (IH s1 Hrest). exact Hfirst.
Qed.

Lemma dependenciesText_nonempty st : dependenciesText gs st <> EmptyString.
Proof. unfold dependenciesText. rewrite append_cons. discriminate. Qed.

Lemma typedHeader_nonempty text : typedHeader +:+ text <> EmptyString.
Proof. unfold typedHeader. rewrite !append_cons. discriminate. Qed.

(** What a run returns, pass by pass. *)
Lemma runOnce_output output :
  runOnce gs pkg pkgNamespaces fuel = Ok output ->
  baseFilePath output = n_show (nameData gs (mangledName pkg))
  /\ stubWithManifest gs (rbi output) (rbiPackageDependencies output)
  /\ stubWithManifest gs (testRBI output) (testRBIPackageDependencies output)
  /\ (rbi output = EmptyString
      <-> List.filter (productionExport gs pkg pkgNamespaces fuel) (exports pkg) = []).
Proof.
  intros Hrun. unfold runOnce in Hrun.
  destruct (emit gs pkg pkgNamespaces fuel initialExporter) as [[out0 st']| |] eqn:Hemit;
    try discriminate Hrun.
  inversion Hrun; subst out0. clear Hrun.
  apply emit_inv in Hemit
    as (roots & testRoots & stub & deps & st1 & testStub & testDeps
        & Hsplit & Hprod & Htest & ->).
  simpl. split; [reflexivity |].
  apply splitExports_spec in Hsplit as [Hroots _]. simpl in Hroots.
  apply productionPass_runs in Hprod
    as [(Hnil & -> & -> & ->) | (Hcons & sa & sb & _ & _ & -> & -> & ->)].
  - split; [left; split; reflexivity |]. split.
    + apply testPass_runs in Htest
        as [(_ & -> & -> & _) | (_ & ta & tb & _ & _ & -> & [(_ & -> & ->) | (_ & -> & ->)])].
      * left; split; reflexivity.
      * left; split; reflexivity.
      * right. eexists _, _. split; reflexivity.
    + split; [intros _ | reflexivity]. rewrite Hnil in Hroots.
      destruct (List.filter _ (exports pkg)); [reflexivity | discriminate Hroots].
  - split; [right; eexists _, _; split; reflexivity |]. split.
    + apply testPass_runs in Htest
        as [(_ & -> & -> & _) | (_ & ta & tb & _ & _ & -> & [(_ & -> & ->) | (_ & -> & ->)])].
      * left; split; reflexivity.
      * left; split; reflexivity.
      * right. eexists _, _. split; reflexivity.
    + split; [intros H; exfalso; exact (typedHeader_nonempty _ H) |].
      intros Hfilter. exfalso. apply Hcons. rewrite Hroots, Hfilter. reflexivity.
Qed.

End Run.

(** X21: When [emitLoop] returns, the worklist is empty; and a pass that starts
    with an empty worklist and an empty buffer ends with both empty, the
    text it rendered handed over: a stub holds the text of its own pass and
    no other. *)
Theorem worklist_drained_and_buffer_handed_over gs pkg pkgNamespaces fuel :
  (forall st st', emitLoop gs pkg pkgNamespaces fuel st = Ok (tt, st') -> toEmit st' = [])
  /\ (forall roots st result st1,
        productionPass gs pkg pkgNamespaces fuel roots st = Ok (result, st1) ->
        toEmit st = [] -> out_buf (out st) = EmptyString ->
        toEmit st1 = [] /\ out_buf (out st1) = EmptyString)
  /\ (forall testRoots st result st2,
        testPass gs pkg pkgNamespaces fuel testRoots st = Ok (result, st2) ->
        toEmit st = [] -> out_buf (out st) = EmptyString ->
        toEmit st2 = [] /\ out_buf (out st2) = EmptyString).
Proof.
  split; [intros st st'; apply emitLoop_fuel_drains |].
  split.
  - intros roots st [stub deps] st1 Hrun Hqueue Hbuf.
    apply productionPass_runs in Hrun
      as [(_ & _ & _ & ->) | (_ & sa & sb & _ & Hloop & _ & -> & _)].
    + split; assumption.
    + split; [| reflexivity]. simpl. exact (emitLoop_fuel_drains _ _ _ _ _ _ _ Hloop).
  - intros testRoots st [stub deps] st2 Hrun Hqueue Hbuf.
    apply testPass_runs in Hrun
      as [(_ & _ & _ & ->) | (_ & sa & sb & _ & Hloop & -> & _)].
    + split; assumption.
    + split; [| reflexivity]. simpl. exact (emitLoop_fuel_drains _ _ _ _ _ _ _ Hloop).
Qed.

(** X22: Stubs and manifests come in pairs: each stub of a run is empty together
    with its manifest, or is the header followed by the text of its pass and
    comes with a manifest, which is never empty; the production stub is
    empty exactly when no export resolves to a symbol outside the test
    namespace; and the files are named after the package's mangled name. *)
Theorem stubs_and_manifests_come_in_pairs gs pkg pkgNamespaces fuel output :
  runOnce gs pkg pkgNamespaces fuel = Ok output ->
  baseFilePath output = n_show (nameData gs (mangledName pkg))
  /\ (rbi output = EmptyString <-> rbiPackageDependencies output = EmptyString)
  /\ (testRBI output = EmptyString <-> testRBIPackageDependencies output = EmptyString)
  /\ (rbi output <> EmptyString -> StartsWith (rbi output) typedHeader = true)
  /\ (testRBI output <> EmptyString -> StartsWith (testRBI output) typedHeader = true)
  /\ (rbi output = EmptyString
      <-> List.filter (productionExport gs pkg pkgNamespaces fuel) (exports pkg) = []).
Proof.
  intros Hrun.
  destruct (runOnce_output gs pkg pkgNamespaces fuel output Hrun)
    as (Hbase & Hprod & Htest & Hroots).
  assert (Hpair : forall stub deps,
             stubWithManifest gs stub deps ->
             (stub = EmptyString <-> deps = EmptyString)
             /\ (stub <> EmptyString -> StartsWith stub typedHeader = true)).
  { intros stub deps [[-> ->] | (text & st & -> & ->)].
    - split; [split; reflexivity | intros H; contradiction].
    - split.
      + split; intros H; exfalso;
          [exact (typedHeader_nonempty _ H) | exact (dependenciesText_nonempty _ _ H)].
      + intros _. apply prefix_append. }
  destruct (Hpair _ _ Hprod) as [Hp1 Hp2]. destruct (Hpair _ _ Htest) as [Ht1 Ht2].
  repeat split; try assumption; try apply Hp1; try apply Ht1; apply Hroots.
Qed.

(** Package [P] exporting [P::A], and [P::Point] to its tests. *)
Lemma stubs_and_manifests_come_in_pairs_witness :
  exists output,
    runOnce World.gs World.pkgP_point World.namespaces World.fuel = Ok output
    /\ baseFilePath output = "P_Package"
    /\ (rbi output = EmptyString <-> rbiPackageDependencies output = EmptyString)
    /\ (testRBI output = EmptyString <-> testRBIPackageDependencies output = EmptyString).
Proof.
  eexists.
  destruct (stubs_and_manifests_come_in_pairs World.gs World.pkgP_point World.namespaces
              World.fuel _ ltac:(vm_compute; reflexivity))
    as (Hbase & Hprod & Htest & _).
  split; [vm_compute; reflexivity |]. split; [exact Hbase |]. split; [exact Hprod | exact Htest].
Defined.

(** ** Exports that do not resolve *)

Section Unresolved.

Context (gs : GlobalState) (pkg : PackageInfo).
Context (pkgNamespaces : gset ClassOrModuleRef) (fuel : nat).

Lemma splitExports_unresolved rawExports exports testExports :
  Forall (fun e => symbol_exists (lookupFQN gs e) = false) rawExports ->
  splitExports gs pkg pkgNamespaces fuel rawExports exports testExports
  = Ok (exports, testExports).
Proof.
  induction 1 as [|e rest He _ IH]; simpl; [reflexivity |]. rewrite He. exact IH.
Qed.

Lemma resolveTestExports_unresolved rawTestExports testExports :
  Forall (fun e => symbol_exists (lookupFQN gs e) = false) rawTestExports ->
  resolveTestExports gs rawTestExports testExports = testExports.
Proof.
  induction 1 as [|e rest He _ IH]; simpl; [reflexivity |]. rewrite He. exact IH.
Qed.

End Unresolved.

(** X23: A package none of whose export paths resolves -- one that exports
    nothing, for a start -- gets no stub and no manifest, whatever the
    budget, and the exporter is left as it was. *)
Theorem nothing_resolved_nothing_exported gs pkg pkgNamespaces fuel st :
  Forall (fun e => symbol_exists (lookupFQN gs e) = false) (exports pkg) ->
  Forall (fun e => symbol_exists (lookupFQN gs e) = false) (testExports pkg) ->
  emit gs pkg pkgNamespaces fuel st
  = Ok (mkRBIOutput (n_show (nameData gs (mangledName pkg)))
                    EmptyString EmptyString EmptyString EmptyString, st).
Proof.
  intros Hexports Htests. unfold emit, bind, liftResult.
  rewrite (splitExports_unresolved gs pkg pkgNamespaces fuel _ [] [] Hexports).
  rewrite (resolveTestExports_unresolved gs _ [] Htests). reflexivity.
Qed.

(** Package [P] declaring only the export [P::Missing]. *)
Lemma nothing_resolved_nothing_exported_witness :
  emit World.gs (mkPackageInfo [1%N] 38 [[1; 37]]%N []) World.namespaces World.fuel
       initialExporter
  = Ok (mkRBIOutput "P_Package" EmptyString EmptyString EmptyString EmptyString,
        initialExporter).
Proof.
  apply (nothing_resolved_nothing_exported World.gs (mkPackageInfo [1%N] 38 [[1; 37]]%N [])
           World.namespaces World.fuel initialExporter).
  - repeat constructor.
  - constructor.
Defined.

(** ** [lookupFQN] *)

Lemma lookupFQN_from_app gs scope a b :
  symbol_exists (lookupFQN_from gs scope a) = true ->
  lookupFQN_from gs scope (a ++ b) = lookupFQN_from gs (lookupFQN_from gs scope a) b.
Proof.
  revert scope. induction a as [|name a IH]; intros scope Hexists; simpl in *; [reflexivity |].
  destruct (isClassOrModule scope); [| discriminate Hexists].
  destruct (negb (symbol_exists
                    (co_findMemberNoDealias (classOrModuleData gs (asClassOrModuleRef scope))
                                            name))); [discriminate Hexists |].
  apply IH, Hexists.
Qed.

Lemma lookupFQN_from_prefix gs scope a b :
  symbol_exists scope = true ->
  symbol_exists (lookupFQN_from gs scope (a ++ b)) = true ->
  symbol_exists (lookupFQN_from gs scope a) = true.
Proof.
  revert scope. induction a as [|name a IH]; intros scope Hscope Hexists; simpl in *;
    [exact Hscope |].
  destruct (isClassOrModule scope); [| discriminate Hexists].
  destruct (symbol_exists
              (co_findMemberNoDealias (classOrModuleData gs (asClassOrModuleRef scope)) name))
    eqn:Hmember; simpl in *; [| discriminate Hexists].
  apply IH; assumption.
Qed.

(** X24: A path is resolved component by component: when a path resolves, so
    does every prefix of it, and the rest of the path is looked up from the
    symbol of the prefix; a component that is missing, or that is looked up
    in something that is no class or module, makes the lookup fail for
    every longer path. *)
Theorem lookupFQN_resolves_prefixes gs a b :
  ref_exists (Symbols_root gs) = true ->
  symbol_exists (lookupFQN gs (a ++ b)) = true ->
  symbol_exists (lookupFQN gs a) = true
  /\ lookupFQN gs (a ++ b) = lookupFQN_from gs (lookupFQN gs a) b.
Proof.
  intros Hroot Hexists. unfold lookupFQN in *.
  assert (Hprefix : symbol_exists (lookupFQN_from gs (classSym (Symbols_root gs)) a) = true)
    by (eapply lookupFQN_from_prefix; [exact Hroot | exact Hexists]).
  split; [exact Hprefix | apply lookupFQN_from_app, Hprefix].
Qed.

(** The path [P::Sub] and its prefix [P]. *)
Lemma lookupFQN_resolves_prefixes_witness :
  symbol_exists (lookupFQN World.gs [1%N]) = true
  /\ lookupFQN World.gs [1; 7]%N = lookupFQN_from World.gs (lookupFQN World.gs [1%N]) [7%N].
Proof.
  apply (lookupFQN_resolves_prefixes World.gs [1%N] [7%N]); vm_compute; reflexivity.
Defined.

(** ** [buildPackageNamespace] *)

Lemma addPackageNamespaces_elem gs db packageNamespaces package k :
  k ∈ addPackageNamespaces gs db packageNamespaces package
  <-> k ∈ packageNamespaces \/ namespaceOf gs (getPackageInfo db package) k.
Proof.
  unfold addPackageNamespaces, namespaceOf, pkgNamespace, pkgTestNamespace, getPkgTestNamespace.
  destruct (symbol_exists (lookupFQN gs (fullName (getPackageInfo db package))));
    destruct (symbol_exists (lookupFQN gs (Names_Constants_Test gs
                                             :: fullName (getPackageInfo db package))));
    rewrite ?elem_of_union, ?elem_of_singleton; intuition congruence.
Qed.

Lemma fold_addPackageNamespaces_elem gs db packages0 packageNamespaces k :
  k ∈ fold_left (addPackageNamespaces gs db) packages0 packageNamespaces
  <-> k ∈ packageNamespaces
      \/ exists package, package ∈ packages0 /\ namespaceOf gs (getPackageInfo db package) k.
Proof.
  revert packageNamespaces. induction packages0 as [|p rest IH]; intros packageNamespaces; simpl.
  - split; [intros H; left; exact H | intros [H | (package & Hin & _)]; [exact H |]].
    inversion Hin.
  - rewrite IH, addPackageNamespaces_elem. split.
    + intros [[H | H] | (package & Hin & H)].
      * left. exact H.
      * right. exists p. split; [left | exact H].
      * right. exists package. split; [right; exact Hin | exact H].
    + intros [H | (package & Hin & H)]; [left; left; exact H |].
      apply elem_of_cons in Hin as [-> | Hin].
      * left. right. exact H.
      * right. exists package. split; assumption.
Qed.

(** X25: The set of package namespaces is made of the production and test
    namespaces, where they exist, of the packages of the database, and of
    nothing else -- the symbol that does not exist is never in it; and
    without any package there is no set, but the fatal error. *)
Theorem buildPackageNamespace_collects_namespaces gs db :
  (packages db = [] -> buildPackageNamespace gs db = Raise "No packages found?")
  /\ (packages db <> [] ->
      exists packageNamespaces,
        buildPackageNamespace gs db = Ok packageNamespaces
        /\ (forall k,
              k ∈ packageNamespaces
              <-> exists package,
                    package ∈ packages db /\ namespaceOf gs (getPackageInfo db package) k)
        /\ noClassOrModule ∉ packageNamespaces).
Proof.
  unfold buildPackageNamespace. split.
  - intros ->. reflexivity.
  - intros Hpackages. rewrite bool_decide_eq_false_2 by exact Hpackages.
    eexists. split; [reflexivity |].
    assert (Hspec : forall k,
               k ∈ fold_left (addPackageNamespaces gs db) (packages db) ∅
               <-> exists package,
                     package ∈ packages db /\ namespaceOf gs (getPackageInfo db package) k).
    { intros k. rewrite fold_addPackageNamespaces_elem. split; [| intros H; right; exact H].
      intros [H | H]; [apply not_elem_of_empty in H; contradiction | exact H]. }
    split; [exact Hspec |].
    intros Hin. apply Hspec in Hin as (package & _ & [[Hexists Hk] | [Hexists Hk]]).
    + unfold pkgNamespace, asClassOrModuleRef in Hk. unfold symbol_exists in Hexists.
      rewrite <- Hk in Hexists. discriminate Hexists.
    + unfold pkgTestNamespace, getPkgTestNamespace, asClassOrModuleRef in Hk.
      unfold symbol_exists in Hexists. rewrite <- Hk in Hexists. discriminate Hexists.
Qed.

(** ** [run] *)

Lemma string_empty_false (s : string) : string_empty s = false -> s <> EmptyString.
Proof. destruct s; [discriminate | intros _; discriminate]. Qed.

Lemma writeOutput_files gs pkg pkgNamespaces fuel outputDir output :
  runOnce gs pkg pkgNamespaces fuel = Ok output ->
  Forall (writesFileOf gs outputDir pkg) (writeOutput outputDir output).
Proof.
  intros Hrun.
  destruct (runOnce_output gs pkg pkgNamespaces fuel output Hrun)
    as (Hbase & Hprod & Htest & _).
  assert (Hdeps : forall stub deps,
             stubWithManifest gs stub deps -> stub <> EmptyString -> deps <> EmptyString).
  { intros stub deps [[-> _] | (text & st & _ & ->)] Hstub; [contradiction |].
    apply dependenciesText_nonempty. }
  unfold writeOutput. rewrite Hbase. apply Forall_app. split.
  - destruct (string_empty (rbi output)) eqn:Hempty; simpl; [constructor |].
    apply string_empty_false in Hempty.
    repeat constructor; simpl; try exact Hempty; try (eapply Hdeps; eassumption).
    + exists ".rbi". split; [unfold stubExtensions; set_solver | reflexivity].
    + exists ".deps.json". split; [unfold stubExtensions; set_solver | reflexivity].
  - destruct (string_empty (testRBI output)) eqn:Hempty; simpl; [constructor |].
    apply string_empty_false in Hempty.
    repeat constructor; simpl; try exact Hempty; try (eapply Hdeps; eassumption).
    + exists ".test.rbi". split; [unfold stubExtensions; set_solver | reflexivity].
    + exists ".test.deps.json". split; [unfold stubExtensions; set_solver | reflexivity].
Qed.

Lemma runJobs_files gs db packageNamespaces fuel outputDir inputq written0 written :
  runJobs gs db packageNamespaces fuel outputDir inputq written0 = Ok written ->
  Forall (fun w => exists job, job ∈ packages db
                               /\ writesFileOf gs outputDir (getPackageInfo db job) w) written0 ->
  (forall job, job ∈ inputq -> job ∈ packages db) ->
  Forall (fun w => exists job, job ∈ packages db
                               /\ writesFileOf gs outputDir (getPackageInfo db job) w) written.
Proof.
  revert written0. induction inputq as [|job rest IH]; intros written0 Hrun Hdone Hqueue;
    simpl in Hrun.
  - inversion Hrun; subst. exact Hdone.
  - destruct (runOnce gs (getPackageInfo db job) packageNamespaces fuel) as [output| |] eqn:Hjob;
      try discriminate Hrun.
    apply (IH _ Hrun).
    + apply Forall_app. split; [exact Hdone |].
      eapply Forall_impl; [eapply writeOutput_files, Hjob |].
      intros w Hw. exists job. split; [apply Hqueue; left | exact Hw].
    + intros j Hj. apply Hqueue. right. exact Hj.
Qed.

(** X26: Every file a run writes is a file of a package of the database, named
    after the package's mangled name under the output directory, and none
    is written with empty contents: a stub is written only when it has text,
    and a manifest is written with a stub, and is never empty then. *)
Theorem run_writes_no_empty_file gs db fuel outputDir written :
  run gs db fuel outputDir = Ok written ->
  Forall (fun w => exists job, job ∈ packages db
                               /\ writesFileOf gs outputDir (getPackageInfo db job) w) written.
Proof.
  unfold run. intros Hrun.
  destruct (buildPackageNamespace gs db) as [packageNamespaces| |]; try discriminate Hrun.
  apply (runJobs_files _ _ _ _ _ _ _ _ Hrun); [constructor | intros job Hjob; exact Hjob].
Qed.

(** The packages [P], [Q] and [P::Sub]: six files, four of [P] and two of
    [P::Sub]. *)
Lemma run_writes_no_empty_file_witness :
  exists written,
    run Records.gs Records.db World.fuel "out" = Ok written
    /\ length written = 6%nat
    /\ Forall (fun w => exists job,
                          job ∈ packages Records.db
                          /\ writesFileOf Records.gs "out" (getPackageInfo Records.db job) w)
              written.
Proof.
  eexists. split; [vm_compute; reflexivity |]. split; [reflexivity |].
  apply (run_writes_no_empty_file Records.gs Records.db World.fuel "out").
  vm_compute. reflexivity.
Defined.

(** ** Exported classes are in the stub *)

Section ExportsRendered.

Context (gs : GlobalState) (pkg : PackageInfo).
Context (pkgNamespaces : gset ClassOrModuleRef) (fuel : nat).

Lemma maybeEmit_allPending symbol :
  Preserves allPending (maybeEmit gs pkg pkgNamespaces fuel symbol).
Proof.
  apply maybeEmit_preserves; unfold allPending; simpl; try (intros; auto; fail).
  intros st s _ Hinv x Hx. apply elem_of_app.
  apply elem_of_union in Hx as [Hx | Hx].
  - right. apply elem_of_singleton in Hx. subst x. apply list_elem_of_singleton. reflexivity.
  - left. apply Hinv, Hx.
Qed.

Lemma maybeEmit_keeps_pending s symbol :
  Preserves (fun st => s ∈ toEmit st) (maybeEmit gs pkg pkgNamespaces fuel symbol).
Proof.
  apply maybeEmit_preserves; simpl; try (intros; assumption).
  intros st x _ Hin. apply elem_of_app. left. exact Hin.
Qed.

(** Feeding the exports to the closure builder of a fresh exporter leaves
    every export that the package owns on the worklist. *)
Lemma forEach_maybeEmit_pending (roots : list SymbolRef) st st' s :
  allPending st ->
  forEach roots (maybeEmit gs pkg pkgNamespaces fuel) st = Ok (tt, st') ->
  s ∈ roots ->
  isSingletonClassSymbol gs s = false ->
  accepted gs pkg pkgNamespaces fuel s ->
  s ∈ toEmit st'.
Proof.
  revert st. induction roots as [|x roots IH]; intros st Hinv Hrun Hin Hsingleton Hacc.
  - inversion Hin.
  - cbn [forEach] in Hrun. apply bind_inv in Hrun as ([] & s1 & Hfirst & Hrest).
    pose proof (maybeEmit_allPending x st tt s1 Hfirst Hinv) as Hinv1.
    apply elem_of_cons in Hin as [-> | Hin]; [| exact (IH s1 Hinv1 Hrest Hin Hsingleton Hacc)].
    assert (Hpending : x ∈ toEmit s1).
    { assert (Htarget : attachedTarget gs fuel x = Some x).
      { destruct fuel; simpl; rewrite Hsingleton; reflexivity. }
      destruct (decide (x ∈ emittedSymbols st)) as [Hmarked | Hfresh].
      - rewrite (maybeEmit_visited gs pkg pkgNamespaces fuel x x st Htarget Hmarked) in Hfirst.
        inversion Hfirst; subst s1. apply Hinv, Hmarked.
      - destruct Hacc as (j & Hj & Hpass & Hroot & Hown).
        rewrite (maybeEmit_unvisited gs pkg pkgNamespaces fuel x x st Htarget Hfresh) in Hfirst.
        unfold isInPackage in Hfirst. destruct (le_split j fuel Hj) as [n Hn].
        rewrite Hn in Hfirst at 1.
        rewrite (isInPackage_fuel_climb gs pkg pkgNamespaces j n x x st Hpass) in Hfirst.
        rewrite (isInPackage_fuel_own gs pkg pkgNamespaces n _ x st Hroot Hown) in Hfirst.
        inversion Hfirst; subst s1. simpl. apply elem_of_app. right.
        apply list_elem_of_singleton. reflexivity. }
    revert Hpending.
    apply (preserves_forEach _ roots _ (fun later => maybeEmit_keeps_pending x later)
             s1 tt st' Hrest).
Qed.

End ExportsRendered.

(** X27: The exported classes are in the production stub: when a run returns,
    for every export path that resolves to a class or module that the
    package owns (no singleton class, no value class of an enum, no class
    internal to Sorbet, not filed under the test namespace), the production
    stub holds, after the header and complete lines, the class definition
    line of that class, not indented. *)
Theorem exported_classes_are_in_the_stub gs pkg pkgNamespaces fuel output e klass :
  runOnce gs pkg pkgNamespaces fuel = Ok output ->
  e ∈ exports pkg ->
  lookupFQN gs e = classSym klass ->
  productionExport gs pkg pkgNamespaces fuel e = true ->
  isSingletonClassSymbol gs (classSym klass) = false ->
  accepted gs pkg pkgNamespaces fuel (classSym klass) ->
  rendersClass gs klass = true ->
  exists before after,
    completeLines before
    /\ rbi output = typedHeader +:+ before +:+ (classHeader gs klass +:+ newline) +:+ after.
Proof.
  intros Hrun He Hresolves Hprod Hsingleton Hacc Hrenders. unfold runOnce in Hrun.
  destruct (emit gs pkg pkgNamespaces fuel initialExporter) as [[out0 st']| |] eqn:Hemit;
    try discriminate Hrun.
  inversion Hrun; subst out0. clear Hrun.
  apply emit_inv in Hemit
    as (roots & testRoots & stub & deps & st1 & testStub & testDeps
        & Hsplit & Hpass & _ & ->).
  cbn [rbi].
  apply splitExports_spec in Hsplit as [Hroots _]. cbn [app] in Hroots.
  assert (Hroot : classSym klass ∈ roots).
  { rewrite Hroots, <- Hresolves. apply list_elem_of_In, in_map, filter_In.
    split; [apply list_elem_of_In, He | exact Hprod]. }
  apply productionPass_runs in Hpass
    as [(-> & _) | (_ & sa & sb & Ha & Hb & -> & _)]; [inversion Hroot |].
  assert (Hpending : classSym klass ∈ toEmit sa).
  { apply (forEach_maybeEmit_pending gs pkg pkgNamespaces fuel roots initialExporter sa);
      try assumption.
    intros s Hs. apply not_elem_of_empty in Hs. contradiction. }
  pose proof (forEach_maybeEmit_keeps_out gs pkg pkgNamespaces fuel roots _ _ Ha) as Hout.
  apply list_elem_of_split in Hpending as (front & back & Hqueue).
  destruct (emitLoop_fuel_renders gs pkg pkgNamespaces fuel klass 0 fuel sa sb front back
              Hrenders Hqueue) as (before & after & Hlines & Hbuf).
  - unfold indentedAt. rewrite Hout. split; reflexivity.
  - exact Hb.
  - exists before, after. split; [exact Hlines |].
    rewrite Hbuf, Hout. reflexivity.
Qed.

(** Package [P] exporting [P::A], and [P::Point] to its tests. *)
Lemma exported_classes_are_in_the_stub_witness :
  exists output before after,
    runOnce World.gs World.pkgP_point World.namespaces World.fuel = Ok output
    /\ completeLines before
    /\ rbi output
       = typedHeader +:+ before +:+ ("class P::A < Test::P::T" +:+ newline) +:+ after.
Proof.
  eexists.
  destruct (exported_classes_are_in_the_stub World.gs World.pkgP_point World.namespaces
              World.fuel _ [1; 3]%N 5%N ltac:(vm_compute; reflexivity))
    as (before & after & Hlines & Hstub).
  - left.
  - vm_compute. reflexivity.
  - vm_compute. reflexivity.
  - vm_compute. reflexivity.
  - exists 1%nat. split; [unfold World.fuel; lia |]. vm_compute. repeat split.
  - vm_compute. reflexivity.
  - exists before, after. split; [vm_compute; reflexivity |].
    split; [exact Hlines | exact Hstub].
Defined.

(** * Claims about whole classes and whole runs *)

(** ** The text of a declaration *)

Section DeclarationText.

Context (gs : GlobalState) (pkg : PackageInfo).
Context (pkgNamespaces : gset ClassOrModuleRef) (fuel : nat).








End DeclarationText.

(** ** One declaration per symbol *)

Section OncePerSymbol.

Context (gs : GlobalState) (pkg : PackageInfo).
Context (pkgNamespaces : gset ClassOrModuleRef) (fuel : nat).











End OncePerSymbol.



(** ** The rendering of a struct *)

Section StructClass.

Context (gs : GlobalState) (pkg : PackageInfo).
Context (pkgNamespaces : gset ClassOrModuleRef) (fuel : nat).

Lemma classMember_pending klass isEnum p entry st p' st' :
  classMember gs pkg pkgNamespaces fuel klass isEnum p entry st = Ok (p', st') ->
  p' = memberPending gs pkgNamespaces klass isEnum p entry.
Proof.
  destruct entry as [name member]. unfold classMember, memberPending.
  destruct (shouldSkipMember gs name); [intros H; inversion H; reflexivity |].
  destruct (kind member).
  - destruct (bool_decide (asClassOrModuleRef member ∈ pkgNamespaces));
      [intros H; inversion H; reflexivity |].
    destruct (isEnum && N.eqb (co_superClass (classOrModuleData gs (asClassOrModuleRef member)))
                              klass); [intros H; inversion H; reflexivity |].
    intros H. apply bind_inv in H as ([] & s1 & _ & H). inversion H. reflexivity.
  - destruct (N.eqb name (Names_initialize gs)); intros H; inversion H; reflexivity.
  - destruct (fi_isField (fieldData gs (idx member))); [intros H; inversion H; reflexivity |].
    destruct (fieldIsClassVariable gs (idx member)); intros H;
      apply bind_inv in H as ([] & s1 & _ & H); inversion H; reflexivity.
  - intros H; inversion H; reflexivity.
  - intros H; inversion H; reflexivity.
Qed.

Lemma classMembers_pending klass isEnum members p st p' st' :
  forEachWith members p (classMember gs pkg pkgNamespaces fuel klass isEnum) st = Ok (p', st') ->
  p' = fold_left (memberPending gs pkgNamespaces klass isEnum) members p.
Proof.
  revert p st. induction members as [|entry members IH]; intros p st H; cbn in H.
  - inversion H. reflexivity.
  - apply bind_inv in H as (p1 & s1 & Hfirst & Hrest).
    apply classMember_pending in Hfirst. subst p1. cbn [fold_left]. eapply IH, Hrest.
Qed.

Lemma classPreamble_pending klass isEnum st p st' :
  classPreamble gs pkg pkgNamespaces fuel klass isEnum st = Ok (p, st') ->
  p = fold_left (memberPending gs pkgNamespaces klass isEnum)
                (co_membersStableOrderSlow (classOrModuleData gs klass))
                (mkPending 0%N [] [] []).
Proof.
  unfold classPreamble. intros H.
  do 6 (apply bind_inv in H as ([] & ? & _ & H)).
  eapply classMembers_pending, H.
Qed.

(** The body of a struct: once [maybeEmitStructProps] has taken the pending
    methods and fields nothing is pending, so no property is looked for, no
    flatfile field, and no method is defined before the singleton class. *)
Lemma emit_klass_body_struct klass isEnum isFlatFile st :
  emit_klass_body gs pkg pkgNamespaces fuel klass isEnum true isFlatFile st
  = (let* p := classPreamble gs pkg pkgNamespaces fuel klass isEnum in
     maybeEmitStructProps gs pkg pkgNamespaces fuel (initializeMethod p) (pendingMethods p)
                          (pendingFields p) >>
     classEpilogue gs pkg pkgNamespaces fuel klass isEnum (pendingEnumValues p) []) st.
Proof.
  unfold emit_klass_body, classPreamble.
  do 6 (rewrite bind_assoc; apply bind_ext; [reflexivity |]; intros [] ?).
  apply bind_ext; [reflexivity |]. intros p s1.
  rewrite bind_assoc. apply bind_ext; [reflexivity |]. intros [] s2.
  destruct isFlatFile; reflexivity.
Qed.

(** The preamble leaves the indentation as it finds it. *)
Lemma classPreamble_indentedAt i klass isEnum :
  Holds (indentedAt i) (fun _ => True) (classPreamble gs pkg pkgNamespaces fuel klass isEnum).
Proof.
  unfold classPreamble.
  repeat first
    [ apply (maybeEmit_holds gs pkg pkgNamespaces fuel indentedAt (fun _ => True));
      intros; assumption
    | apply (emit_typeMember_holds gs pkg pkgNamespaces fuel indentedAt (fun _ => True));
      try (intros; assumption); exact I
    | apply (classMember_holds gs pkg pkgNamespaces fuel indentedAt (fun _ => True));
      try (intros; assumption); exact I
    | apply holds_when
    | apply holds_forEachWith; intros ? ?
    | apply holds_forEach; intros ?
    | apply holds_modify; intros ? ?; assumption
    | apply holds_bind; [| intros ?] ].
Qed.

(** Whenever the loop over the properties of a struct returns it has
    printed one line for each, and nothing else. *)
Lemma forEach_structProp_printed methods (props : list ArgInfo) st st' :
  forEach props (fun arg =>
    emitProp gs pkg pkgNamespaces fuel (arg_name arg) (arg_type arg)
             (negb (hasSetter gs methods (arg_name arg))) (af_isDefault (arg_flags arg))) st
  = Ok (tt, st') ->
  out st'
  = Output_append (concatLines (map (structPropertyLine gs methods (out_tabStr (out st))) props))
                  (out st).
Proof.
  revert st. induction props as [|arg props IH]; intros st Hrun; cbn [forEach] in Hrun.
  - inversion Hrun; subst. unfold Output_append. cbn [map concatLines fold_right].
    rewrite append_nil_r. destruct (out st'); reflexivity.
  - apply bind_inv in Hrun as ([] & s1 & Hfirst & Hrest).
    apply emitProp_printed in Hfirst. apply IH in Hrest. rewrite Hrest, Hfirst.
    unfold Output_printlnf, Output_append, structPropertyLine.
    cbn [out_buf out_indent out_tabStr map concatLines fold_right].
    rewrite !append_assoc. reflexivity.
Qed.

Lemma maybeEmitStructProps_spec structInitializer methods fields st :
  propsApart gs methods [] (map arg_name (keywordArguments gs structInitializer)) = true ->
  maybeEmitStructProps gs pkg pkgNamespaces fuel structInitializer methods fields st
  = structPropsSpec gs pkg pkgNamespaces fuel structInitializer methods fields st.
Proof.
  intros Hapart. unfold maybeEmitStructProps, structPropsSpec.
  pose proof (structPropsLoop_spec gs pkg pkgNamespaces fuel methods fields
                (me_arguments (methodData gs structInitializer)) [] st Hapart) as Hloop.
  cbn [isAccessorOf isBackingFieldOf existsb negb] in Hloop.
  rewrite !filter_all in Hloop. cbn [app] in Hloop.
  rewrite (bind_ext _ _ _ _ st Hloop (fun _ _ => eq_refl)).
  rewrite bind_assoc. apply bind_ext; [reflexivity |]. intros _ st1. reflexivity.
Qed.

(** The rendering of a struct, step by step. *)
Lemma emit_klass_struct klass p st st' :
  co_superClass (classOrModuleData gs klass) = Symbols_T_Struct gs ->
  rendersClass gs klass = true ->
  p = classPending gs pkgNamespaces klass ->
  propsApart gs (pendingMethods p) []
             (map arg_name (keywordArguments gs (initializeMethod p))) = true ->
  emit_klass gs pkg pkgNamespaces fuel klass st = Ok (tt, st') ->
  exists s0 s1 s2 s3 s4 rest,
    out s0 = Output_tab (Output_printlnf (classHeader gs klass) (out st))
    /\ classPreamble gs pkg pkgNamespaces fuel klass
                     (N.eqb (co_superClass (classOrModuleData gs klass)) (Symbols_T_Enum gs)) s0
       = Ok (p, s1)
    /\ out s2
       = Output_append
           (concatLines
              (map (structPropertyLine gs (pendingMethods p)
                                       (spaces (Z.to_nat ((out_indent (out st) + 1) * 2))))
                   (keywordArguments gs (initializeMethod p))))
           (out s1)
    /\ structDefinitions gs pkg pkgNamespaces fuel (initializeMethod p) (pendingMethods p)
                         (pendingFields p) s2
       = Ok (rest, s3)
    /\ classEpilogue gs pkg pkgNamespaces fuel klass
                     (N.eqb (co_superClass (classOrModuleData gs klass)) (Symbols_T_Enum gs))
                     (pendingEnumValues p) [] s3
       = Ok (tt, s4)
    /\ out st' = Output_println "end" (Output_untab (out s4)).
Proof.
  intros Hsuper Hrenders Hp Hapart Hrun.
  destruct (emit_klass_rendered gs pkg pkgNamespaces fuel klass st st' Hrenders Hrun)
    as (isFlatFile & sh & sb & Hbody & Hend).
  assert (Hstruct : N.eqb (co_superClass (classOrModuleData gs klass)) (Symbols_T_Struct gs)
                    = true) by (rewrite Hsuper; apply N.eqb_refl).
  rewrite Hstruct in Hbody. unfold withIndent in Hbody.
  apply bind_inv in Hbody as ([] & s0 & Htab & Hbody).
  unfold modify in Htab. inversion Htab as [Hs0]. clear Htab.
  apply bind_inv in Hbody as ([] & s4 & Hbody & Huntab).
  apply bind_inv in Huntab as ([] & s5 & Huntab & Hret).
  unfold modify in Huntab. inversion Huntab as [Hs5]. clear Huntab.
  inversion Hret. subst sb. clear Hret.
  unfold println, modify in Hend. inversion Hend as [Hst']. clear Hend.
  rewrite emit_klass_body_struct in Hbody.
  apply bind_inv in Hbody as (p' & s1 & Hpre & Hbody).
  pose proof (classPreamble_pending _ _ _ _ _ Hpre) as Hp'.
  fold (classPending gs pkgNamespaces klass) in Hp'. rewrite <- Hp in Hp'. subst p'.
  apply bind_inv in Hbody as ([] & s3 & Hprops & Hepilogue).
  rewrite (maybeEmitStructProps_spec _ _ _ _ Hapart) in Hprops.
  unfold structPropsSpec in Hprops.
  apply bind_inv in Hprops as ([] & s2 & Hlines & Hdefs).
  apply bind_inv in Hdefs as (fields & sf & Hinit & Hdefs).
  apply bind_inv in Hdefs as (rest & s3' & Hmethods & Hret). inversion Hret. subst s3'.
  clear Hret.
  assert (Hin0 : indentedAt (out_indent (out st) + 1) s0).
  { rewrite <- Hs0. split; reflexivity. }
  pose proof (holds_ok _ _ _ _ _ _
                (classPreamble_indentedAt (out_indent (out st) + 1) klass _) Hin0 Hpre)
    as [_ Htab1].
  apply forEach_structProp_printed in Hlines. rewrite Htab1 in Hlines.
  exists s0, s1, s2, s3, s4, rest.
  split; [rewrite <- Hs0; reflexivity |].
  split; [exact Hpre |]. split; [exact Hlines |].
  split; [unfold structDefinitions; rewrite (bind_ok _ _ _ _ _ Hinit); exact Hmethods |].
  split; [exact Hepilogue |]. rewrite <- Hs5. reflexivity.
Qed.

(** [maybeEmitStructProps], step by step. *)
Lemma maybeEmitStructProps_steps structInitializer methods fields st st' :
  propsApart gs methods [] (map arg_name (keywordArguments gs structInitializer)) = true ->
  maybeEmitStructProps gs pkg pkgNamespaces fuel structInitializer methods fields st
  = Ok (tt, st') ->
  exists s2 rest,
    out s2
    = Output_append
        (concatLines (map (structPropertyLine gs methods (out_tabStr (out st)))
                          (keywordArguments gs structInitializer)))
        (out st)
    /\ structDefinitions gs pkg pkgNamespaces fuel structInitializer methods fields s2
       = Ok (rest, st').
Proof.
  intros Hapart Hrun. rewrite (maybeEmitStructProps_spec _ _ _ _ Hapart) in Hrun.
  unfold structPropsSpec in Hrun.
  apply bind_inv in Hrun as ([] & s2 & Hlines & Hdefs).
  apply bind_inv in Hdefs as (fields' & sf & Hinit & Hdefs).
  apply bind_inv in Hdefs as (rest & s3 & Hmethods & Hret). inversion Hret. subst s3.
  exists s2, rest. split; [apply forEach_structProp_printed, Hlines |].
  unfold structDefinitions. rewrite (bind_ok _ _ _ _ _ Hinit). exact Hmethods.
Qed.

End StructClass.

(** C3: a class whose superclass is [T::Struct] gets its properties back.
    - For an initializer whose properties have names and setters of their
      own, [maybeEmitStructProps] does what the specification says: it
      prints one property per keyword parameter, [const] when the pending
      methods hold no setter [name=] and [prop] otherwise, with the default
      expression exactly when the parameter has a default value; and the
      getter, the setter and the backing field of every property are gone
      from the lists whose members get definitions afterwards. Each property
      is the one line [propLine].
    - So a run of [maybeEmitStructProps] that returns has appended one line
      per keyword parameter, in their order, and then defined the
      initializer, when the user wrote it, and the methods that are no
      accessors, with the fields that back no property.
    - The body of a class whose superclass is [T::Struct] hands all its
      pending methods and fields to [maybeEmitStructProps] and has none
      pending afterwards: the properties of plain classes, the flatfile
      fields and the definitions of methods find nothing, and the methods
      of the singleton class declare no field.
    - So the rendering of such a class is: the class line; the modifiers,
      mixins, type members and what the members enqueue; the property
      lines, one level deeper than the class line; the definitions of the
      initializer and of the methods that are no accessors; the singleton
      class; [end]. *)
Theorem C3_struct_props_recovered gs pkg pkgNamespaces fuel :
  (forall structInitializer methods fields,
     propsApart gs methods [] (map arg_name (keywordArguments gs structInitializer)) = true ->
     (forall st,
        maybeEmitStructProps gs pkg pkgNamespaces fuel structInitializer methods fields st
        = structPropsSpec gs pkg pkgNamespaces fuel structInitializer methods fields st)
     /\ (forall st st',
           maybeEmitStructProps gs pkg pkgNamespaces fuel structInitializer methods fields st
           = Ok (tt, st') ->
           exists s2 rest,
             out s2
             = Output_append
                 (concatLines (map (structPropertyLine gs methods (out_tabStr (out st)))
                                   (keywordArguments gs structInitializer)))
                 (out st)
             /\ structDefinitions gs pkg pkgNamespaces fuel structInitializer methods fields s2
                = Ok (rest, st')))
  /\ (forall arg isConst st,
        showTypeEnds gs pkg pkgNamespaces fuel (arg_type arg) = true ->
        exists st',
          emitProp gs pkg pkgNamespaces fuel (arg_name arg) (arg_type arg) isConst
                   (af_isDefault (arg_flags arg)) st = Ok (tt, st')
          /\ out st'
             = Output_printlnf
                 (propLine gs (arg_name arg) (shownType gs (arg_type arg)) isConst
                           (af_isDefault (arg_flags arg)))
                 (out st))
  /\ (forall klass isEnum isFlatFile st,
        emit_klass_body gs pkg pkgNamespaces fuel klass isEnum true isFlatFile st
        = (let* p := classPreamble gs pkg pkgNamespaces fuel klass isEnum in
           maybeEmitStructProps gs pkg pkgNamespaces fuel (initializeMethod p)
                                (pendingMethods p) (pendingFields p) >>
           classEpilogue gs pkg pkgNamespaces fuel klass isEnum (pendingEnumValues p) []) st)
  /\ (forall klass p st st',
        co_superClass (classOrModuleData gs klass) = Symbols_T_Struct gs ->
        rendersClass gs klass = true ->
        p = classPending gs pkgNamespaces klass ->
        propsApart gs (pendingMethods p) []
                   (map arg_name (keywordArguments gs (initializeMethod p))) = true ->
        emit_klass gs pkg pkgNamespaces fuel klass st = Ok (tt, st') ->
        exists s0 s1 s2 s3 s4 rest,
          out s0 = Output_tab (Output_printlnf (classHeader gs klass) (out st))
          /\ classPreamble gs pkg pkgNamespaces fuel klass
                           (N.eqb (co_superClass (classOrModuleData gs klass))
                                  (Symbols_T_Enum gs)) s0
             = Ok (p, s1)
          /\ out s2
             = Output_append
                 (concatLines
                    (map (structPropertyLine gs (pendingMethods p)
                            (spaces (Z.to_nat ((out_indent (out st) + 1) * 2))))
                         (keywordArguments gs (initializeMethod p))))
                 (out s1)
          /\ structDefinitions gs pkg pkgNamespaces fuel (initializeMethod p)
                               (pendingMethods p) (pendingFields p) s2
             = Ok (rest, s3)
          /\ classEpilogue gs pkg pkgNamespaces fuel klass
                           (N.eqb (co_superClass (classOrModuleData gs klass))
                                  (Symbols_T_Enum gs))
                           (pendingEnumValues p) [] s3
             = Ok (tt, s4)
          /\ out st' = Output_println "end" (Output_untab (out s4))).
Proof.
  split; [| split; [| split]].
  - intros structInitializer methods fields Hapart. split.
    + intros st. apply maybeEmitStructProps_spec, Hapart.
    + intros st st'. apply maybeEmitStructProps_steps, Hapart.
  - intros arg isConst st Hends. apply emitProp_line, Hends.
  - intros klass isEnum isFlatFile st. apply emit_klass_body_struct.
  - intros klass p st st'. apply emit_klass_struct.
Qed.

(** [P::Point], marked and rendered: [const :a] and [prop :b] with a
    default, and no definition of [a], [b] or [b=]. *)
Lemma C3_witness :
  exists st' s1 s2,
    emit_klass World.gs World.pkgP World.namespaces World.fuel 11
               (mkExporter {[classSym 11]} ∅ ∅ [] initialOutput) = Ok (tt, st')
    /\ out_buf (out s2)
       = out_buf (out s1)
         +:+ ("  const :a, Integer" +:+ newline
              +:+ "  prop :b, String, default: T.let(T.unsafe(nil), String)" +:+ newline)
    /\ out_buf (out st')
       = "class P::Point < T::Struct" +:+ newline
         +:+ "  const :a, Integer" +:+ newline
         +:+ "  prop :b, String, default: T.let(T.unsafe(nil), String)" +:+ newline
         +:+ "end" +:+ newline.
Proof.
  destruct (emit_klass World.gs World.pkgP World.namespaces World.fuel 11
                       (mkExporter {[classSym 11]} ∅ ∅ [] initialOutput))
    as [[[] st']| |] eqn:Hrun; try (vm_compute in Hrun; discriminate Hrun).
  destruct (proj2 (proj2 (proj2
              (C3_struct_props_recovered World.gs World.pkgP World.namespaces World.fuel)))
              11%N _ _ st' eq_refl eq_refl eq_refl ltac:(vm_compute; reflexivity) Hrun)
    as (s0 & s1 & s2 & s3 & s4 & rest & _ & _ & Hlines & _).
  exists st', s1, s2. split; [reflexivity |]. split.
  - rewrite Hlines. reflexivity.
  - vm_compute in Hrun. inversion Hrun. reflexivity.
Defined.

(** ** An exception ends the run *)

Section Abort.

Context (gs : GlobalState) (pkg : PackageInfo).
Context (pkgNamespaces : gset ClassOrModuleRef) (fuel : nat).

(** A plural delegation without a target token raises. *)
Lemma tryEmitDefDelegator_no_token method arg0 args st :
  me_arguments (methodData gs method) = arg0 :: args ->
  StartsWith (arg_argumentName arg0) defDelegators = true ->
  noTargetToken (arg_argumentName arg0) ->
  tryEmitDefDelegator gs method st = Raise "Invalid def_delegator!".
Proof.
  intros Hargs Hplural Hnone. unfold tryEmitDefDelegator. rewrite Hargs.
  assert (Hd : StartsWith (arg_argumentName arg0) defDelegator = true).
  { unfold StartsWith in *. apply (prefix_append_l defDelegator "s"). exact Hplural. }
  rewrite Hd, Hplural. change (negb true) with false. cbv iota.
  unfold noTargetToken in Hnone.
  change (ByAnyChar delegatorDelims) with isDelegatorDelim.
  destruct (StrSplit (arg_argumentName arg0) isDelegatorDelim) as [|first components] eqn:E;
    [reflexivity |].
  simpl in Hnone. cbn [firstTarget Nat.ltb Nat.leb].
  rewrite (firstTarget_no_token 1 components Hnone). reflexivity.
Qed.

(** The exception of the delegation check is the exception of
    [emit(MethodRef)]: the method is marked by then, and nothing is printed. *)
Lemma emit_method_delegator_raises method fields st msg :
  renderable gs method = true ->
  methodSym method ∉ emittedSymbols st ->
  (forall st1, tryEmitDefDelegator gs method st1 = Raise msg) ->
  emit_method gs pkg pkgNamespaces fuel method fields st = Raise msg.
Proof.
  intros Hrender Hfresh Hraise.
  unfold renderable in Hrender. apply andb_prop in Hrender as [Hinit Hname].
  apply negb_true_iff in Hinit, Hname.
  unfold emit_method, bind, gets. simpl.
  rewrite bool_decide_eq_false_2 by exact Hfresh.
  rewrite Hinit. unfold insertEmitted, modify. rewrite Hname, Hraise. reflexivity.
Qed.

(** A singular delegation is printed as it is written. *)
Lemma tryEmitDefDelegator_singular method arg0 args st :
  me_arguments (methodData gs method) = arg0 :: args ->
  StartsWith (arg_argumentName arg0) defDelegator = true ->
  StartsWith (arg_argumentName arg0) defDelegators = false ->
  tryEmitDefDelegator gs method st
  = Ok (true, set_out (Output_println (arg_argumentName arg0) (out st)) st).
Proof.
  intros Hargs Hsingular Hplural. unfold tryEmitDefDelegator.
  rewrite Hargs, Hsingular, Hplural. reflexivity.
Qed.

(** The exception of the rendering of the symbol that [emitLoop] takes off
    the worklist is the exception of the loop. *)
Lemma emitLoop_fuel_raises_klass n st klass msg :
  last (toEmit st) = Some (classSym klass) ->
  emit_klass gs pkg pkgNamespaces fuel klass (withWorklist (removelast (toEmit st)) st)
  = Raise msg ->
  emitLoop_fuel gs pkg pkgNamespaces fuel (S n) st = Raise msg.
Proof.
  intros Hlast Hraise. cbn [emitLoop_fuel]. erewrite bind_ok by reflexivity.
  rewrite Hlast. unfold bind at 1. unfold popToEmit, modify.
  fold (withWorklist (removelast (toEmit st)) st). cbn [kind classSym].
  apply bind_raise. exact Hraise.
Qed.

Lemma emitLoop_fuel_raises_method n st method msg :
  last (toEmit st) = Some (methodSym method) ->
  emit_method gs pkg pkgNamespaces fuel method [] (withWorklist (removelast (toEmit st)) st)
  = Raise msg ->
  emitLoop_fuel gs pkg pkgNamespaces fuel (S n) st = Raise msg.
Proof.
  intros Hlast Hraise. cbn [emitLoop_fuel]. erewrite bind_ok by reflexivity.
  rewrite Hlast. unfold bind at 1. unfold popToEmit, modify.
  fold (withWorklist (removelast (toEmit st)) st). cbn [kind methodSym idx].
  apply bind_raise. apply bind_raise. exact Hraise.
Qed.

(** The exception of the loop of the production pass, or of the test pass,
    is the exception of [emit], and so of [runOnce]. *)
Lemma productionPass_raises roots sa msg st :
  forEach roots (maybeEmit gs pkg pkgNamespaces fuel) st = Ok (tt, sa) ->
  emitLoop gs pkg pkgNamespaces fuel sa = Raise msg ->
  toEmit st = [] ->
  productionPass gs pkg pkgNamespaces fuel roots st = Raise msg.
Proof.
  intros Hfeed Hloop Hidle. unfold productionPass.
  destruct (bool_decide (roots = [])) eqn:Hroots.
  - apply bool_decide_eq_true in Hroots. subst roots. inversion Hfeed; subst sa.
    rewrite (emitLoop_idle gs pkg pkgNamespaces fuel st Hidle) in Hloop. discriminate Hloop.
  - cbn [negb]. rewrite (bind_ok _ _ _ _ _ Hfeed). apply bind_raise. exact Hloop.
Qed.

Lemma testPass_raises testRoots sa msg st :
  forEach testRoots (maybeEmit gs pkg pkgNamespaces fuel) st = Ok (tt, sa) ->
  emitLoop gs pkg pkgNamespaces fuel sa = Raise msg ->
  toEmit st = [] ->
  testPass gs pkg pkgNamespaces fuel testRoots st = Raise msg.
Proof.
  intros Hfeed Hloop Hidle. unfold testPass.
  destruct (bool_decide (testRoots = [])) eqn:Hroots.
  - apply bool_decide_eq_true in Hroots. subst testRoots. inversion Hfeed; subst sa.
    rewrite (emitLoop_idle gs pkg pkgNamespaces fuel st Hidle) in Hloop. discriminate Hloop.
  - cbn [negb]. rewrite (bind_ok _ _ _ _ _ Hfeed). apply bind_raise. exact Hloop.
Qed.

Lemma runOnce_raises_production roots testRoots sa msg :
  splitExports gs pkg pkgNamespaces fuel (exports pkg) [] [] = Ok (roots, testRoots) ->
  forEach roots (maybeEmit gs pkg pkgNamespaces fuel) initialExporter = Ok (tt, sa) ->
  emitLoop gs pkg pkgNamespaces fuel sa = Raise msg ->
  runOnce gs pkg pkgNamespaces fuel = Raise msg.
Proof.
  intros Hsplit Hfeed Hloop. unfold runOnce, emit.
  unfold bind at 1. unfold liftResult at 1. rewrite Hsplit.
  rewrite (bind_raise _ _ _ _ (productionPass_raises roots sa msg initialExporter
                                 Hfeed Hloop eq_refl)).
  reflexivity.
Qed.

Lemma runOnce_raises_test roots testRoots stub deps s1 sa msg :
  splitExports gs pkg pkgNamespaces fuel (exports pkg) [] [] = Ok (roots, testRoots) ->
  productionPass gs pkg pkgNamespaces fuel roots initialExporter = Ok ((stub, deps), s1) ->
  forEach (resolveTestExports gs (testExports pkg) testRoots)
          (maybeEmit gs pkg pkgNamespaces fuel) s1 = Ok (tt, sa) ->
  emitLoop gs pkg pkgNamespaces fuel sa = Raise msg ->
  runOnce gs pkg pkgNamespaces fuel = Raise msg.
Proof.
  intros Hsplit Hprod Hfeed Hloop. unfold runOnce, emit.
  unfold bind at 1. unfold liftResult at 1. rewrite Hsplit.
  rewrite (bind_ok _ _ _ _ _ Hprod).
  assert (Hidle : toEmit s1 = []).
  { destruct (productionPass_runs gs pkg pkgNamespaces fuel roots initialExporter stub deps s1
                Hprod) as [(_ & _ & _ & ->) | (_ & a & b & _ & Hb & _ & Hs1 & _)].
    - reflexivity.
    - rewrite Hs1. cbn [handedOver toEmit].
      apply (emitLoop_fuel_drains gs pkg pkgNamespaces fuel fuel a b Hb). }
  rewrite (bind_raise _ _ _ _ (testPass_raises _ sa msg s1 Hfeed Hloop Hidle)).
  reflexivity.
Qed.

End Abort.

(** The exception of the job of a package is the exception of [run], when
    the jobs of the packages before it in the queue return: no file of the
    package, and none of a later package, is written. *)
Lemma runJobs_raises gs db packageNamespaces fuel outputDir before job after written msg :
  Forall (fun package =>
            exists output,
              runOnce gs (getPackageInfo db package) packageNamespaces fuel = Ok output)
         before ->
  runOnce gs (getPackageInfo db job) packageNamespaces fuel = Raise msg ->
  runJobs gs db packageNamespaces fuel outputDir (before ++ job :: after) written = Raise msg.
Proof.
  intros Hbefore Hjob. revert written.
  induction Hbefore as [|package before [output Hrun] _ IH]; intros written.
  - cbn [app runJobs]. rewrite Hjob. reflexivity.
  - cbn [app runJobs]. rewrite Hrun. apply IH.
Qed.

(** C7, as amended: rendering a class that the ownership walk rejects as
    owned by another package, or that is not in the visited set, raises
    "Invalid klass" and prints nothing; and a plural delegation (its text
    begins with [def_delegators]) none of whose components after the first
    holds a token raises "Invalid def_delegator!", from the delegation check
    and so from [emit(MethodRef)]. A singular delegation is printed as it is
    written, whatever its text. The run aborts: the exception of the
    rendering of a symbol is the exception of [emitLoop], that of the loop
    of a pass is the exception of [runOnce], and that of the job of a
    package is the exception of [run]. *)
Theorem C7_foreign_class_and_empty_plural_delegation_raise gs pkg pkgNamespaces fuel :
  (forall klass st,
     (exists k ns,
        reachesForeignPackage gs pkg pkgNamespaces (classSym klass) k ns /\ (k <= fuel)%nat)
     \/ ((classSym klass ∉ emittedSymbols st)
         /\ walkEnds gs pkg pkgNamespaces fuel (classSym klass) = true) ->
     emit_klass gs pkg pkgNamespaces fuel klass st = Raise "Invalid klass")
  /\ (forall method arg0 args,
        me_arguments (methodData gs method) = arg0 :: args ->
        StartsWith (arg_argumentName arg0) defDelegators = true ->
        noTargetToken (arg_argumentName arg0) ->
        (forall st, tryEmitDefDelegator gs method st = Raise "Invalid def_delegator!")
        /\ (forall fields st,
              renderable gs method = true ->
              methodSym method ∉ emittedSymbols st ->
              emit_method gs pkg pkgNamespaces fuel method fields st
              = Raise "Invalid def_delegator!"))
  /\ (forall method arg0 args st,
        me_arguments (methodData gs method) = arg0 :: args ->
        StartsWith (arg_argumentName arg0) defDelegator = true ->
        StartsWith (arg_argumentName arg0) defDelegators = false ->
        tryEmitDefDelegator gs method st
        = Ok (true, set_out (Output_println (arg_argumentName arg0) (out st)) st))
  /\ (forall n st klass msg,
        last (toEmit st) = Some (classSym klass) ->
        emit_klass gs pkg pkgNamespaces fuel klass (withWorklist (removelast (toEmit st)) st)
        = Raise msg ->
        emitLoop_fuel gs pkg pkgNamespaces fuel (S n) st = Raise msg)
  /\ (forall n st method msg,
        last (toEmit st) = Some (methodSym method) ->
        emit_method gs pkg pkgNamespaces fuel method []
                    (withWorklist (removelast (toEmit st)) st) = Raise msg ->
        emitLoop_fuel gs pkg pkgNamespaces fuel (S n) st = Raise msg)
  /\ (forall roots testRoots sa msg,
        splitExports gs pkg pkgNamespaces fuel (exports pkg) [] [] = Ok (roots, testRoots) ->
        forEach roots (maybeEmit gs pkg pkgNamespaces fuel) initialExporter = Ok (tt, sa) ->
        emitLoop gs pkg pkgNamespaces fuel sa = Raise msg ->
        runOnce gs pkg pkgNamespaces fuel = Raise msg)
  /\ (forall roots testRoots stub deps s1 sa msg,
        splitExports gs pkg pkgNamespaces fuel (exports pkg) [] [] = Ok (roots, testRoots) ->
        productionPass gs pkg pkgNamespaces fuel roots initialExporter = Ok ((stub, deps), s1) ->
        forEach (resolveTestExports gs (testExports pkg) testRoots)
                (maybeEmit gs pkg pkgNamespaces fuel) s1 = Ok (tt, sa) ->
        emitLoop gs pkg pkgNamespaces fuel sa = Raise msg ->
        runOnce gs pkg pkgNamespaces fuel = Raise msg)
  /\ (forall db outputDir before job after msg,
        buildPackageNamespace gs db = Ok pkgNamespaces ->
        packages db = (before ++ job :: after)%list ->
        Forall (fun package =>
                  exists output,
                    runOnce gs (getPackageInfo db package) pkgNamespaces fuel = Ok output)
               before ->
        runOnce gs (getPackageInfo db job) pkgNamespaces fuel = Raise msg ->
        run gs db fuel outputDir = Raise msg).
Proof.
  split; [| split; [| split; [| split; [| split; [| split; [| split]]]]]].
  - intros klass st [(k & ns & (Hpass & Hanc & Hns & Hroot & Hown) & Hk) | (Hfresh & Hends)].
    + eapply emit_klass_rejected. unfold isInPackage.
      destruct (le_split k fuel Hk) as [n ->].
      rewrite (isInPackage_fuel_climb gs pkg pkgNamespaces k n _ _ st Hpass), Hanc.
      apply isInPackage_fuel_foreign; [exact Hroot | exact Hown |].
      unfold isPackageNamespace. simpl. apply bool_decide_eq_true_2, Hns.
    + destruct (isInPackage_fuel_ends gs pkg pkgNamespaces fuel (classSym klass)
                  (classSym klass) st Hends) as (b & st' & Hrun & Hkeep & _).
      eapply emit_klass_unvisited; [exact Hrun |]. rewrite Hkeep. exact Hfresh.
  - intros method arg0 args Hargs Hplural Hnone.
    assert (Hcheck : forall st, tryEmitDefDelegator gs method st = Raise "Invalid def_delegator!")
      by (intros st; exact (tryEmitDefDelegator_no_token gs method arg0 args st
                              Hargs Hplural Hnone)).
    split; [exact Hcheck |]. intros fields st Hrender Hfresh.
    apply emit_method_delegator_raises; assumption.
  - intros method arg0 args st. apply tryEmitDefDelegator_singular.
  - intros n st klass msg. apply emitLoop_fuel_raises_klass.
  - intros n st method msg. apply emitLoop_fuel_raises_method.
  - intros roots testRoots sa msg. apply runOnce_raises_production.
  - intros roots testRoots stub deps s1 sa msg. apply runOnce_raises_test.
  - intros db outputDir before job after msg Hbuild Hqueue Hbefore Hjob.
    unfold run. rewrite Hbuild, Hqueue. apply runJobs_raises; assumption.
Qed.

(** [Q::B] handed to the renderer of package [P]; and package [P] exporting
    [P::Fwd] with the method [worse], declared by the bare text
    [def_delegators]: its job, and the run, end with the exception. *)
Lemma C7_witness :
  emit_klass World.gs World.pkgP World.namespaces World.fuel 8 initialExporter
  = Raise "Invalid klass"
  /\ run Delegations.gs Delegations.db World.fuel "rbis" = Raise "Invalid def_delegator!".
Proof.
  split.
  - apply (proj1 (C7_foreign_class_and_empty_plural_delegation_raise World.gs World.pkgP
                    World.namespaces World.fuel) 8%N initialExporter).
    left. exists 1%nat, 7%N. split; [| vm_compute; lia].
    unfold reachesForeignPackage.
    split; [vm_compute; reflexivity |].
    split; [vm_compute; reflexivity |].
    split; [apply World_namespace_elem; vm_compute; reflexivity |].
    split; vm_compute; reflexivity.
  - pose proof (C7_foreign_class_and_empty_plural_delegation_raise Delegations.gs
                  Delegations.pkgFwd Delegations.namespaces World.fuel)
      as (_ & Hdelegation & _ & Hloop & _ & Hjob & _ & Hrun).
    apply (Hrun Delegations.db "rbis" [] 38%N [] "Invalid def_delegator!");
      [vm_compute; reflexivity | reflexivity | constructor |].
    apply (Hjob [classSym 12] [] (mkExporter {[classSym 12]} ∅ ∅ [classSym 12] initialOutput));
      [vm_compute; reflexivity | vm_compute; reflexivity |].
    apply (Hloop 7%nat _ 12%N); [reflexivity |].
    vm_compute. reflexivity.
Defined.

(** C7, as stated, fails on a singular delegation: the method [bad] is
    recognised as a delegation (the name of its first parameter begins with
    [def_delegator]), its text holds no token after the keyword, and it is
    printed as it is, without an error. *)
Lemma C7_counterexample :
  me_arguments (methodData World.gs 7) = [World.delegatorArg "def_delegator"; World.blk]
  /\ StartsWith "def_delegator" defDelegator = true
  /\ noTargetToken "def_delegator"
  /\ tryEmitDefDelegator World.gs 7 initialExporter
     = Ok (true, set_out (mkOutput ("def_delegator" +:+ newline) 0 EmptyString)
                         initialExporter).
Proof.
  split; [reflexivity |]. split; [reflexivity |].
  split; [unfold noTargetToken; vm_compute; constructor |].
  vm_compute. reflexivity.
Qed.
